(** * OLX car-cover scraper: a shallow embedding of [main.py]

    The development follows the class [OLXCarCoverScraper]:
    - Python strings are sequences of Unicode code points ([list N]);
    - the few services of the [re] module the scraper uses are given by a
      small backtracking matcher ([Module Re]);
    - a listing is a Python [dict] from keys to values ([gmap string pyval]);
    - Selenium is an external collaborator: a rendered node is a snapshot
      answering selector queries, the browser is an abstract world threaded
      through a state-and-exception monad;
    - the file system, the clock and the console that [save_to_csv],
      [save_to_json] and [main] use are a second collaborator, threaded the
      same way. *)

From Stdlib Require Import NArith ZArith Lia.
From stdpp Require Import base option list strings pretty gmap.

Local Open Scope N_scope.

(** ** Python strings *)

(** A [str] is a list of code points. *)
Abbreviation pystr := (list N).

(** A literal over ASCII. *)
Definition py (s : string) : pystr :=
  map Ascii.N_of_ascii (String.list_ascii_of_string s).

(** U+20B9 INDIAN RUPEE SIGN. *)
Definition rupee : N := 0x20B9.

(** [str.isspace] on one code point, which is also what [\s] matches in a
    [str] pattern: the ASCII controls 9-13 and 28-31, the space, and the
    Unicode white space beyond. *)
Definition isspace (c : N) : bool :=
  ((9 <=? c) && (c <=? 13)) || ((28 <=? c) && (c <=? 32))
  || (c =? 0x85) || (c =? 0xA0) || (c =? 0x1680)
  || ((0x2000 <=? c) && (c <=? 0x200A))
  || (c =? 0x2028) || (c =? 0x2029) || (c =? 0x202F) || (c =? 0x205F)
  || (c =? 0x3000).

Fixpoint take_while (p : N -> bool) (s : pystr) : pystr :=
  match s with
  | c :: r => if p c then c :: take_while p r else []
  | [] => []
  end.

Fixpoint drop_while (p : N -> bool) (s : pystr) : pystr :=
  match s with
  | c :: r => if p c then drop_while p r else s
  | [] => []
  end.

Definition lstrip (s : pystr) : pystr := drop_while isspace s.

Definition rstrip (s : pystr) : pystr := rev (lstrip (rev s)).

(** [s.strip()] *)
Definition strip (s : pystr) : pystr := rstrip (lstrip s).

(** Truth value of a string: empty is false. *)
Definition nonempty (s : pystr) : bool :=
  match s with [] => false | _ => true end.

Definition nonempty_list {A} (l : list A) : bool :=
  match l with [] => false | _ => true end.

(** [s[i:j]] for [0 <= i] and [0 <= j]. *)
Definition slice (s : pystr) (i j : nat) : pystr := take (j - i) (drop i s).

(** [sub in s] *)
Fixpoint starts_with (sub s : pystr) : bool :=
  match sub, s with
  | [], _ => true
  | _ :: _, [] => false
  | a :: sub', b :: s' => (a =? b) && starts_with sub' s'
  end.

Fixpoint str_in (sub s : pystr) : bool :=
  starts_with sub s ||
  match s with
  | [] => false
  | _ :: s' => str_in sub s'
  end.

Definition ascii_lower (c : N) : N :=
  if (65 <=? c) && (c <=? 90) then c + 32 else c.

Definition is_ascii (c : N) : bool := c <? 128.

(** ** The [re] module, as far as the scraper uses it *)

Module Re.

(** Patterns: items, sequences, alternatives, a greedy [*] over a
    one-character item and a greedy optional group. *)
Inductive regex : Type :=
| Eps
| Chr (p : N -> bool)
| Seq (r1 r2 : regex)
| Alt (r1 r2 : regex)
| Star (p : N -> bool)
| Opt (r : regex).

Definition Plus (p : N -> bool) : regex := Seq (Chr p) (Star p).

Fixpoint seq_of (rs : list regex) : regex :=
  match rs with
  | [] => Eps
  | [r] => r
  | r :: rs' => Seq r (seq_of rs')
  end.

(** Greedy repetition: take the item as often as it goes, give back one
    character at a time while the rest of the pattern fails. *)
Fixpoint star {A} (p : N -> bool) (s : pystr) (k : pystr -> option A)
  : option A :=
  match s with
  | c :: s' =>
      if p c then
        match star p s' k with
        | Some x => Some x
        | None => k s
        end
      else k s
  | [] => k []
  end.

(** The backtracking matcher, in continuation-passing style: [k] is the
    rest of the pattern, applied to the unread input. *)
Fixpoint run {A} (r : regex) (s : pystr) (k : pystr -> option A)
  : option A :=
  match r with
  | Eps => k s
  | Chr p =>
      match s with
      | c :: s' => if p c then k s' else None
      | [] => None
      end
  | Seq r1 r2 => run r1 s (fun s' => run r2 s' k)
  | Alt r1 r2 =>
      match run r1 s k with
      | Some x => Some x
      | None => run r2 s k
      end
  | Star p => star p s k
  | Opt r1 =>
      match run r1 s k with
      | Some x => Some x
      | None => k s
      end
  end.

(** Length of the match of [r] at the start of [s]. *)
Definition match_len (r : regex) (s : pystr) : option nat :=
  (fun rest => length s - length rest)%nat <$> run r s Some.

(** [re.finditer]: the spans [(start, end)] of the non-overlapping
    matches, scanning from the left; [skip] counts the characters of the
    current match still to pass.  An empty match is reported and the scan
    moves on by one character (no pattern of the scraper can match the
    empty string). *)
Fixpoint finditer_from (r : regex) (pos : nat) (s : pystr) (skip : nat)
  : list (nat * nat) :=
  match s with
  | [] => []
  | _ :: s' =>
      match skip with
      | S n => finditer_from r (S pos) s' n
      | O =>
          match match_len r s with
          | Some n => (pos, pos + n)%nat :: finditer_from r (S pos) s' (pred n)
          | None => finditer_from r (S pos) s' 0
          end
      end
  end.

Definition finditer (r : regex) (s : pystr) : list (nat * nat) :=
  finditer_from r 0 s 0.

(** [m.group()] *)
Definition group (s : pystr) (m : nat * nat) : pystr := slice s m.1 m.2.

(** [re.findall] for a pattern without groups. *)
Definition findall (r : regex) (s : pystr) : list pystr :=
  group s <$> finditer r s.

(** [re.search]: the leftmost match. *)
Fixpoint search_from (r : regex) (pos : nat) (s : pystr)
  : option (nat * nat) :=
  match match_len r s with
  | Some n => Some (pos, pos + n)%nat
  | None =>
      match s with
      | [] => None
      | _ :: s' => search_from r (S pos) s'
      end
  end.

Definition search (r : regex) (s : pystr) : option (nat * nat) :=
  search_from r 0 s.

(** [re.sub(r, repl, s)] for a literal replacement. *)
Fixpoint sub_from (r : regex) (repl : pystr) (s : pystr) (skip : nat)
  : pystr :=
  match s with
  | [] => []
  | c :: s' =>
      match skip with
      | S n => sub_from r repl s' n
      | O =>
          match match_len r s with
          | Some (S n) => repl ++ sub_from r repl s' n
          | Some O => repl ++ c :: sub_from r repl s' 0
          | None => c :: sub_from r repl s' 0
          end
      end
  end.

Definition sub (r : regex) (repl s : pystr) : pystr := sub_from r repl s 0.

(** A literal string, and a class given by its members. *)
Definition lit (c : N) : N -> bool := N.eqb c.

End Re.

(** ** The Unicode character database

    What [re] and [str] take from the database beyond ASCII is a parameter
    of the model: which code points from 128 on are decimal digits
    (category Nd, what [\d] matches), what [str.lower] makes of a string
    that is not pure ASCII, and which code points from 128 on match an
    ASCII letter of a pattern compiled with [re.IGNORECASE]. *)
Class UnicodeData : Type := {
  decimal_beyond_ascii : N -> bool;
  lower_beyond_ascii : pystr -> pystr;
  ignorecase_beyond_ascii : N -> N -> bool
}.

(** The database with nothing beyond ASCII: no further digit, no further
    letter with a case. *)
Definition ascii_only : UnicodeData := {|
  decimal_beyond_ascii := fun _ => false;
  lower_beyond_ascii := map ascii_lower;
  ignorecase_beyond_ascii := fun _ _ => false
|}.

(** [\d] in a [str] pattern. *)
Definition isdecimal {U : UnicodeData} (c : N) : bool :=
  if is_ascii c then (48 <=? c) && (c <=? 57) else decimal_beyond_ascii c.

(** [s.lower()] *)
Definition lower {U : UnicodeData} (s : pystr) : pystr :=
  if forallb is_ascii s then map ascii_lower s else lower_beyond_ascii s.

(** An ASCII lower-case letter [l] of a pattern under [re.IGNORECASE]. *)
Definition ignorecase {U : UnicodeData} (l c : N) : bool :=
  if is_ascii c then ascii_lower c =? l else ignorecase_beyond_ascii l c.

(** ** PriceNormalizer: [extract_price] *)

(** The class [[₹,\s]]. *)
Definition currency_class (c : N) : bool :=
  (c =? rupee) || (c =? 44) || isspace c.

Definition extract_price {U : UnicodeData} (price_text : option pystr)
  : option pystr :=
  match price_text with
  | None => None
  | Some text =>
      if negb (nonempty text) then None
      else
        let price_clean := Re.sub (Re.Chr currency_class) [] (strip text) in
        let numbers := Re.findall (Re.Plus isdecimal) price_clean in
        if nonempty_list numbers then Some (concat numbers) else None
  end.

(** What is left of [s] without the code points of the class [p]. *)
Definition without (p : N -> bool) (s : pystr) : pystr :=
  List.filter (fun c => negb (p c)) s.

(** Following the spec's words: [runs] are the maximal runs of [p]-code
    points (digits) of a text, in order of appearance.  The text is a gap
    without digits, or a gap, a run, and a rest that does not go on with a
    digit and holds the remaining runs. *)
Inductive maximal_runs (p : N -> bool) : pystr -> list pystr -> Prop :=
| runs_none gap :
    Forall (fun c => p c = false) gap ->
    maximal_runs p gap []
| runs_next gap run rest runs :
    Forall (fun c => p c = false) gap ->
    run <> [] ->
    Forall (fun c => p c = true) run ->
    (forall c, head rest = Some c -> p c = false) ->
    maximal_runs p rest runs ->
    maximal_runs p (gap ++ run ++ rest) (run :: runs).

(** ** Listings and exceptions *)

(** The values a listing holds: [None] or a [str]. *)
Inductive pyval : Type :=
| PNone
| PStr (s : pystr).

(** The exceptions the scraper meets; all are subclasses of [Exception]. *)
Inductive exn : Type :=
| NoSuchElementException
| TimeoutException
| WebDriverException
| AttributeError
| OSError.

(** The outcome of an expression that may raise. *)
Inductive res (A : Type) : Type :=
| Ok (a : A)
| Raise (e : exn).
Arguments Ok {A} a.
Arguments Raise {A} e.

(** The sentinel of absent data. *)
Definition NA : pystr := py "N/A".

(** ** RelevanceClassifier: [is_car_cover_listing] *)

Definition car_cover_keywords : list pystr :=
  py <$> ["car cover"; "body cover"; "seat cover"; "wheel cover";
          "brake cover"; "car mat"]%string.

Definition exclude_keywords : list pystr :=
  py <$> ["bhk"; "flat"; "apartment"; "parking"; "rent"; "sale"; "sqft";
          "bathroom"; "bedroom"]%string.

(** [any(keyword in title for keyword in keywords)] *)
Definition any_in (keywords : list pystr) (title : pystr) : bool :=
  existsb (fun keyword => str_in keyword title) keywords.

(** A listing is a [dict]; [get('title', '')] gives the empty string for a
    missing key, and [None] has no [lower]. *)
Definition is_car_cover_listing {U : UnicodeData}
    (listing_data : gmap string pyval) : res bool :=
  match default (PStr []) (listing_data !! "title"%string) with
  | PNone => Raise AttributeError
  | PStr t =>
      let title := lower t in
      let has_car_cover := any_in car_cover_keywords title in
      let has_property := any_in exclude_keywords title in
      Ok (has_car_cover && negb has_property)
  end.

(** Following the spec's words: [sub] is a substring of [s]. *)
Definition contains (sub s : pystr) : Prop :=
  exists before after : pystr, s = before ++ sub ++ after.

(** ** FieldExtractor: [extract_listing_data] *)

(** Sequencing of expressions that may raise. *)
Global Instance res_ret : MRet res := fun A a => Ok a.
Global Instance res_bind : MBind res := fun A B f m =>
  match m with
  | Ok a => f a
  | Raise e => Raise e
  end.

(** A [WebElement] as the extractor reads it. *)
Record element : Type := {
  text : res pystr;
  get_attribute : string -> res pyval
}.

(** A rendered node answers [find_element(By.CSS_SELECTOR, selector)]: an
    element, [NoSuchElementException], or another fault. *)
Abbreviation node := (string -> res element).

Definition title_selectors : list string :=
  ["[data-aut-id='itemTitle']"; "h2"; "h3"; ".rui-35953";
   "a[href*='/item/']"]%string.

Definition price_selectors : list string :=
  ["[data-aut-id='itemPrice']"; ".rui-ANJaG"; "span[class*='price']";
   "span[class*='amount']"]%string.

Definition location_selectors : list string :=
  ["[data-aut-id='item-location']"; ".rui-1Wks1"; "span[class*='location']";
   "span[class*='place']"]%string.

Definition date_selectors : list string :=
  ["[data-aut-id='item-date']"; "span[class*='date']";
   "span[class*='time']"]%string.

Definition url_selector : string := "a[href*='/item/']".

(** [value or 'N/A'] *)
Definition or_NA (value : option pystr) : pystr :=
  match value with
  | Some (c :: s) => c :: s
  | _ => NA
  end.

(** The loop over the selectors of [title], [location] and [date] (three
    copies in the source); [value] is the variable the loop assigns. *)
Fixpoint text_loop (listing_element : node) (selectors : list string)
    (value : option pystr) : res (option pystr) :=
  match selectors with
  | [] => Ok value
  | selector :: rest =>
      match elem ← listing_element selector; t ← text elem; Ok (strip t) with
      | Ok t =>
          if nonempty t then Ok (Some t)
          else text_loop listing_element rest (Some t)
      | Raise NoSuchElementException => text_loop listing_element rest value
      | Raise e => Raise e
      end
  end.

(** The loop over the price selectors. *)
Fixpoint price_loop {U : UnicodeData} (listing_element : node)
    (selectors : list string) (price : option pystr) : res (option pystr) :=
  match selectors with
  | [] => Ok price
  | selector :: rest =>
      match elem ← listing_element selector; t ← text elem;
            Ok (extract_price (Some (strip t))) with
      | Ok p =>
          if from_option nonempty false p then Ok p
          else price_loop listing_element rest p
      | Raise NoSuchElementException => price_loop listing_element rest price
      | Raise e => Raise e
      end
  end.

Definition find_url (listing_element : node) : res pyval :=
  match link ← listing_element url_selector;
        get_attribute link "href"%string with
  | Ok url => Ok url
  | Raise NoSuchElementException => Ok (PStr NA)
  | Raise e => Raise e
  end.

Definition extract_listing_data {U : UnicodeData} (listing_element : node)
  : option (gmap string pyval) :=
  let attempt : res (gmap string pyval) :=
    let data : gmap string pyval := ∅ in
    title ← text_loop listing_element title_selectors None;
    let data := <["title"%string := PStr (or_NA title)]> data in
    price ← price_loop listing_element price_selectors None;
    let data := <["price"%string := PStr (or_NA price)]> data in
    location ← text_loop listing_element location_selectors None;
    let data := <["location"%string := PStr (or_NA location)]> data in
    date ← text_loop listing_element date_selectors None;
    let data := <["date"%string := PStr (or_NA date)]> data in
    url ← find_url listing_element;
    let data := <["url"%string := url]> data in
    Ok data in
  match attempt with
  | Ok data => Some data
  | Raise _ => None
  end.

(** Following the spec's words: the trimmed text of the selector's match,
    when there is a match. *)
Definition matched_text (n : node) (selector : string) : option pystr :=
  match n selector with
  | Ok elem =>
      match text elem with
      | Ok t => Some (strip t)
      | Raise _ => None
      end
  | Raise _ => None
  end.

(** The first candidate that is a non-empty string, else "N/A". *)
Fixpoint first_nonempty (candidates : list (option pystr)) : pystr :=
  match candidates with
  | [] => NA
  | Some (c :: s) :: _ => c :: s
  | _ :: rest => first_nonempty rest
  end.

Definition chain_text (n : node) (selectors : list string) : pystr :=
  first_nonempty (matched_text n <$> selectors).

Definition chain_price {U : UnicodeData} (n : node)
    (selectors : list string) : pystr :=
  first_nonempty
    ((fun selector => t ← matched_text n selector; extract_price (Some t))
       <$> selectors).


(** ** DegradedTextExtractor: [extract_from_page_source] *)

(** The letters of [w], each matched without regard to case. *)
Definition word {U : UnicodeData} (w : string) : Re.regex :=
  Re.seq_of ((fun l => Re.Chr (ignorecase l)) <$> py w).

(** "car\s*cover" and the like. *)
Definition cover_of {U : UnicodeData} (what : string) : Re.regex :=
  Re.seq_of [word what; Re.Star isspace; word "cover"].

(** The classes [[\d,]], [[^<\n]] and [[^<>]]. *)
Definition digit_or_comma {U : UnicodeData} (c : N) : bool :=
  isdecimal c || (c =? 44).

Definition not_tag_or_newline (c : N) : bool := negb ((c =? 60) || (c =? 10)).

Definition not_tag (c : N) : bool := negb ((c =? 60) || (c =? 62)).

(** The price pattern: "₹\s*[\d,]+", then an optional group made of
    "\s*[^<\n]*", one of "car\s*cover", "seat\s*cover" and "body\s*cover",
    and "[^<\n]*"; compiled with [re.IGNORECASE]. *)
Definition price_pattern {U : UnicodeData} : Re.regex :=
  Re.seq_of
    [Re.Chr (Re.lit rupee); Re.Star isspace; Re.Plus digit_or_comma;
     Re.Opt
       (Re.seq_of
          [Re.Star isspace; Re.Star not_tag_or_newline;
           Re.Alt (cover_of "car")
             (Re.Alt (cover_of "seat") (cover_of "body"));
           Re.Star not_tag_or_newline])].

(** One of "car\s*cover", "seat\s*cover", "body\s*cover" and
    "wheel\s*cover". *)
Definition cover_keyword {U : UnicodeData} : Re.regex :=
  Re.Alt (cover_of "car")
    (Re.Alt (cover_of "seat")
       (Re.Alt (cover_of "body") (cover_of "wheel"))).

(** The title pattern: a cover keyword, then "[^<>]*"; compiled with
    [re.IGNORECASE]. *)
Definition title_pattern {U : UnicodeData} : Re.regex :=
  Re.Seq cover_keyword (Re.Star not_tag).

(** The value of an expression that is [None] or a string. *)
Definition value_of (v : option pystr) : pyval :=
  match v with
  | Some s => PStr s
  | None => PNone
  end.

(** The body of the loop over the matches.  Nothing in it can raise, so
    the handler around the loop is never entered. *)
Definition page_source_step {U : UnicodeData} (page_source : pystr)
    (listings : list (gmap string pyval)) (m : nat * nat)
  : list (gmap string pyval) :=
  let context_start := Z.max 0 (Z.of_nat m.1 - 200) in
  let context_end :=
    Z.min (Z.of_nat (length page_source)) (Z.of_nat m.2 + 200) in
  let context :=
    slice page_source (Z.to_nat context_start) (Z.to_nat context_end) in
  match Re.search title_pattern context with
  | Some title_match =>
      let listing : gmap string pyval :=
        <["title"%string := PStr (strip (Re.group context title_match))]>
        (<["price"%string :=
             value_of (extract_price (Some (Re.group page_source m)))]>
        (<["location"%string := PStr NA]>
        (<["date"%string := PStr NA]>
        (<["url"%string := PStr NA]> ∅)))) in
      listings ++ [listing]
  | None => listings
  end.

Definition extract_from_page_source {U : UnicodeData} (page_source : pystr)
  : list (gmap string pyval) :=
  let matches := Re.finditer price_pattern page_source in
  fold_left (page_source_step page_source) matches [].

(** Following the documentation of [re.finditer], for a pattern without
    empty matches: [spans] are the matches of [r] in [s] found from position
    [from] on, scanning left to right; each is the match at the first
    position with a match that is not before the end of the previous one. *)
Inductive scanned (r : Re.regex) (s : pystr)
  : nat -> list (nat * nat) -> Prop :=
| scanned_end from :
    (forall i, (from <= i < length s)%nat ->
               Re.match_len r (drop i s) = None) ->
    scanned r s from []
| scanned_match from a n spans :
    (from <= a < length s)%nat ->
    (forall i, (from <= i < a)%nat -> Re.match_len r (drop i s) = None) ->
    Re.match_len r (drop a s) = Some n ->
    (0 < n)%nat ->
    scanned r s (a + n) spans ->
    scanned r s from ((a, (a + n)%nat) :: spans).

(** Following the documentation of [re.search]: the match at the first
    position of [s] that has one. *)
Definition leftmost (r : Re.regex) (s : pystr) (m : nat * nat) : Prop :=
  (m.1 <= length s)%nat
  /\ (exists n, Re.match_len r (drop m.1 s) = Some n /\ m.2 = (m.1 + n)%nat)
  /\ (forall i, (i < m.1)%nat -> Re.match_len r (drop i s) = None).

(** Following the spec's words: the window of 200 characters before the
    match and 200 after it, clamped to the bounds of the markup. *)
Definition context_window (markup : pystr) (m : nat * nat) : pystr :=
  slice markup (m.1 - 200) (min (length markup) (m.2 + 200)).

(** The listing of one price match: the first title match of its window,
    trimmed, the normalized text of the price match, and "N/A" for the
    rest; none when the window has no title match. *)
Definition degraded_listing {U : UnicodeData} (markup : pystr)
    (m : nat * nat) : option (gmap string pyval) :=
  let context := context_window markup m in
  title_match ← Re.search title_pattern context;
  Some (<["title"%string := PStr (strip (Re.group context title_match))]>
        (<["price"%string :=
             value_of (extract_price (Some (Re.group markup m)))]>
        (<["location"%string := PStr NA]>
        (<["date"%string := PStr NA]>
        (<["url"%string := PStr NA]> ∅))))).

(** ** The browser session *)

(** What the scraper asks of Selenium and of the file system.  Each call
    answers with a value or raises, and moves the world on:
    - [start_chrome]: installing the driver and [webdriver.Chrome(...)];
    - [driver_get url]: [driver.get(url)];
    - [wait_presence selector timeout]: [WebDriverWait(driver,
      timeout).until(presence_of_element_located(...))], which raises
      [TimeoutException] when nothing shows up in time;
    - [scroll_height]: [execute_script("return document.body.scrollHeight")];
    - [scroll_to_bottom]: [execute_script("window.scrollTo(...)")];
    - [sleep seconds]: [time.sleep(seconds)];
    - [get_page_source]: [driver.page_source];
    - [save_page_source content]: [open(...)] and [f.write(content)];
    - [find_elements selector]: [driver.find_elements(By.CSS_SELECTOR,
      selector)], the nodes as they are when the call returns;
    - [driver_quit]: [driver.quit()]. *)
Class Browser (world : Type) : Type := {
  start_chrome : world -> res () * world;
  driver_get : string -> world -> res () * world;
  wait_presence : string -> Z -> world -> res () * world;
  scroll_height : world -> res Z * world;
  scroll_to_bottom : world -> res () * world;
  sleep : Z -> world -> world;
  get_page_source : world -> res pystr * world;
  save_page_source : pystr -> world -> res () * world;
  find_elements : string -> world -> res (list node) * world;
  driver_quit : world -> res () * world
}.

(** The calls made, with their answers, in order. *)
Inductive event : Type :=
| Started (r : res ())
| Got (url : string) (r : res ())
| Waited (selector : string) (timeout : Z) (r : res ())
| Height (r : res Z)
| Scrolled (r : res ())
| Slept (seconds : Z)
| PageSource (r : res pystr)
| Saved (r : res ())
| Found (selector : string) (r : res (list node))
| QuitDriver (r : res ()).

(** A method of the scraper: it runs in a world with the log of the calls
    made so far, and returns a value or raises. *)
Definition M (world A : Type) : Type :=
  world * list event -> res A * (world * list event).

Global Instance M_ret {world} : MRet (M world) := fun A a s => (Ok a, s).
Global Instance M_bind {world} : MBind (M world) := fun A B f m s =>
  match m s with
  | (Ok a, s') => f a s'
  | (Raise e, s') => (Raise e, s')
  end.

(** One call, logged with its answer. *)
Definition perform {world A} (log : res A -> event)
    (call : world -> res A * world) : M world A :=
  fun s =>
    let '(r, w') := call s.1 in
    (r, (w', s.2 ++ [log r])).

Definition do_sleep {world} {B : Browser world} (seconds : Z) : M world () :=
  fun s => (Ok (), (sleep seconds s.1, s.2 ++ [Slept seconds])).

(** [try: body except Exception as e: handler] *)
Definition try_except {world A} (body : M world A)
    (handler : exn -> M world A) : M world A :=
  fun s =>
    match body s with
    | (Ok a, s') => (Ok a, s')
    | (Raise e, s') => handler e s'
    end.

(** [try: body finally: cleanup]; an exception of the cleanup replaces the
    outcome of the body. *)
Definition try_finally {world A} (body : M world A)
    (cleanup : M world ()) : M world A :=
  fun s =>
    let '(r, s') := body s in
    match cleanup s' with
    | (Ok _, s'') => (r, s'')
    | (Raise e, s'') => (Raise e, s'')
    end.

Definition search_url : string := "https://www.olx.in/items/q-car-cover".

Section Scraper.
Context {U : UnicodeData} {world : Type} {B : Browser world}.

Definition setup_driver : M world bool :=
  try_except
    (_ ← perform Started start_chrome; mret true)
    (fun _ => mret false).

(** ** ListingLocator: [wait_for_listings] *)

Definition listing_selectors : list string :=
  ["[data-aut-id='itemBox']"; ".EIR5N"; "[data-aut-id='itemTitle']";
   ".rui-38N2G"; ".rui-1ykdW"; "li[data-aut-id='itemBox']"]%string.

(** The loop over the candidate selectors. *)
Fixpoint wait_loop (selectors : list string) (timeout : Z)
  : M world (option string) :=
  match selectors with
  | [] => mret None
  | selector :: rest =>
      fun s =>
        match perform (Waited selector timeout)
                (wait_presence selector timeout) s with
        | (Ok _, s') => (Ok (Some selector), s')
        | (Raise TimeoutException, s') => wait_loop rest timeout s'
        | (Raise e, s') => (Raise e, s')
        end
  end.

Definition wait_for_listings (timeout : Z) : M world (option string) :=
  try_except (wait_loop listing_selectors timeout) (fun _ => mret None).

(** ** The scroll loop *)

Definition scroll_to_load_more : M world bool :=
  try_except
    (last_height ← perform Height scroll_height;
     _ ← perform Scrolled scroll_to_bottom;
     _ ← do_sleep 3;
     new_height ← perform Height scroll_height;
     mret (bool_decide (new_height > last_height)%Z))
    (fun _ => mret false).

(** [while scroll_attempts < max_scrolls: ...], run for at most [fuel]
    tests of the condition; [None] when the fuel runs out before the loop
    ends, else the final [scroll_attempts]. *)
Fixpoint scroll_loop (fuel : nat) (scroll_attempts max_scrolls : Z)
  : M world (option Z) :=
  match fuel with
  | O => mret None
  | S fuel' =>
      if bool_decide (scroll_attempts < max_scrolls)%Z then
        more ← scroll_to_load_more;
        if negb more then mret (Some scroll_attempts)
        else scroll_loop fuel' (scroll_attempts + 1) max_scrolls
      else mret (Some scroll_attempts)
  end.

(** ** ScrapeOrchestrator: [scrape_listings] *)

(** The loop over the listing elements; what [extract_listing_data] or
    [is_car_cover_listing] raise skips the element. *)
Fixpoint listing_loop (listing_elements : list node)
    (all_listings : list (gmap string pyval)) : list (gmap string pyval) :=
  match listing_elements with
  | [] => all_listings
  | element :: rest =>
      match extract_listing_data element with
      | Some listing_data =>
          match is_car_cover_listing listing_data with
          | Ok true => listing_loop rest (all_listings ++ [listing_data])
          | Ok false => listing_loop rest all_listings
          | Raise _ => listing_loop rest all_listings
          end
      | None => listing_loop rest all_listings
      end
  end.

(** [self.driver] is set once [setup_driver] has returned [True], so the
    [finally] block always quits the driver.  The scroll loop gets more
    fuel than its bound of 3 needs. *)
Definition scrape_listings : M world (list (gmap string pyval)) :=
  ready ← setup_driver;
  if negb ready then mret []
  else
    let all_listings : list (gmap string pyval) := [] in
    try_finally
      (try_except
         (_ ← perform (Got search_url) (driver_get search_url);
          _ ← do_sleep 5;
          listing_selector ← wait_for_listings 15;
          match listing_selector with
          | None =>
              page_source ← perform PageSource get_page_source;
              _ ← perform Saved (save_page_source page_source);
              mret (extract_from_page_source page_source)
          | Some selector =>
              _ ← scroll_loop 4 0 3;
              listing_elements ← perform (Found selector)
                                   (find_elements selector);
              mret (listing_loop listing_elements all_listings)
          end)
         (fun _ => mret all_listings))
      (perform QuitDriver driver_quit).

End Scraper.

(** ** What the claims speak of *)

(** A wait that ran into its timeout. *)
Definition timed_out (timeout : Z) (selector : string) : event :=
  Waited selector timeout (Raise TimeoutException).

(** Following the spec's words: the candidates are tried in their order,
    each up to the timeout; the first that matches is returned; when none
    matches within the whole traversal the result is null.  A wait that
    fails otherwise ends the traversal with null as well. *)
Inductive located (selectors : list string) (timeout : Z)
  : option string -> list event -> Prop :=
| located_first i selector :
    selectors !! i = Some selector ->
    located selectors timeout (Some selector)
      ((timed_out timeout <$> take i selectors)
       ++ [Waited selector timeout (Ok ())])
| located_none :
    located selectors timeout None (timed_out timeout <$> selectors)
| located_fault i selector e :
    selectors !! i = Some selector ->
    e <> TimeoutException ->
    located selectors timeout None
      ((timed_out timeout <$> take i selectors)
       ++ [Waited selector timeout (Raise e)]).

Definition is_scroll (e : event) : bool :=
  match e with
  | Scrolled _ => true
  | _ => false
  end.

(** The number of scrolls among the calls. *)
Definition scrolls (events : list event) : nat :=
  length (List.filter is_scroll events).

(** [n] scroll-and-settle cycles in a row, with what each one reported. *)
Fixpoint scroll_cycles {world} {B : Browser world} (n : nat)
  : M world (list bool) :=
  match n with
  | O => mret []
  | S n' =>
      more ← scroll_to_load_more;
      rest ← scroll_cycles n';
      mret (more :: rest)
  end.

(** A browser for examples.  The world is the number of calls made so
    far; the page has the markup [page], shows the elements [elements]
    under the selectors [present] accepts, and is [height now] high;
    [quit_ok] tells whether quitting the driver succeeds. *)
Definition scripted (page : pystr) (present : string -> bool)
    (elements : list node) (height : nat -> Z) (quit_ok : bool)
  : Browser nat := {|
  start_chrome now := (Ok (), S now);
  driver_get url now := (Ok (), S now);
  wait_presence selector timeout now :=
    (if present selector then Ok () else Raise TimeoutException, S now);
  scroll_height now := (Ok (height now), S now);
  scroll_to_bottom now := (Ok (), S now);
  sleep seconds now := S now;
  get_page_source now := (Ok page, S now);
  save_page_source content now := (Ok (), S now);
  find_elements selector now :=
    (Ok (if present selector then elements else []), S now);
  driver_quit now :=
    (if quit_ok then Ok () else Raise WebDriverException, S now)
|}.

(** The span of the spec's scenario. *)
Definition sedan_span : pystr :=
  rupee :: py " 899 Waterproof Car Cover for Sedan".

(** ** The calls behind a log *)

Section Calls.
Context {world : Type} {B : Browser world}.

(** The event [e] is a call made in the world [w]: it shows the answer the
    browser gave there, and the call left the world [w'].  [Saved] does not
    tell what was written. *)
Definition event_step (w : world) (e : event) (w' : world) : Prop :=
  match e with
  | Started r => start_chrome w = (r, w')
  | Got url r => driver_get url w = (r, w')
  | Waited selector timeout r => wait_presence selector timeout w = (r, w')
  | Height r => scroll_height w = (r, w')
  | Scrolled r => scroll_to_bottom w = (r, w')
  | Slept seconds => sleep seconds w = w'
  | PageSource r => get_page_source w = (r, w')
  | Saved r => exists content, save_page_source content w = (r, w')
  | Found selector r => find_elements selector w = (r, w')
  | QuitDriver r => driver_quit w = (r, w')
  end.

(** The events are calls made one after the other, from the world [w] on,
    each with its true answer, and they leave the world [w']. *)
Fixpoint genuine (w : world) (events : list event) (w' : world) : Prop :=
  match events with
  | [] => w' = w
  | e :: rest => exists w1, event_step w e w1 /\ genuine w1 rest w'
  end.

(** What [m] adds to the log are the calls it made, no more and no less. *)
Definition truthful {A} (m : M world A) : Prop :=
  forall s, exists events,
    (m s).2.2 = s.2 ++ events /\ genuine s.1 events (m s).2.1.

End Calls.

(** Following the spec's words: a scroll-and-settle cycle reads the height
    of the page, scrolls to the bottom, lets the page settle for 3 seconds
    and reads the height again; it reports growth when the second height is
    greater than the first.  A call that fails ends the cycle, which then
    reports no growth. *)
Inductive cycle : bool -> list event -> Prop :=
| cycle_settled h1 h2 :
    cycle (bool_decide (h1 < h2)%Z)
      [Height (Ok h1); Scrolled (Ok ()); Slept 3; Height (Ok h2)]
| cycle_no_height e : cycle false [Height (Raise e)]
| cycle_no_scroll h1 e : cycle false [Height (Ok h1); Scrolled (Raise e)]
| cycle_no_second_height h1 e :
    cycle false
      [Height (Ok h1); Scrolled (Ok ()); Slept 3; Height (Raise e)].

(** Following the spec's words: up to [bound] cycles, one after the other,
    stopping early at the first that reports no growth; [grown] counts the
    cycles that reported growth. *)
Inductive scrolled : nat -> nat -> list event -> Prop :=
| scrolled_bound : scrolled 0 0 []
| scrolled_stop bound events :
    cycle false events -> scrolled (S bound) 0 events
| scrolled_on bound grown events rest :
    cycle true events -> scrolled bound grown rest ->
    scrolled (S bound) (S grown) (events ++ rest).

(** A page that grows with every scroll: the height read after a scroll
    and the pause is greater than the one read before, and no call fails. *)
Definition grows {world} {B : Browser world} : Prop :=
  forall w,
    exists h1 h2 : Z,
      (scroll_height w).1 = Ok h1
      /\ (scroll_to_bottom (scroll_height w).2).1 = Ok ()
      /\ (scroll_height
            (sleep 3 (scroll_to_bottom (scroll_height w).2).2)).1 = Ok h2
      /\ (h1 < h2)%Z.

(** ** What the further properties speak of *)

(** The code points some item of the pattern accepts. *)
Fixpoint accepted (r : Re.regex) (c : N) : bool :=
  match r with
  | Re.Eps => false
  | Re.Chr p => p c
  | Re.Seq r1 r2 => accepted r1 c || accepted r2 c
  | Re.Alt r1 r2 => accepted r1 c || accepted r2 c
  | Re.Star p => p c
  | Re.Opt r1 => accepted r1 c
  end.

(** The five keys of a listing. *)
Definition listing_keys : gset string :=
  {["title"; "price"; "location"; "date"; "url"]}%string.

Definition is_quit (e : event) : bool :=
  match e with
  | QuitDriver _ => true
  | _ => false
  end.

(** The guarded block of [scrape_listings], between starting and quitting
    the driver. *)
Definition session {U : UnicodeData} {world} {B : Browser world}
    (all_listings : list (gmap string pyval))
  : M world (list (gmap string pyval)) :=
  try_except
    (_ ← perform (Got search_url) (driver_get search_url);
     _ ← do_sleep 5;
     listing_selector ← wait_for_listings 15;
     match listing_selector with
     | None =>
         page_source ← perform PageSource get_page_source;
         _ ← perform Saved (save_page_source page_source);
         mret (extract_from_page_source page_source)
     | Some selector =>
         _ ← scroll_loop 4 0 3;
         listing_elements ← perform (Found selector)
                              (find_elements selector);
         mret (listing_loop listing_elements all_listings)
     end)
    (fun _ => mret all_listings).

(** [m] only adds events of the kind [P] to the log. *)
Definition logs_only {world A} (P : event -> Prop) (m : M world A) : Prop :=
  forall s, exists events,
    (m s).2.2 = s.2 ++ events /\ Forall P events.

(** [m] extends the log by some events, and [Q] holds of its outcome and
    these events. *)
Definition yields {world A} (Q : res A -> list event -> Prop)
    (m : M world A) : Prop :=
  forall s, exists events,
    (m s).2.2 = s.2 ++ events /\ Q (m s).1 events.

(** Where a list of listings comes from, given the browser calls made. *)
Definition provenance {U : UnicodeData}
    (listings : list (gmap string pyval)) (events : list event) : Prop :=
  listings = []
  \/ (exists page_source,
        PageSource (Ok page_source) ∈ events
        /\ listings = extract_from_page_source page_source)
  \/ (exists selector listing_elements,
        selector ∈ listing_selectors
        /\ Waited selector 15 (Ok ()) ∈ events
        /\ Found selector (Ok listing_elements) ∈ events
        /\ listings = listing_loop listing_elements []).

(** The language of a pattern: the strings it matches as a whole. *)
Fixpoint denotes (r : Re.regex) (w : pystr) : Prop :=
  match r with
  | Re.Eps => w = []
  | Re.Chr p => exists c, w = [c] /\ p c = true
  | Re.Seq r1 r2 =>
      exists w1 w2, w = w1 ++ w2 /\ denotes r1 w1 /\ denotes r2 w2
  | Re.Alt r1 r2 => denotes r1 w \/ denotes r2 w
  | Re.Star p => Forall (fun c => p c = true) w
  | Re.Opt r1 => w = [] \/ denotes r1 w
  end.

(** Following the comment of the loop in [scrape_listings]: the record of
    an element is kept when the element can be read and its record is
    classified as a car cover. *)
Definition kept {U : UnicodeData} (element : node)
  : option (gmap string pyval) :=
  match extract_listing_data element with
  | Some listing_data =>
      match is_car_cover_listing listing_data with
      | Ok true => Some listing_data
      | _ => None
      end
  | None => None
  end.
(** ** Saving and reporting: [save_to_csv], [save_to_json], [main] *)

(** The [dict] that [save_to_json] hands to [json.dump]. *)
Record json_data : Type := {
  timestamp : pystr;
  search_query : pystr;
  total_listings : nat;
  listings : list (gmap string pyval)
}.

(** What saving and reporting ask of the file system, the clock and the
    console.  Each call moves the world on; all but the clock may raise:
    - [open_write filename]: [open(filename, 'w', ...)];
    - [writeheader filename fieldnames]: [csv.DictWriter(csvfile,
      fieldnames=fieldnames).writeheader()] on the file opened under
      [filename];
    - [writerow filename row]: [writer.writerow(row)];
    - [json_dump filename data]: [json.dump(data, jsonfile, indent=2,
      ensure_ascii=False)];
    - [close_file filename]: what leaving the [with] block does;
    - [now_strftime]: [datetime.now().strftime("%Y%m%d_%H%M%S")];
    - [now_isoformat]: [datetime.now().isoformat()];
    - [print text]: [print(text)].
    The calls of [logger] are left out: the logging module reports a failing
    handler on its own and does not raise. *)
Class System (world : Type) : Type := {
  open_write : pystr -> world -> res () * world;
  writeheader : pystr -> list string -> world -> res () * world;
  writerow : pystr -> gmap string pyval -> world -> res () * world;
  json_dump : pystr -> json_data -> world -> res () * world;
  close_file : pystr -> world -> res () * world;
  now_strftime : world -> pystr * world;
  now_isoformat : world -> pystr * world;
  print : pystr -> world -> res () * world
}.

(** The calls of the program, with their answers, in order; [Scraped] stands
    for one run of [scrape_listings], with the browser calls it made,
    [Stamped] for a reading of the clock with [strftime] and [IsoStamped]
    for one with [isoformat]. *)
Inductive action : Type :=
| Printed (text : pystr) (r : res ())
| Scraped (events : list event) (r : res (list (gmap string pyval)))
| Stamped (text : pystr)
| IsoStamped (text : pystr)
| Opened (filename : pystr) (r : res ())
| HeaderWritten (filename : pystr) (fieldnames : list string) (r : res ())
| RowWritten (filename : pystr) (row : gmap string pyval) (r : res ())
| Dumped (filename : pystr) (data : json_data) (r : res ())
| Closed (filename : pystr) (r : res ()).

(** A step of the program: it runs in a world with the log of the calls
    made so far, and returns a value or raises. *)
Definition IO (world A : Type) : Type :=
  world * list action -> res A * (world * list action).

Global Instance IO_ret {world} : MRet (IO world) := fun A a s => (Ok a, s).
Global Instance IO_bind {world} : MBind (IO world) := fun A B f m s =>
  match m s with
  | (Ok a, s') => f a s'
  | (Raise e, s') => (Raise e, s')
  end.

(** One call, logged with its answer. *)
Definition call {world A} (log : res A -> action)
    (op : world -> res A * world) : IO world A :=
  fun s =>
    let '(r, w') := op s.1 in
    (r, (w', s.2 ++ [log r])).

(** Reading the clock. *)
Definition clock {world} (log : pystr -> action)
    (op : world -> pystr * world) : IO world pystr :=
  fun s =>
    let '(text, w') := op s.1 in
    (Ok text, (w', s.2 ++ [log text])).

(** [try: body except Exception as e: handler] *)
Definition attempt {world A} (body : IO world A)
    (handler : exn -> IO world A) : IO world A :=
  fun s =>
    match body s with
    | (Ok a, s') => (Ok a, s')
    | (Raise e, s') => handler e s'
    end.

(** [body], then [cleanup] however the body ends; an exception of the
    cleanup replaces the outcome of the body. *)
Definition ensure {world A} (body : IO world A) (cleanup : IO world ())
  : IO world A :=
  fun s =>
    let '(r, s') := body s in
    match cleanup s' with
    | (Ok _, s'') => (r, s'')
    | (Raise e, s'') => (Raise e, s'')
    end.

(** [with open(filename, 'w', ...) as f: body]: when [open] raises, nothing
    is closed; else the file is closed however the body ends. *)
Definition with_open {world A} {D : System world} (filename : pystr)
    (body : IO world A) : IO world A :=
  _ ← call (Opened filename) (open_write filename);
  ensure body (call (Closed filename) (close_file filename)).

Definition fieldnames : list string :=
  ["title"; "price"; "location"; "date"; "url"]%string.

(** [listing.get(key, 'N/A')] *)
Definition get_or_NA (listing : gmap string pyval) (key : string) : pyval :=
  default (PStr NA) (listing !! key).

(** The [dict] given to [writer.writerow]. *)
Definition csv_row (listing : gmap string pyval) : gmap string pyval :=
  <["url"%string := get_or_NA listing "url"]>
    (<["date"%string := get_or_NA listing "date"]>
       (<["location"%string := get_or_NA listing "location"]>
          (<["price"%string := get_or_NA listing "price"]>
             (<["title"%string := get_or_NA listing "title"]> ∅)))).






Section Saving.
Context {U : UnicodeData} {world : Type} {B : Browser world}
  {D : System world}.

(** [for listing in listings: writer.writerow({...})] *)
Fixpoint row_loop (filename : pystr) (listings : list (gmap string pyval))
  : IO world () :=
  match listings with
  | [] => mret ()
  | listing :: rest =>
      _ ← call (RowWritten filename (csv_row listing))
            (writerow filename (csv_row listing));
      row_loop filename rest
  end.

Definition save_to_csv (listings : list (gmap string pyval))
    (filename : pystr) : IO world bool :=
  if negb (nonempty_list listings) then mret false
  else
    attempt
      (_ ← with_open filename
             (_ ← call (HeaderWritten filename fieldnames)
                    (writeheader filename fieldnames);
              row_loop filename listings);
       mret true)
      (fun _ => mret false).

Definition save_to_json (listings : list (gmap string pyval))
    (filename : pystr) : IO world bool :=
  if negb (nonempty_list listings) then mret false
  else
    attempt
      (now ← clock IsoStamped now_isoformat;
       let data := {| timestamp := now;
                      search_query := py "car cover";
                      total_listings := length listings;
                      listings := listings |} in
       _ ← with_open filename
             (call (Dumped filename data) (json_dump filename data));
       mret true)
      (fun _ => mret false).






End Saving.

(** ** What the properties of saving and reporting speak of *)

(** A call that was answered without an exception. *)
Definition answered (a : action) : bool :=
  match a with
  | Printed _ (Ok _) | Scraped _ (Ok _) | Stamped _ | IsoStamped _
  | Opened _ (Ok _)
  | HeaderWritten _ _ (Ok _) | RowWritten _ _ (Ok _) | Dumped _ _ (Ok _)
  | Closed _ (Ok _) => true
  | _ => false
  end.

(** The files the program tried to open, in order. *)
Definition opened (a : action) : option pystr :=
  match a with
  | Opened filename _ => Some filename
  | _ => None
  end.

(** The files the program closed, in order. *)
Definition closed (a : action) : option pystr :=
  match a with
  | Closed filename _ => Some filename
  | _ => None
  end.

(** The lines printed, in order. *)
Definition printed (a : action) : option pystr :=
  match a with
  | Printed text _ => Some text
  | _ => None
  end.

(** The start of a sample's price line. *)
Definition price_label : pystr := py "   Price: " ++ [rupee].

Definition is_price_line (text : pystr) : bool := starts_with price_label text.

(** The price lines printed, in order. *)
Definition price_lines (added : list action) : list pystr :=
  List.filter is_price_line (omap printed added).

(** [m] returns a value, tries to open the files [files] and prints the
    price lines [lines], whatever the state it starts in. *)
Definition quiet {world A} (files lines : list pystr) (m : IO world A)
  : Prop :=
  forall s, exists a w' added,
    m s = (Ok a, (w', s.2 ++ added))
    /\ omap opened added = files
    /\ price_lines added = lines.

(** The row written for a listing, when the writer accepts it. *)
Definition row_written (filename : pystr) (listing : gmap string pyval)
  : action :=
  RowWritten filename (csv_row listing) (Ok ()).

(** Following the docstring of [save_to_csv] and the way of a writer: the
    calls between opening and closing the file are the header and then one
    row per listing, in order, up to the first call that fails. *)
Inductive written (filename : pystr) (listings : list (gmap string pyval))
  : list action -> Prop :=
| written_all :
    written filename listings
      (HeaderWritten filename fieldnames (Ok ())
         :: (row_written filename <$> listings))
| written_no_header e :
    written filename listings [HeaderWritten filename fieldnames (Raise e)]
| written_until k listing e :
    listings !! k = Some listing ->
    written filename listings
      (HeaderWritten filename fieldnames (Ok ())
         :: (row_written filename <$> take k listings)
         ++ [RowWritten filename (csv_row listing) (Raise e)]).



Section Performed.
Context {U : UnicodeData} {world : Type} {B : Browser world}
  {D : System world}.

(** The action [a] is a call made in the world [w]: it shows the answer
    given there, and the call left the world [w']. *)
Definition action_step (w : world) (a : action) (w' : world) : Prop :=
  match a with
  | Printed text r => print text w = (r, w')
  | Scraped events r => scrape_listings (w, []) = (r, (w', events))
  | Stamped text => now_strftime w = (text, w')
  | IsoStamped text => now_isoformat w = (text, w')
  | Opened filename r => open_write filename w = (r, w')
  | HeaderWritten filename names r => writeheader filename names w = (r, w')
  | RowWritten filename row r => writerow filename row w = (r, w')
  | Dumped filename data r => json_dump filename data w = (r, w')
  | Closed filename r => close_file filename w = (r, w')
  end.

(** The actions are calls made one after the other, from the world [w] on,
    each with its true answer, and they leave the world [w']. *)
Fixpoint performed (w : world) (actions : list action) (w' : world)
  : Prop :=
  match actions with
  | [] => w' = w
  | a :: rest => exists w1, action_step w a w1 /\ performed w1 rest w'
  end.

(** What [m] adds to the log are the calls it made, no more and no less. *)
Definition faithful {A} (m : IO world A) : Prop :=
  forall s, exists added,
    (m s).2.2 = s.2 ++ added /\ performed s.1 added (m s).2.1.

End Performed.


(** A page without listing containers that shows the span of the spec's
    scenario. *)
Definition sedan_page : pystr := py "<p>" ++ sedan_span ++ py "</p>".

(** * Properties *)

(** ** Strings *)

Lemma take_drop_while p s : take_while p s ++ drop_while p s = s.
Proof.
  induction s as [|c s IH]; simpl; [done|].
  destruct (p c); simpl; [by rewrite IH|done].
Qed.

Lemma take_while_all p s : Forall (fun c => p c = true) (take_while p s).
Proof.
  induction s as [|c s IH]; simpl; [constructor|].
  destruct (p c) eqn:E; by constructor.
Qed.

Lemma drop_while_head p s c : head (drop_while p s) = Some c -> p c = false.
Proof.
  induction s as [|a s IH]; simpl; [done|].
  destruct (p a) eqn:E; simpl; [done|]. by intros [= <-].
Qed.

Lemma drop_while_length p s : (length (drop_while p s) <= length s)%nat.
Proof.
  induction s as [|a s IH]; simpl; [done|].
  destruct (p a); simpl; lia.
Qed.

Lemma drop_while_drop p s : drop_while p s = drop (length (take_while p s)) s.
Proof.
  induction s as [|a s IH]; simpl; [done|].
  destruct (p a); simpl; done.
Qed.

Lemma without_app p s t : without p (s ++ t) = without p s ++ without p t.
Proof. apply List.filter_app. Qed.

Lemma without_rev p s : without p (rev s) = rev (without p s).
Proof.
  induction s as [|c s IH]; simpl; [done|].
  rewrite without_app, IH. simpl. destruct (p c); simpl; [by rewrite app_nil_r|done].
Qed.

Lemma without_drop_while (p q : N -> bool) s :
  (forall c, q c = true -> p c = true) ->
  without p (drop_while q s) = without p s.
Proof.
  intros Hqp. induction s as [|c s IH]; simpl; [done|].
  destruct (q c) eqn:E; simpl; [|done].
  by rewrite (Hqp c E).
Qed.

Lemma isspace_currency c : isspace c = true -> currency_class c = true.
Proof. unfold currency_class. intros ->. by rewrite orb_true_r. Qed.

Lemma without_strip s : without currency_class (strip s) = without currency_class s.
Proof.
  unfold strip, rstrip, lstrip.
  rewrite without_rev, (without_drop_while _ _ _ isspace_currency).
  rewrite without_rev, rev_involutive.
  apply without_drop_while, isspace_currency.
Qed.

Lemma drop_while_idemp p s : drop_while p (drop_while p s) = drop_while p s.
Proof.
  induction s as [|c s IH]; simpl; [done|].
  destruct (p c) eqn:E; [done|]. simpl. by rewrite E.
Qed.

Lemma drop_while_id p s :
  (forall c, head s = Some c -> p c = false) -> drop_while p s = s.
Proof.
  destruct s as [|c s]; [done|]. intros H. simpl. by rewrite (H c eq_refl).
Qed.

(** What [rstrip] leaves is the front of the string. *)
Lemma rstrip_prefix s : exists w, s = rstrip s ++ w.
Proof.
  unfold rstrip, lstrip. exists (rev (take_while isspace (rev s))).
  rewrite <- rev_app_distr, take_drop_while. by rewrite rev_involutive.
Qed.

(** A trimmed string stays as it is when trimmed again. *)
Lemma strip_idemp s : strip (strip s) = strip s.
Proof.
  unfold strip.
  assert (Hl : lstrip (rstrip (lstrip s)) = rstrip (lstrip s)).
  { apply drop_while_id. intros c Hc.
    destruct (rstrip_prefix (lstrip s)) as [w Hw].
    apply (drop_while_head isspace s). unfold lstrip in Hw. rewrite Hw.
    unfold lstrip in Hc. destruct (rstrip (drop_while isspace s)); [done|].
    exact Hc. }
  rewrite Hl. unfold rstrip, lstrip. rewrite rev_involutive.
  by rewrite drop_while_idemp.
Qed.

(** ** The matcher *)

Lemma star_Some p s : Re.star p s Some = Some (drop_while p s).
Proof.
  induction s as [|c s IH]; simpl; [done|].
  destruct (p c); [by rewrite IH|done].
Qed.

Lemma match_len_Chr p s :
  Re.match_len (Re.Chr p) s =
    match s with
    | c :: _ => if p c then Some 1%nat else None
    | [] => None
    end.
Proof.
  unfold Re.match_len. destruct s as [|c s]; simpl; [done|].
  destruct (p c); simpl; [|done]. f_equal. lia.
Qed.

Lemma match_len_Plus p s :
  Re.match_len (Re.Plus p) s =
    match s with
    | c :: s' => if p c then Some (S (length (take_while p s'))) else None
    | [] => None
    end.
Proof.
  unfold Re.match_len. destruct s as [|c s]; simpl; [done|].
  destruct (p c); simpl; [|done]. rewrite star_Some. simpl. f_equal.
  rewrite <- (take_drop_while p s) at 1. rewrite length_app. lia.
Qed.

Lemma sub_Chr_empty p s : Re.sub (Re.Chr p) [] s = without p s.
Proof.
  unfold Re.sub. induction s as [|c s IH]; simpl; [done|].
  rewrite match_len_Chr. destruct (p c); simpl; by rewrite IH.
Qed.

Lemma finditer_from_skip r s : forall pos k,
  Re.finditer_from r pos s k = Re.finditer_from r (pos + k) (drop k s) 0.
Proof.
  induction s as [|c s IH]; intros pos k.
  - by rewrite drop_nil.
  - destruct k as [|k]; simpl.
    + by rewrite Nat.add_0_r.
    + rewrite IH. f_equal. lia.
Qed.

Lemma group_at_suffix (pre s : pystr) n :
  Re.group (pre ++ s) (length pre, (length pre + n)%nat) = take n s.
Proof.
  unfold Re.group, slice. simpl. rewrite drop_app_length. f_equal. lia.
Qed.

Lemma maximal_runs_gap p c s runs :
  p c = false -> maximal_runs p s runs -> maximal_runs p (c :: s) runs.
Proof.
  intros Hc Hs. destruct Hs as [gap Hgap|gap run rest runs Hgap Hne Hrun Hhd Hrest].
  - constructor. by constructor.
  - change (c :: gap ++ run ++ rest) with ((c :: gap) ++ run ++ rest).
    constructor; try done. by constructor.
Qed.

Lemma findall_Plus_from p : forall n s pre,
  (length s <= n)%nat ->
  maximal_runs p s
    (Re.group (pre ++ s) <$> Re.finditer_from (Re.Plus p) (length pre) s 0).
Proof.
  induction n as [|n IH]; intros s pre Hn.
  - destruct s; simpl in Hn; [|lia]. simpl. by constructor.
  - destruct s as [|c s]; [simpl; by constructor|].
    simpl in Hn. cbn [Re.finditer_from]. rewrite match_len_Plus.
    destruct (p c) eqn:Hc.
    + cbn [pred]. rewrite finditer_from_skip. cbn [fmap list_fmap].
      rewrite group_at_suffix. cbn [take].
      rewrite <- drop_while_drop.
      assert (Htk : take (length (take_while p s)) s = take_while p s).
      { rewrite <- (take_drop_while p s) at 2. by rewrite take_app_length. }
      rewrite Htk.
      assert (Hpre : pre ++ c :: s
                     = (pre ++ c :: take_while p s) ++ drop_while p s).
      { rewrite <- app_assoc. simpl. by rewrite take_drop_while. }
      assert (Hlen : (S (length pre) + length (take_while p s))%nat
                     = length (pre ++ c :: take_while p s)).
      { rewrite length_app. simpl. lia. }
      rewrite Hpre, Hlen.
      pose proof (IH (drop_while p s) (pre ++ c :: take_while p s)) as IH'.
      pose proof (drop_while_length p s) as Hle.
      pose proof (runs_next p [] (c :: take_while p s) (drop_while p s)) as R.
      simpl in R. rewrite take_drop_while in R.
      apply R.
      * constructor.
      * done.
      * constructor; [done|apply take_while_all].
      * apply drop_while_head.
      * apply IH'. lia.
    + replace (pre ++ c :: s) with ((pre ++ [c]) ++ s) by (by rewrite <- app_assoc).
      replace (S (length pre)) with (length (pre ++ [c]))
        by (rewrite length_app; simpl; lia).
      apply maximal_runs_gap; [done|]. apply IH. lia.
Qed.

Lemma findall_Plus_runs p s : maximal_runs p s (Re.findall (Re.Plus p) s).
Proof.
  unfold Re.findall, Re.finditer.
  apply (findall_Plus_from p (length s) s []). lia.
Qed.

Lemma maximal_runs_concat p s runs :
  maximal_runs p s runs -> concat runs = List.filter p s.
Proof.
  induction 1 as [gap Hgap|gap run rest runs Hgap Hne Hrun Hhd Hrest IH].
  - simpl. induction Hgap as [|c g Hc _ IHg]; simpl; [done|]. by rewrite Hc.
  - simpl. rewrite !List.filter_app, IH.
    assert (List.filter p gap = []) as ->.
    { clear -Hgap. induction Hgap as [|c g Hc _ IHg]; simpl; [done|]. by rewrite Hc. }
    assert (List.filter p run = run) as ->; [|done].
    clear -Hrun. induction Hrun as [|c g Hc _ IHg]; simpl; [done|].
    by rewrite Hc, IHg.
Qed.

(** ** PriceNormalizer *)

Section PriceNormalizer.
Context {U : UnicodeData}.

Lemma extract_price_runs (text : pystr) :
  extract_price (Some text) =
    if nonempty text
       && nonempty_list
            (Re.findall (Re.Plus isdecimal) (without currency_class text))
    then Some (concat (Re.findall (Re.Plus isdecimal)
                         (without currency_class text)))
    else None.
Proof.
  unfold extract_price. destruct text as [|c text]; [done|].
  cbn [nonempty negb andb]. by rewrite sub_Chr_empty, without_strip.
Qed.

(** The result, when there is one, is the non-empty string of the digits
    of the text. *)
Lemma extract_price_Some (text price : pystr) :
  extract_price (Some text) = Some price ->
  price <> []
  /\ price = List.filter isdecimal (without currency_class text)
  /\ Forall (fun c => isdecimal c = true) price.
Proof.
  rewrite extract_price_runs.
  pose proof (findall_Plus_runs isdecimal (without currency_class text)) as Hruns.
  destruct (nonempty text); [|done]. cbn [andb].
  destruct (Re.findall _ _) as [|run runs] eqn:E; [done|].
  cbn [nonempty_list]. intros [= <-].
  pose proof (maximal_runs_concat _ _ _ Hruns) as Hcat.
  split; [|split].
  - inversion Hruns; subst. simpl. by destruct run.
  - done.
  - change (run ++ concat runs) with (concat (run :: runs)).
    rewrite Hcat. apply Forall_forall. intros c Hc.
    apply list_elem_of_In, List.filter_In in Hc. tauto.
Qed.

(** C2: [extract_price] maps null and the empty string to null; otherwise
    it drops the rupee sign, commas and white space, takes the maximal digit
    runs of what is left and returns their concatenation in order of
    appearance, or null when there is no run.  It is a total function, and
    gives "12500" on "₹ 12,500", null on "" and on "no digits". *)
Theorem extract_price_normalizes :
  extract_price None = None
  /\ extract_price (Some []) = None
  /\ (forall text : pystr, exists runs : list pystr,
        maximal_runs isdecimal (without currency_class text) runs
        /\ extract_price (Some text) =
             if nonempty text && nonempty_list runs
             then Some (concat runs) else None)
  /\ extract_price (Some (rupee :: py " 12,500")) = Some (py "12500")
  /\ extract_price (Some (py "")) = None
  /\ extract_price (Some (py "no digits")) = None.
Proof.
  repeat split; try reflexivity.
  intros text.
  exists (Re.findall (Re.Plus isdecimal) (without currency_class text)).
  split; [apply findall_Plus_runs|apply extract_price_runs].
Qed.

End PriceNormalizer.

(** ** RelevanceClassifier *)

Lemma starts_with_spec sub : forall s,
  starts_with sub s = true <-> exists after, s = sub ++ after.
Proof.
  induction sub as [|a sub IH]; intros s; simpl.
  - split; [intros _; by exists s|done].
  - destruct s as [|b s].
    + split; [done|]. by intros [after ?].
    + rewrite andb_true_iff, N.eqb_eq, IH. split.
      * intros [-> [after ->]]. by exists after.
      * intros [after [= -> ->]]. split; [done|]. by exists after.
Qed.

Lemma str_in_spec sub : forall s, str_in sub s = true <-> contains sub s.
Proof.
  unfold contains. induction s as [|b s IH].
  - cbn [str_in]. rewrite orb_false_r, starts_with_spec. split.
    + intros [after ->]. by exists [], after.
    + intros [before [after E]]. symmetry in E.
      apply app_eq_nil in E as [-> E]. by exists after.
  - cbn [str_in]. rewrite orb_true_iff, starts_with_spec, IH. split.
    + intros [[after ->]|[before [after ->]]].
      * by exists [], after.
      * by exists (b :: before), after.
    + intros [[|b' before] [after E]]; simpl in E.
      * left. by exists after.
      * right. injection E as -> ->. by exists before, after.
Qed.

Lemma any_in_spec keywords title :
  any_in keywords title = true <->
  exists keyword, keyword ∈ keywords /\ contains keyword title.
Proof.
  unfold any_in. rewrite existsb_exists. split.
  - intros [k [Hk Hin]]. exists k. by rewrite list_elem_of_In, <- str_in_spec.
  - intros [k [Hk Hin]]. exists k. by rewrite <- list_elem_of_In, str_in_spec.
Qed.

Section RelevanceClassifier.
Context {U : UnicodeData}.

Lemma is_car_cover_listing_title (record : gmap string pyval) (t : pystr) :
  record !! "title"%string = Some (PStr t) ->
  is_car_cover_listing record =
    Ok (any_in car_cover_keywords (lower t)
        && negb (any_in exclude_keywords (lower t))).
Proof. unfold is_car_cover_listing. by intros ->. Qed.

Lemma is_car_cover_listing_missing (record : gmap string pyval) :
  record !! "title"%string = None -> is_car_cover_listing record = Ok false.
Proof. unfold is_car_cover_listing. by intros ->. Qed.

(** A title that is [None] is outside the data model: [lower] fails on it. *)
Lemma is_car_cover_listing_None (record : gmap string pyval) :
  record !! "title"%string = Some PNone ->
  is_car_cover_listing record = Raise AttributeError.
Proof. unfold is_car_cover_listing. by intros ->. Qed.

(** C3: for a record with the string [title], [is_car_cover_listing] is
    true exactly when the lower-cased title contains one of the six target
    substrings and none of the nine exclusion substrings; it is true on
    "Premium Car Cover Waterproof" and false on "2BHK flat with car cover
    design curtains". *)
Theorem is_car_cover_listing_target_and_not_excluded :
  (forall (record : gmap string pyval) (title : pystr),
      exists b : bool,
        is_car_cover_listing (<["title"%string := PStr title]> record) = Ok b
        /\ (b = true <->
            (exists keyword,
                keyword ∈ py <$> ["car cover"; "body cover"; "seat cover";
                                  "wheel cover"; "brake cover"; "car mat"]%string
                /\ contains keyword (lower title))
            /\ ~ (exists keyword,
                    keyword ∈ py <$> ["bhk"; "flat"; "apartment"; "parking";
                                      "rent"; "sale"; "sqft"; "bathroom";
                                      "bedroom"]%string
                    /\ contains keyword (lower title))))
  /\ is_car_cover_listing
       {["title"%string := PStr (py "Premium Car Cover Waterproof")]} = Ok true
  /\ is_car_cover_listing
       {["title"%string :=
           PStr (py "2BHK flat with car cover design curtains")]} = Ok false.
Proof.
  split; [|split].
  - intros record title. eexists. split.
    + apply is_car_cover_listing_title, lookup_insert_eq.
    + rewrite andb_true_iff, negb_true_iff, <- not_true_iff_false.
      by rewrite !any_in_spec.
  - by rewrite (is_car_cover_listing_title _ _ (lookup_singleton_eq _ _)).
  - by rewrite (is_car_cover_listing_title _ _ (lookup_singleton_eq _ _)).
Qed.

(** C10: [is_car_cover_listing] returns a boolean on every record whose
    title, when there is one, is a string; it is false when the record has
    no title key (the title then counts as the empty string), when the
    title is "N/A" or empty, and whenever the lower-cased title contains no
    target keyword. *)
Theorem is_car_cover_listing_total_false_without_target :
  (forall record : gmap string pyval,
      record !! "title"%string <> Some PNone ->
      exists b : bool, is_car_cover_listing record = Ok b)
  /\ (forall record : gmap string pyval,
        is_car_cover_listing (delete "title"%string record) = Ok false
        /\ is_car_cover_listing (delete "title"%string record)
           = is_car_cover_listing (<["title"%string := PStr []]> record))
  /\ (forall record : gmap string pyval,
        is_car_cover_listing (<["title"%string := PStr NA]> record) = Ok false)
  /\ (forall record : gmap string pyval,
        is_car_cover_listing (<["title"%string := PStr []]> record) = Ok false)
  /\ (forall (record : gmap string pyval) (title : pystr),
        (forall keyword, keyword ∈ car_cover_keywords ->
                         ~ contains keyword (lower title)) ->
        is_car_cover_listing (<["title"%string := PStr title]> record)
        = Ok false).
Proof.
  split; [|split; [|split; [|split]]].
  - intros record Hnone. unfold is_car_cover_listing.
    destruct (record !! "title"%string) as [[|t]|]; [done|by eexists..].
  - intros record.
    rewrite (is_car_cover_listing_missing _ (lookup_delete_eq _ _)).
    by rewrite (is_car_cover_listing_title _ _ (lookup_insert_eq _ _ _)).
  - intros record.
    by rewrite (is_car_cover_listing_title _ _ (lookup_insert_eq _ _ _)).
  - intros record.
    by rewrite (is_car_cover_listing_title _ _ (lookup_insert_eq _ _ _)).
  - intros record title Hno.
    rewrite (is_car_cover_listing_title _ _ (lookup_insert_eq _ _ _)).
    f_equal. apply andb_false_iff. left. apply not_true_iff_false.
    rewrite any_in_spec. intros [k [Hk Hc]]. by apply (Hno k).
Qed.

End RelevanceClassifier.

(** C10 at a record without a title key, and at the title "floor mat",
    which holds no target keyword. *)
Lemma is_car_cover_listing_total_false_witness :
  is_car_cover_listing (U := ascii_only)
    {["price"%string := PStr (py "899")]} = Ok false
  /\ is_car_cover_listing (U := ascii_only)
       (<["title"%string := PStr (py "floor mat")]> ∅) = Ok false.
Proof.
  pose proof (is_car_cover_listing_total_false_without_target (U := ascii_only))
    as [Htotal [_ [_ [_ Hno]]]].
  split.
  - destruct (Htotal {["price"%string := PStr (py "899")]}) as [b Hb].
    + by vm_compute.
    + rewrite Hb. f_equal. vm_compute in Hb. by injection Hb.
  - apply Hno. intros keyword Hk Hc. apply str_in_spec in Hc.
    unfold car_cover_keywords in Hk.
    repeat (apply elem_of_cons in Hk as [->|Hk]; [by vm_compute in Hc|]).
    by apply elem_of_nil in Hk.
Defined.

(** ** FieldExtractor *)

Lemma or_NA_empty (v : option pystr) :
  from_option nonempty false v = false -> or_NA v = NA.
Proof. by destruct v as [[|c s]|]. Qed.



Lemma text_loop_Ok (n : node) selectors : forall value result,
  or_NA value = NA ->
  text_loop n selectors value = Ok result ->
  or_NA result = chain_text n selectors.
Proof.
  unfold chain_text.
  induction selectors as [|selector rest IH]; intros value result Hv.
  - simpl. by intros [= <-].
  - cbn [text_loop fmap list_fmap first_nonempty]. unfold matched_text.
    destruct (n selector) as [elem|e]; cbn.
    + destruct (text elem) as [t|e]; cbn.
      * destruct (strip t) as [|c s] eqn:E; cbn.
        -- by apply IH.
        -- by intros [= <-].
      * destruct e; try done; by apply IH.
    + destruct e; try done; by apply IH.
Qed.


Lemma first_nonempty_cases (candidates : list (option pystr)) :
  first_nonempty candidates = NA
  \/ (first_nonempty candidates <> []
      /\ Some (first_nonempty candidates) ∈ candidates).
Proof.
  induction candidates as [|[[|c s]|] rest IH]; simpl.
  - by left.
  - destruct IH as [IH|[IH1 IH2]]; [by left|right]. split; [done|by right].
  - right. split; [done|by left].
  - destruct IH as [IH|[IH1 IH2]]; [by left|right]. split; [done|by right].
Qed.

(** A text field is "N/A" or a non-empty trimmed string. *)
Lemma chain_text_trimmed (n : node) (selectors : list string) :
  chain_text n selectors = NA
  \/ (chain_text n selectors <> []
      /\ strip (chain_text n selectors) = chain_text n selectors).
Proof.
  unfold chain_text.
  destruct (first_nonempty_cases (matched_text n <$> selectors))
    as [E|[Hne Hin]]; [by left|right]. split; [done|].
  apply list_elem_of_fmap in Hin as [selector [Hv _]].
  remember (first_nonempty (matched_text n <$> selectors)) as v.
  unfold matched_text in Hv.
  destruct (n selector) as [elem|]; [|done].
  destruct (text elem) as [t|]; [|done].
  injection Hv as ->. apply strip_idemp.
Qed.

Section FieldExtractor.
Context {U : UnicodeData}.

Lemma price_loop_Ok (n : node) selectors : forall price result,
  or_NA price = NA ->
  price_loop n selectors price = Ok result ->
  or_NA result = chain_price n selectors.
Proof.
  unfold chain_price.
  induction selectors as [|selector rest IH]; intros price result Hv.
  - simpl. by intros [= <-].
  - cbn [price_loop fmap list_fmap first_nonempty]. unfold matched_text.
    destruct (n selector) as [elem|e]; cbn -[extract_price strip].
    + destruct (text elem) as [t|e]; cbn -[extract_price strip].
      * destruct (extract_price (Some (strip t))) as [[|c s]|] eqn:E; cbn -[extract_price strip].
        -- by apply IH.
        -- by intros [= <-].
        -- by apply IH.
      * destruct e; try done; by apply IH.
    + destruct e; try done; by apply IH.
Qed.



(** The price field is "N/A" or a non-empty string of digits. *)
Lemma chain_price_digits (n : node) (selectors : list string) :
  chain_price n selectors = NA
  \/ (chain_price n selectors <> []
      /\ Forall (fun c => isdecimal c = true) (chain_price n selectors)).
Proof.
  unfold chain_price.
  destruct (first_nonempty_cases
              ((fun selector =>
                  t ← matched_text n selector; extract_price (Some t))
                 <$> selectors))
    as [E|[Hne Hin]]; [by left|right]. split; [done|].
  apply list_elem_of_fmap in Hin as [selector [Hv _]].
  remember (first_nonempty _) as v.
  destruct (matched_text n selector) as [t|]; [|done].
  cbn [mbind option_bind] in Hv. symmetry in Hv.
  by apply extract_price_Some in Hv as [_ [_ Hd]].
Qed.


End FieldExtractor.

(** ** Scanning for matches *)

Lemma match_len_bound r s n : Re.match_len r s = Some n -> (n <= length s)%nat.
Proof.
  unfold Re.match_len. destruct (Re.run r s Some) as [rest|]; simpl; [|done].
  intros [= <-]. lia.
Qed.

Lemma scanned_step r s from spans :
  Re.match_len r (drop from s) = None ->
  scanned r s (S from) spans -> scanned r s from spans.
Proof.
  intros Hnone Hs.
  assert (Hext : forall a, (forall i, (S from <= i < a)%nat ->
              Re.match_len r (drop i s) = None) ->
            forall i, (from <= i < a)%nat -> Re.match_len r (drop i s) = None).
  { intros a Ha i Hi. destruct (decide (i = from)) as [->|Hne]; [done|].
    apply Ha. lia. }
  inversion Hs as [from' Hall|from' a n spans' Ha Hbefore Hm Hn Hrest]; subst.
  - apply scanned_end. by apply Hext.
  - apply scanned_match; try done; [lia|by apply Hext].
Qed.

Lemma finditer_from_scanned r :
  (forall s, Re.match_len r s <> Some 0%nat) ->
  forall n s pre,
    (length s <= n)%nat ->
    scanned r (pre ++ s) (length pre) (Re.finditer_from r (length pre) s 0).
Proof.
  intros Hne. induction n as [|n IH]; intros s pre Hn.
  - destruct s; simpl in Hn; [|lia]. simpl. apply scanned_end.
    rewrite app_nil_r. lia.
  - destruct s as [|c s].
    { simpl. apply scanned_end. rewrite app_nil_r. lia. }
    simpl in Hn. cbn [Re.finditer_from].
    destruct (Re.match_len r (c :: s)) as [k|] eqn:Ek.
    + destruct k as [|k]; [by destruct (Hne (c :: s))|]. cbn [pred].
      pose proof (match_len_bound _ _ _ Ek) as Hk. simpl in Hk.
      rewrite finditer_from_skip.
      apply scanned_match.
      * rewrite length_app. simpl. lia.
      * lia.
      * by rewrite drop_app_length.
      * lia.
      * assert (E : pre ++ c :: s = (pre ++ c :: take k s) ++ drop k s).
        { rewrite <- app_assoc. simpl. by rewrite take_drop. }
        assert (L : (length pre + S k)%nat = length (pre ++ c :: take k s)).
        { rewrite length_app. simpl. rewrite length_take. lia. }
        replace (S (length pre) + k)%nat with (length pre + S k)%nat by lia.
        rewrite E, L. apply IH. rewrite length_drop. lia.
    + apply scanned_step.
      * by rewrite drop_app_length.
      * replace (pre ++ c :: s) with ((pre ++ [c]) ++ s)
          by (by rewrite <- app_assoc).
        replace (S (length pre)) with (length (pre ++ [c]))
          by (rewrite length_app; simpl; lia).
        apply IH. lia.
Qed.

Lemma finditer_scanned r s :
  (forall t, Re.match_len r t <> Some 0%nat) ->
  scanned r s 0 (Re.finditer r s).
Proof.
  intros Hne. apply (finditer_from_scanned r Hne (length s) s []). lia.
Qed.

(** The spans of a scan are in the text, in order, and do not overlap. *)
Lemma scanned_ordered r s : forall from spans,
  scanned r s from spans ->
  forall i m, spans !! i = Some m ->
    (from <= m.1 /\ m.1 < m.2 /\ m.2 <= length s)%nat
    /\ (forall j m', (i < j)%nat -> spans !! j = Some m' -> (m.2 <= m'.1)%nat).
Proof.
  induction 1 as [from Hall|from a n spans Ha Hbefore Hm Hn Hrest IH];
    intros i m Hi; [done|].
  destruct i as [|i]; simpl in Hi.
  - injection Hi as <-. simpl. split.
    + pose proof (match_len_bound _ _ _ Hm) as Hb. rewrite length_drop in Hb. lia.
    + intros [|j] m' Hj Hm'; [lia|]. simpl in Hm'.
      destruct (IH j m' Hm') as [[? _] _]. done.
  - destruct (IH i m Hi) as [[H1 [H2 H3]] Hlater]. split; [lia|].
    intros [|j] m' Hj Hm'; [lia|]. simpl in Hm'. apply (Hlater j m'); [lia|done].
Qed.

Lemma search_from_leftmost r : forall s pre,
  (forall i, (i < length pre)%nat ->
             Re.match_len r (drop i (pre ++ s)) = None) ->
  match Re.search_from r (length pre) s with
  | Some m => leftmost r (pre ++ s) m
  | None => forall i, (i <= length (pre ++ s))%nat ->
                      Re.match_len r (drop i (pre ++ s)) = None
  end.
Proof.
  induction s as [|c s IH]; intros pre Hpre.
  - cbn [Re.search_from]. destruct (Re.match_len r []) as [n|] eqn:En.
    + repeat split; simpl.
      * rewrite length_app. simpl. lia.
      * exists n. by rewrite drop_app_length.
      * done.
    + intros i Hi. rewrite length_app in Hi. simpl in Hi.
      destruct (decide (i = length pre)) as [->|Hne].
      * by rewrite drop_app_length.
      * apply Hpre. lia.
  - cbn [Re.search_from]. destruct (Re.match_len r (c :: s)) as [n|] eqn:En.
    + repeat split; simpl.
      * rewrite length_app. simpl. lia.
      * exists n. by rewrite drop_app_length.
      * done.
    + assert (E : pre ++ c :: s = (pre ++ [c]) ++ s)
        by (by rewrite <- app_assoc).
      assert (L : S (length pre) = length (pre ++ [c]))
        by (rewrite length_app; simpl; lia).
      rewrite E, L. apply IH. intros i Hi. rewrite <- E.
      rewrite <- L in Hi.
      destruct (decide (i = length pre)) as [->|Hne].
      * by rewrite drop_app_length.
      * apply Hpre. lia.
Qed.

Lemma search_leftmost r s :
  match Re.search r s with
  | Some m => leftmost r s m
  | None => forall i, (i <= length s)%nat -> Re.match_len r (drop i s) = None
  end.
Proof. apply (search_from_leftmost r s []). simpl. lia. Qed.

Ltac arith_cong :=
  repeat match goal with
         | |- @eq nat _ _ => lia
         | |- _ => progress f_equal
         end.

(** Matches found from [pos] on start at [pos] or later. *)
Lemma finditer_from_ge r : forall s pos skip m,
  m ∈ Re.finditer_from r pos s skip -> (pos + skip <= m.1)%nat.
Proof.
  induction s as [|c s IH]; intros pos skip m; cbn [Re.finditer_from].
  - by intros ?%elem_of_nil.
  - destruct skip as [|skip].
    + destruct (Re.match_len r (c :: s)) as [n|].
      * intros [->|Hm]%elem_of_cons; [simpl; lia|].
        apply IH in Hm. lia.
      * intros Hm. apply IH in Hm. lia.
    + intros Hm. apply IH in Hm. lia.
Qed.

(** When no match that starts in [pre] reaches beyond it, and there is a
    match right after [pre], the scan of [pre ++ rest] finds its matches
    inside [pre], then that match, and goes on after it. *)
Lemma finditer_from_before r (rest : pystr) (n : nat) :
  Re.match_len r rest = Some n -> (0 < n)%nat ->
  forall pre pos skip,
    (forall i k, (i < length pre)%nat ->
       Re.match_len r (drop i (pre ++ rest)) = Some k ->
       (i + k <= length pre)%nat) ->
    (skip <= length pre)%nat ->
    exists before,
      Re.finditer_from r pos (pre ++ rest) skip
      = before
        ++ ((pos + length pre)%nat, (pos + length pre + n)%nat)
           :: Re.finditer_from r (pos + length pre + n) (drop n rest) 0
      /\ forall m, m ∈ before -> (m.2 <= pos + length pre)%nat.
Proof.
  intros Hrest Hn. pose proof (match_len_bound _ _ _ Hrest) as Hbound.
  induction pre as [|c pre IH]; intros pos skip Hpre Hskip.
  - simpl in Hskip. assert (skip = 0%nat) as -> by lia.
    destruct rest as [|c rest]; [simpl in Hbound; lia|].
    exists []. split; [|by intros m ?%elem_of_nil].
    cbn [app length Re.finditer_from]. rewrite Hrest.
    rewrite finditer_from_skip. destruct n as [|n]; [lia|]. cbn [pred drop].
    arith_cong.
  - assert (Hpre' : forall i k, (i < length pre)%nat ->
              Re.match_len r (drop i (pre ++ rest)) = Some k ->
              (i + k <= length pre)%nat).
    { intros i k Hi Hk. specialize (Hpre (S i) k). simpl in Hpre.
      specialize (Hpre ltac:(lia) Hk). lia. }
    cbn [app Re.finditer_from]. destruct skip as [|skip].
    + destruct (Re.match_len r (c :: pre ++ rest)) as [k|] eqn:Ek.
      * pose proof (Hpre 0%nat k ltac:(simpl; lia) Ek) as Hk. simpl in Hk.
        destruct (IH (S pos) (pred k) Hpre' ltac:(lia)) as [before [Hrun Hb]].
        exists ((pos, (pos + k)%nat) :: before). split.
        -- rewrite Hrun. cbn [app length]. arith_cong.
        -- intros m [->|Hm]%elem_of_cons; simpl; [lia|].
           apply Hb in Hm. lia.
      * destruct (IH (S pos) 0%nat Hpre' ltac:(lia)) as [before [Hrun Hb]].
        exists before. split.
        -- rewrite Hrun. cbn [length]. arith_cong.
        -- intros m Hm. apply Hb in Hm. simpl. lia.
    + simpl in Hskip.
      destruct (IH (S pos) skip Hpre' ltac:(lia)) as [before [Hrun Hb]].
      exists before. split.
      -- rewrite Hrun. cbn [length]. arith_cong.
      -- intros m Hm. apply Hb in Hm. simpl. lia.
Qed.

Lemma search_from_hit r pos s n :
  Re.match_len r s = Some n -> Re.search_from r pos s = Some (pos, (pos + n)%nat).
Proof. intros Hm. destruct s; cbn [Re.search_from]; by rewrite Hm. Qed.

(** A scan skips the positions without a match. *)
Lemma search_from_skip r (rest : pystr) : forall pre pos,
  (forall j, (j < length pre)%nat ->
             Re.match_len r (drop j (pre ++ rest)) = None) ->
  Re.search_from r pos (pre ++ rest)
  = Re.search_from r (pos + length pre) rest.
Proof.
  induction pre as [|c pre IH]; intros pos Hpre.
  - simpl. by rewrite Nat.add_0_r.
  - pose proof (Hpre 0%nat ltac:(simpl; lia)) as H0. simpl in H0.
    cbn [app Re.search_from]. rewrite H0, IH.
    + simpl. f_equal. lia.
    + intros j Hj. apply (Hpre (S j)). simpl. lia.
Qed.

(** What a successful run leaves unread is a suffix of the input handed to
    the continuation. *)
Lemma star_unread {A} p (k : pystr -> option A) : forall s x,
  Re.star p s k = Some x ->
  exists s', (length s' <= length s)%nat /\ k s' = Some x.
Proof.
  induction s as [|c s IH]; intros x; simpl.
  - intros Hk. by exists [].
  - destruct (p c).
    + destruct (Re.star p s k) as [y|] eqn:Es.
      * intros [= <-]. destruct (IH y eq_refl) as [s' [Hl Hk]].
        exists s'. split; [lia|done].
      * intros Hk. exists (c :: s). split; [done|done].
    + intros Hk. by exists (c :: s).
Qed.

Lemma run_unread {A} r : forall s (k : pystr -> option A) x,
  Re.run r s k = Some x ->
  exists s', (length s' <= length s)%nat /\ k s' = Some x.
Proof.
  induction r as [|p|r1 IH1 r2 IH2|r1 IH1 r2 IH2|p|r1 IH1];
    intros s k x; cbn [Re.run].
  - intros Hk. by exists s.
  - destruct s as [|c s]; [done|]. destruct (p c); [|done].
    intros Hk. exists s. split; [simpl; lia|done].
  - intros H1. destruct (IH1 _ _ _ H1) as [s1 [Hl1 H2]].
    destruct (IH2 _ _ _ H2) as [s2 [Hl2 Hk]]. exists s2. split; [lia|done].
  - destruct (Re.run r1 s k) as [y|] eqn:E1.
    + intros [= <-]. by apply IH1.
    + apply IH2.
  - apply star_unread.
  - destruct (Re.run r1 s k) as [y|] eqn:E1.
    + intros [= <-]. by apply IH1.
    + intros Hk. by exists s.
Qed.

(** A pattern that starts with a one-character item has no empty match. *)
Lemma match_len_Chr_Seq p r s : Re.match_len (Re.Seq (Re.Chr p) r) s <> Some 0%nat.
Proof.
  unfold Re.match_len. cbn [Re.run]. destruct s as [|c s]; [done|].
  destruct (p c); [|done].
  destruct (Re.run r s Some) as [rest|] eqn:E; [|done]. simpl.
  destruct (run_unread _ _ _ _ E) as [s' [Hl [= ->]]].
  intros [= H]. lia.
Qed.

Section DegradedTextExtractor.
Context {U : UnicodeData}.

Lemma price_pattern_not_empty s : Re.match_len price_pattern s <> Some 0%nat.
Proof. apply match_len_Chr_Seq. Qed.

Lemma page_source_step_listing (markup : pystr) listings (m : nat * nat) :
  page_source_step markup listings m
  = listings ++ option_list (degraded_listing markup m).
Proof.
  unfold page_source_step, degraded_listing, context_window.
  replace (Z.to_nat (Z.max 0 (Z.of_nat m.1 - 200))) with (m.1 - 200)%nat by lia.
  replace (Z.to_nat (Z.min (Z.of_nat (length markup)) (Z.of_nat m.2 + 200)))
    with (min (length markup) (m.2 + 200)) by lia.
  destruct (Re.search title_pattern _) as [title_match|]; simpl; [done|].
  by rewrite app_nil_r.
Qed.

Lemma fold_page_source_step (markup : pystr) : forall matches listings,
  fold_left (page_source_step markup) matches listings
  = listings ++ omap (degraded_listing markup) matches.
Proof.
  induction matches as [|m matches IH]; intros listings; simpl.
  - by rewrite app_nil_r.
  - rewrite IH, page_source_step_listing, <- app_assoc. f_equal.
    by destruct (degraded_listing markup m).
Qed.

Lemma extract_from_page_source_omap (markup : pystr) :
  extract_from_page_source markup
  = omap (degraded_listing markup) (Re.finditer price_pattern markup).
Proof. unfold extract_from_page_source. by rewrite fold_page_source_step. Qed.

(** C5: the listings of [extract_from_page_source] are those of the
    non-overlapping matches of the price pattern, from left to right (each
    match ends before the next starts), whose
    window of 200 characters on each side (clamped to the markup) has a
    match of the title pattern; a listing has the trimmed text of the first
    such match as title, the normalized text of the price match as price and
    "N/A" for location, date and url; matches without a title in their
    window give no listing. *)
Theorem extract_from_page_source_matches (markup : pystr) :
  scanned price_pattern markup 0 (Re.finditer price_pattern markup)
  /\ (forall i m, Re.finditer price_pattern markup !! i = Some m ->
        (m.1 < m.2 /\ m.2 <= length markup)%nat
        /\ (forall j m', (i < j)%nat ->
              Re.finditer price_pattern markup !! j = Some m' ->
              (m.2 <= m'.1)%nat))
  /\ extract_from_page_source markup
     = omap (degraded_listing markup) (Re.finditer price_pattern markup)
  /\ (forall m : nat * nat,
        let context := context_window markup m in
        context
        = take (min (length markup) (m.2 + 200) - (m.1 - 200))
            (drop (m.1 - 200) markup)
        /\ match degraded_listing markup m with
           | Some listing =>
               exists title_match,
                 leftmost title_pattern context title_match
                 /\ listing !! "title"%string
                    = Some (PStr (strip (Re.group context title_match)))
                 /\ listing !! "price"%string
                    = Some (value_of
                              (extract_price (Some (Re.group markup m))))
                 /\ listing !! "location"%string = Some (PStr NA)
                 /\ listing !! "date"%string = Some (PStr NA)
                 /\ listing !! "url"%string = Some (PStr NA)
           | None =>
               forall i, (i <= length context)%nat ->
                 Re.match_len title_pattern (drop i context) = None
           end).
Proof.
  pose proof (finditer_scanned price_pattern markup price_pattern_not_empty)
    as Hscan.
  split; [exact Hscan|split; [|split]].
  - intros i m Hi.
    destruct (scanned_ordered _ _ _ _ Hscan i m Hi) as [[_ Hm] Hlater].
    by split.
  - apply extract_from_page_source_omap.
  - intros m context. split; [done|].
    unfold degraded_listing. fold context.
    pose proof (search_leftmost title_pattern context) as Hs.
    destruct (Re.search title_pattern context) as [title_match|];
      cbn [mbind option_bind]; [|done].
    exists title_match. split; [done|].
    rewrite lookup_insert_eq. split; [done|].
    repeat split;
      repeat (rewrite lookup_insert_ne by done); apply lookup_insert_eq.
Qed.

End DegradedTextExtractor.

(** C5 on "<p>₹ 899 Waterproof Car Cover for Sedan</p>": one price match,
    whose window is the whole markup; its listing has the title "Car Cover
    for Sedan" and the price "899". *)
Lemma extract_from_page_source_matches_witness :
  extract_from_page_source (U := ascii_only)
    (py "<p>" ++ sedan_span ++ py "</p>")
  = [ <["title"%string := PStr (py "Car Cover for Sedan")]>
      (<["price"%string := PStr (py "899")]>
      (<["location"%string := PStr NA]>
      (<["date"%string := PStr NA]>
      (<["url"%string := PStr NA]> ∅)))) ].
Proof.
  destruct (extract_from_page_source_matches (U := ascii_only)
              (py "<p>" ++ sedan_span ++ py "</p>"))
    as [_ [_ [Hout _]]].
  rewrite Hout. reflexivity.
Defined.

(** ** The scenario of the sedan cover *)

Lemma star_ext {A} p (k k' : pystr -> option A) :
  (forall s, k s = k' s) -> forall s, Re.star p s k = Re.star p s k'.
Proof.
  intros Hk. induction s as [|c s IH]; simpl; [apply Hk|].
  rewrite IH, Hk. done.
Qed.

Lemma run_ext {A} r : forall (k k' : pystr -> option A),
  (forall s, k s = k' s) -> forall s, Re.run r s k = Re.run r s k'.
Proof.
  induction r as [|p|r1 IH1 r2 IH2|r1 IH1 r2 IH2|p|r1 IH1];
    intros k k' Hk s; cbn [Re.run].
  - apply Hk.
  - destruct s as [|c s]; [done|]. by rewrite Hk.
  - apply IH1. intros s'. by apply IH2.
  - by rewrite (IH1 k k' Hk), (IH2 k k' Hk).
  - by apply star_ext.
  - by rewrite (IH1 k k' Hk), Hk.
Qed.

Section SedanScenario.
Context {U : UnicodeData}.

(** The price pattern matches the span, up to a tag, a newline or the
    end. *)
Lemma price_pattern_at_span (post : pystr) :
  (forall c, head post = Some c -> not_tag_or_newline c = false) ->
  Re.run price_pattern (sedan_span ++ post) Some = Some post.
Proof.
  intros Hpost. destruct post as [|c post'].
  - reflexivity.
  - specialize (Hpost c eq_refl). unfold not_tag_or_newline in Hpost.
    apply negb_false_iff, orb_true_iff in Hpost.
    destruct Hpost as [Hc|Hc]; apply N.eqb_eq in Hc; subst c; reflexivity.
Qed.

Lemma price_pattern_len_span (post : pystr) :
  (forall c, head post = Some c -> not_tag_or_newline c = false) ->
  Re.match_len price_pattern (sedan_span ++ post) = Some (length sedan_span).
Proof.
  intros Hpost. unfold Re.match_len. rewrite (price_pattern_at_span _ Hpost).
  cbn [fmap option_fmap option_map]. f_equal. rewrite length_app. lia.
Qed.

(** The title pattern has no match in the span before "Car Cover". *)
Lemma title_pattern_not_before_core (tail : pystr) (j : nat) :
  (j < 17)%nat ->
  Re.match_len title_pattern (drop j (sedan_span ++ tail)) = None.
Proof.
  intros Hj. destruct U as [dec low ign].
  destruct j as [|j].
  { vm_compute.
    by destruct (ign 99 8377), (ign 115 8377), (ign 98 8377), (ign 119 8377). }
  do 16 (destruct j as [|j]; [reflexivity|]). lia.
Qed.

(** At "Car Cover for Sedan" it matches, up to the next tag boundary. *)
Lemma title_pattern_at_core (tail : pystr) :
  Re.match_len title_pattern (py "Car Cover for Sedan" ++ tail)
  = Some (19 + length (take_while not_tag tail))%nat.
Proof.
  assert (Hrun : Re.run title_pattern (py "Car Cover for Sedan" ++ tail) Some
                 = Some (drop_while not_tag tail)).
  { transitivity (Re.run cover_keyword (py "Car Cover for Sedan" ++ tail)
                    (fun s' => Some (drop_while not_tag s'))).
    - exact (run_ext cover_keyword
               (fun s' => Re.star not_tag s' Some)
               (fun s' => Some (drop_while not_tag s'))
               (star_Some not_tag) (py "Car Cover for Sedan" ++ tail)).
    - reflexivity. }
  unfold Re.match_len. rewrite Hrun.
  cbn [fmap option_fmap option_map]. f_equal. rewrite length_app.
  rewrite <- (take_drop_while not_tag tail) at 1. rewrite length_app.
  change (length (py "Car Cover for Sedan")) with 19%nat. lia.
Qed.

End SedanScenario.

Lemma take_take_while p s : take (length (take_while p s)) s = take_while p s.
Proof. rewrite <- (take_drop_while p s) at 2. by rewrite take_app_length. Qed.

Lemma drop_while_app_stop p (b : N) (rest : pystr) :
  p b = false ->
  forall a, exists a', drop_while p (a ++ b :: rest) = a' ++ b :: rest.
Proof.
  intros Hb. induction a as [|c a IH]; simpl.
  - rewrite Hb. by exists [].
  - destruct (p c); [apply IH|]. by exists (c :: a).
Qed.

(** Trimming keeps a text that starts and ends with "Car Cover for
    Sedan"-like characters at its front: here the words themselves. *)
Lemma strip_keeps_core (tail : pystr) :
  exists tail', strip (py "Car Cover for Sedan" ++ tail)
                = py "Car Cover for Sedan" ++ tail'.
Proof.
  unfold strip.
  change (lstrip (py "Car Cover for Sedan" ++ tail))
    with (py "Car Cover for Sedan" ++ tail).
  unfold rstrip, lstrip. rewrite rev_app_distr.
  change (rev (py "Car Cover for Sedan"))
    with (110 :: rev (py "Car Cover for Seda")).
  destruct (drop_while_app_stop isspace 110 (rev (py "Car Cover for Seda"))
              eq_refl (rev tail)) as [a' ->].
  exists (rev a'). rewrite rev_app_distr. f_equal.
Qed.

Lemma context_window_around (pre span post : pystr) :
  context_window (pre ++ span ++ post)
    (length pre, (length pre + length span)%nat)
  = drop (length pre - 200) pre ++ span ++ take 200 post.
Proof.
  unfold context_window, slice. cbn [fst snd].
  rewrite drop_app_le by lia.
  rewrite take_app_ge by (rewrite length_drop, !length_app; lia).
  f_equal.
  rewrite take_app_ge by (rewrite length_drop, !length_app; lia).
  f_equal. rewrite length_drop, !length_app.
  destruct (decide (length post <= 200)%nat) as [Hle|Hgt].
  - rewrite (take_ge post 200) by lia. apply take_ge. lia.
  - f_equal. lia.
Qed.

Section SedanListing.
Context {U : UnicodeData}.

(** The title found in a window that has no title match before the span. *)
Lemma sedan_title_match (before_span post_w : pystr) :
  (forall j, (j < length before_span)%nat ->
     Re.match_len title_pattern
       (drop j (before_span ++ sedan_span ++ post_w)) = None) ->
  exists title_match,
    Re.search title_pattern (before_span ++ sedan_span ++ post_w)
    = Some title_match
    /\ Re.group (before_span ++ sedan_span ++ post_w) title_match
       = py "Car Cover for Sedan" ++ take_while not_tag post_w.
Proof.
  intros Hb. unfold Re.search.
  rewrite (search_from_skip _ _ _ 0 Hb).
  change (sedan_span ++ post_w)
    with (take 17 sedan_span ++ (py "Car Cover for Sedan" ++ post_w)).
  rewrite search_from_skip.
  2:{ intros j Hj. apply title_pattern_not_before_core. exact Hj. }
  rewrite (search_from_hit _ _ _ _ (title_pattern_at_core post_w)).
  eexists. split; [done|].
  rewrite (app_assoc before_span).
  replace (0 + length before_span + length (take 17 sedan_span))%nat
    with (length (before_span ++ take 17 sedan_span))
    by (rewrite length_app; lia).
  rewrite group_at_suffix.
  change (19 + length (take_while not_tag post_w))%nat
    with (length (py "Car Cover for Sedan")
          + length (take_while not_tag post_w))%nat.
  rewrite take_app_add. by rewrite take_take_while.
Qed.

Lemma sedan_price : extract_price (Some sedan_span) = Some (py "899").
Proof. reflexivity. Qed.

(** C6, amended: in a markup [pre ++ span ++ post] where the span "₹ 899
    Waterproof Car Cover for Sedan" is delimited (no price match that
    starts before it reaches into it, and a tag, a newline or the end
    follows it) and where the title pattern has no match in the window
    before the span, the price matches are those before the span, the span,
    and those after it, and the span gives exactly one listing, with price
    "899" and a title that contains "Car Cover for Sedan". *)
Theorem degraded_sedan_span (pre post : pystr) :
  let markup := pre ++ sedan_span ++ post in
  let m := (length pre, (length pre + length sedan_span)%nat) in
  (forall i n, (i < length pre)%nat ->
     Re.match_len price_pattern (drop i markup) = Some n ->
     (i + n <= length pre)%nat) ->
  (forall c, head post = Some c -> not_tag_or_newline c = false) ->
  (forall j, (j < length (drop (length pre - 200) pre))%nat ->
     Re.match_len title_pattern (drop j (context_window markup m)) = None) ->
  exists before after title,
    Re.finditer price_pattern markup = before ++ m :: after
    /\ (forall m', m' ∈ before -> (m'.2 <= length pre)%nat)
    /\ (forall m', m' ∈ after ->
          (length pre + length sedan_span <= m'.1)%nat)
    /\ extract_from_page_source markup
       = omap (degraded_listing markup) before
         ++ (<["title"%string := PStr title]>
             (<["price"%string := PStr (py "899")]>
             (<["location"%string := PStr NA]>
             (<["date"%string := PStr NA]>
             (<["url"%string := PStr NA]> ∅)))))
            :: omap (degraded_listing markup) after
    /\ contains (py "Car Cover for Sedan") title.
Proof.
  intros markup m Ha Hc Hb.
  destruct (finditer_from_before price_pattern (sedan_span ++ post)
              (length sedan_span) (price_pattern_len_span post Hc)
              ltac:(simpl; lia) pre 0%nat 0%nat Ha ltac:(lia))
    as [before [Hscan Hbefore]].
  cbn [Nat.add] in Hscan, Hbefore.
  unfold m, markup in Hb. rewrite context_window_around in Hb.
  destruct (sedan_title_match _ _ Hb) as [title_match [Hsearch Hgroup]].
  destruct (strip_keeps_core (take_while not_tag (take 200 post)))
    as [tail' Hstrip].
  exists before,
    (Re.finditer_from price_pattern (length pre + length sedan_span)
       (drop (length sedan_span) (sedan_span ++ post)) 0),
    (py "Car Cover for Sedan" ++ tail').
  split; [exact Hscan|]. split; [exact Hbefore|]. split; [|split].
  - intros m' Hm'. apply finditer_from_ge in Hm'. lia.
  - rewrite extract_from_page_source_omap. unfold Re.finditer.
    fold markup in Hscan. rewrite Hscan. fold m. rewrite omap_app. f_equal. cbn [omap list_omap].
    assert (Hm : degraded_listing markup m
                 = Some (<["title"%string
                            := PStr (py "Car Cover for Sedan" ++ tail')]>
                         (<["price"%string := PStr (py "899")]>
                         (<["location"%string := PStr NA]>
                         (<["date"%string := PStr NA]>
                         (<["url"%string := PStr NA]> ∅)))))).
    { unfold degraded_listing, m, markup. rewrite context_window_around.
      rewrite Hsearch. cbn [mbind option_bind]. rewrite Hgroup, Hstrip.
      rewrite group_at_suffix, take_app_length, sedan_price. done. }
    by rewrite Hm.
  - by exists [], tail'.
Qed.

End SedanListing.

(** C6 as stated fails: here the span stands between tags and the price
    match is the span, but the window holds an earlier cover keyword, and
    the listing gets its title from there. *)
Lemma degraded_sedan_title_from_earlier_keyword :
  extract_from_page_source (U := ascii_only)
    (py "<h2>Seat Cover deals</h2><p>" ++ sedan_span ++ py "</p>")
  = [ <["title"%string := PStr (py "Seat Cover deals")]>
      (<["price"%string := PStr (py "899")]>
      (<["location"%string := PStr NA]>
      (<["date"%string := PStr NA]>
      (<["url"%string := PStr NA]> ∅)))) ]
  /\ str_in (py "Car Cover for Sedan") (py "Seat Cover deals") = false.
Proof. split; reflexivity. Qed.

(** C6, amended, on the markup "<p>₹ 899 Waterproof Car Cover for
    Sedan</p>". *)
Lemma degraded_sedan_span_witness :
  exists title,
    extract_from_page_source (U := ascii_only)
      (py "<p>" ++ sedan_span ++ py "</p>")
    = [ <["title"%string := PStr title]>
        (<["price"%string := PStr (py "899")]>
        (<["location"%string := PStr NA]>
        (<["date"%string := PStr NA]>
        (<["url"%string := PStr NA]> ∅)))) ]
    /\ contains (py "Car Cover for Sedan") title.
Proof.
  destruct (degraded_sedan_span (U := ascii_only) (py "<p>") (py "</p>"))
    as [before [after [title [Hscan [_ [_ [Hout Hc]]]]]]].
  - intros i n Hi. do 3 (destruct i as [|i]; [by vm_compute|]).
    simpl in Hi. lia.
  - by intros c [= <-].
  - intros j Hj. do 3 (destruct j as [|j]; [by vm_compute|]).
    simpl in Hj. lia.
  - exists title. split; [|exact Hc].
    rewrite Hout. clear Hout.
    assert (Hall : Re.finditer (price_pattern (U := ascii_only))
                     (py "<p>" ++ sedan_span ++ py "</p>")
                   = [(3%nat, 39%nat)]) by reflexivity.
    rewrite Hall in Hscan.
    destruct before as [|b before].
    + injection Hscan as <-. done.
    + injection Hscan as _ Hnil. by destruct before.
Defined.

(** ** The session monad *)

Lemma M_bind_run {world A B} (m : M world A) (f : A -> M world B) s :
  (m ≫= f) s =
    match m s with
    | (Ok a, s') => f a s'
    | (Raise e, s') => (Raise e, s')
    end.
Proof. done. Qed.

Lemma perform_run {world A} (log : res A -> event)
    (call : world -> res A * world) (s : world * list event) :
  perform log call s = ((call s.1).1, ((call s.1).2, s.2 ++ [log (call s.1).1])).
Proof. unfold perform. by destruct (call s.1). Qed.

Lemma perform_known {world A} (log : res A -> event)
    (call : world -> res A * world) (s : world * list event) r :
  (call s.1).1 = r ->
  perform log call s = (r, ((call s.1).2, s.2 ++ [log r])).
Proof. intros <-. apply perform_run. Qed.

(** ** Logs and the calls behind them *)

Section Truthful.
Context {world : Type} {B : Browser world}.

Lemma genuine_app (w w1 w2 : world) (l1 l2 : list event) :
  genuine w l1 w1 -> genuine w1 l2 w2 -> genuine w (l1 ++ l2) w2.
Proof.
  revert w. induction l1 as [|e l1 IH]; intros w; cbn [genuine app].
  - by intros ->.
  - intros [w0 [He H1]] H2. exists w0. split; [done|]. by apply IH.
Qed.

Lemma genuine_app_inv (w w2 : world) (l1 l2 : list event) :
  genuine w (l1 ++ l2) w2 ->
  exists w1, genuine w l1 w1 /\ genuine w1 l2 w2.
Proof.
  revert w. induction l1 as [|e l1 IH]; intros w; cbn [genuine app].
  - intros H. by exists w.
  - intros [w0 [He H]]. destruct (IH _ H) as [w1 [H1 H2]].
    exists w1. split; [by exists w0|done].
Qed.

Lemma genuine_singleton (w w' : world) (e : event) :
  event_step w e w' -> genuine w [e] w'.
Proof. intros He. by exists w'. Qed.

(** The calls behind what a run added to the log. *)
Lemma truthful_run {A} (m : M world A) (s : world * list event) r w' events :
  truthful m -> m s = (r, (w', s.2 ++ events)) -> genuine s.1 events w'.
Proof.
  intros Hm Hrun. destruct (Hm s) as [events' [E G]].
  rewrite Hrun in E, G. cbn [fst snd] in E, G.
  apply app_inv_head in E. by subst.
Qed.

Lemma truthful_ret {A} (a : A) : truthful (mret a : M world A).
Proof. intros s. exists []. split; [by rewrite app_nil_r|done]. Qed.

Lemma truthful_bind {A C} (m : M world A) (f : A -> M world C) :
  truthful m -> (forall a, truthful (f a)) -> truthful (m ≫= f).
Proof.
  intros Hm Hf s. rewrite M_bind_run.
  destruct (Hm s) as [l1 [E1 G1]].
  destruct (m s) as [[a|e] s1]; cbn [fst snd] in *.
  - destruct (Hf a s1) as [l2 [E2 G2]]. exists (l1 ++ l2).
    rewrite E2, E1, app_assoc. split; [done|]. by eapply genuine_app.
  - by exists l1.
Qed.

Lemma truthful_try_except {A} (body : M world A) (handler : exn -> M world A) :
  truthful body -> (forall e, truthful (handler e)) ->
  truthful (try_except body handler).
Proof.
  intros Hm Hh s. unfold try_except.
  destruct (Hm s) as [l1 [E1 G1]].
  destruct (body s) as [[a|e] s1]; cbn [fst snd] in *.
  - by exists l1.
  - destruct (Hh e s1) as [l2 [E2 G2]]. exists (l1 ++ l2).
    rewrite E2, E1, app_assoc. split; [done|]. by eapply genuine_app.
Qed.

Lemma truthful_try_finally {A} (body : M world A) (cleanup : M world ()) :
  truthful body -> truthful cleanup -> truthful (try_finally body cleanup).
Proof.
  intros Hm Hc s. unfold try_finally.
  destruct (Hm s) as [l1 [E1 G1]].
  destruct (body s) as [r s1]; cbn [fst snd] in *.
  destruct (Hc s1) as [l2 [E2 G2]].
  destruct (cleanup s1) as [[[]|e] s2]; cbn [fst snd] in *;
    exists (l1 ++ l2); rewrite E2, E1, app_assoc;
    (split; [done|]); by eapply genuine_app.
Qed.

Lemma truthful_perform {A} (log : res A -> event)
    (call : world -> res A * world) :
  (forall w, event_step w (log (call w).1) (call w).2) ->
  truthful (perform log call).
Proof.
  intros Hstep s. rewrite perform_run. cbn [fst snd].
  eexists. split; [done|]. apply genuine_singleton, Hstep.
Qed.

Lemma truthful_sleep (seconds : Z) : truthful (do_sleep seconds).
Proof.
  intros s. unfold do_sleep. cbn [fst snd].
  eexists. split; [done|]. by apply genuine_singleton.
Qed.

Lemma truthful_wait_loop (timeout : Z) (selectors : list string) :
  truthful (wait_loop selectors timeout).
Proof.
  induction selectors as [|selector rest IH]; [apply truthful_ret|].
  intros s. cbn [wait_loop]. rewrite perform_run.
  destruct (wait_presence selector timeout s.1) as [r w1] eqn:Hstep.
  cbn [fst snd] in *.
  assert (Hhere : exists events,
             s.2 ++ [Waited selector timeout r] = s.2 ++ events
             /\ genuine s.1 events w1).
  { eexists. split; [done|]. by apply genuine_singleton. }
  destruct r as [[]|e]; [exact Hhere|].
  destruct e; try exact Hhere.
  destruct (IH (w1, s.2 ++ [Waited selector timeout (Raise TimeoutException)]))
    as [events [E G]].
  cbn [fst snd] in E, G. rewrite <- app_assoc in E.
  eexists. split; [exact E|]. by exists w1.
Qed.

Lemma truthful_wait_for_listings (timeout : Z) :
  truthful (wait_for_listings timeout).
Proof.
  apply truthful_try_except; [apply truthful_wait_loop|].
  intros e. apply truthful_ret.
Qed.

End Truthful.

(** ** ListingLocator *)

Section ListingLocator.
Context {world : Type} {B : Browser world}.

Lemma wait_loop_located (timeout : Z) (selectors : list string) :
  forall s : world * list event,
  exists w' events,
    (exists result,
        wait_loop selectors timeout s = (Ok result, (w', s.2 ++ events))
        /\ located selectors timeout result events)
    \/ (exists e,
          wait_loop selectors timeout s = (Raise e, (w', s.2 ++ events))
          /\ located selectors timeout None events).
Proof.
  induction selectors as [|selector rest IH]; intros s.
  - exists s.1, []. left. exists None. split.
    + rewrite app_nil_r. by destruct s.
    + apply located_none.
  - cbn [wait_loop]. rewrite perform_run.
    destruct (wait_presence selector timeout s.1) as [r w1] eqn:Ew. cbn [fst snd].
    destruct r as [[]|e].
    + exists w1, [Waited selector timeout (Ok ())]. left. exists (Some selector).
      split; [done|]. by apply (located_first (selector :: rest) timeout 0 selector).
    + assert (Hfault : e <> TimeoutException ->
        exists w' events,
          (exists result,
              (Raise e, (w1, s.2 ++ [Waited selector timeout (Raise e)]))
              = (Ok result, (w', s.2 ++ events))
              /\ located (selector :: rest) timeout result events)
          \/ (exists e0,
                (@Raise (option string) e,
                 (w1, s.2 ++ [Waited selector timeout (Raise e)]))
                = (Raise e0, (w', s.2 ++ events))
                /\ located (selector :: rest) timeout None events)).
      { intros He. exists w1, [Waited selector timeout (Raise e)]. right.
        exists e. split; [done|].
        by apply (located_fault (selector :: rest) timeout 0 selector e). }
      destruct e; try (apply Hfault; done).
      destruct (IH (w1, s.2 ++ [Waited selector timeout (Raise TimeoutException)]))
        as [w' [events [[result [Hrun Hloc]]|[e [Hrun Hloc]]]]];
        cbn [fst snd] in Hrun; rewrite <- app_assoc in Hrun;
        exists w', (timed_out timeout selector :: events).
      * left. exists result. split; [done|].
        inversion Hloc; subst.
        -- by apply (located_first (selector :: rest) timeout (S i) selector0).
        -- apply (located_none (selector :: rest)).
        -- by apply (located_fault (selector :: rest) timeout (S i) selector0 e).
      * right. exists e. split; [done|].
        inversion Hloc; subst.
        -- apply (located_none (selector :: rest)).
        -- by apply (located_fault (selector :: rest) timeout (S i) selector0 e0).
Qed.

Lemma wait_loop_all_time_out (timeout : Z) (selectors : list string) :
  (forall selector w,
      (wait_presence selector timeout w).1 = Raise TimeoutException) ->
  forall s : world * list event,
  exists w',
    wait_loop selectors timeout s
    = (Ok None, (w', s.2 ++ (timed_out timeout <$> selectors))).
Proof.
  intros Hall. induction selectors as [|selector rest IH]; intros s.
  - exists s.1. simpl. rewrite app_nil_r. by destruct s.
  - cbn [wait_loop]. rewrite perform_run, Hall.
    destruct (IH ((wait_presence selector timeout s.1).2,
                  s.2 ++ [Waited selector timeout (Raise TimeoutException)]))
      as [w' Hrun].
    cbn [fst snd] in Hrun. rewrite <- app_assoc in Hrun. by exists w'.
Qed.

Lemma wait_loop_first (timeout : Z) (selector : string)
    (later : list string) :
  (forall w, (wait_presence selector timeout w).1 = Ok ()) ->
  forall (earlier : list string) (s : world * list event),
    (forall sel w, sel ∈ earlier ->
                   (wait_presence sel timeout w).1 = Raise TimeoutException) ->
    exists w',
      wait_loop (earlier ++ selector :: later) timeout s
      = (Ok (Some selector),
         (w', s.2 ++ (timed_out timeout <$> earlier)
                  ++ [Waited selector timeout (Ok ())])).
Proof.
  intros Hok. induction earlier as [|sel earlier IH]; intros s Hearlier.
  - cbn [app wait_loop]. rewrite (perform_known _ _ _ _ (Hok _)).
    by eexists.
  - cbn [app wait_loop].
    rewrite (perform_known _ _ _ _ (Hearlier sel _ ltac:(by left))).
    destruct (IH ((wait_presence sel timeout s.1).2,
                  s.2 ++ [Waited sel timeout (Raise TimeoutException)]))
      as [w' Hrun].
    { intros sel' w Hin. apply Hearlier. by right. }
    rewrite Hrun. cbn [fst snd]. exists w'. by rewrite <- app_assoc.
Qed.

(** C7: [wait_for_listings] never raises.  It waits for the six candidate
    selectors in their listed order, each up to the timeout, and returns
    the first for which the wait succeeds; it returns null after the whole
    list has timed out (or at a wait that fails otherwise).  The waits in
    the log are the calls of [wait_presence] it made, with the answers the
    browser gave.  So on a page where the waits for the candidates before
    one time out and the wait for that one succeeds, it returns that one
    without trying the later ones; and on a page where every wait times out
    it returns null after waiting for all six. *)
Theorem wait_for_listings_first_match :
  listing_selectors
  = ["[data-aut-id='itemBox']"; ".EIR5N"; "[data-aut-id='itemTitle']";
     ".rui-38N2G"; ".rui-1ykdW"; "li[data-aut-id='itemBox']"]%string
  /\ (forall (timeout : Z) (s : world * list event),
        exists result w' events,
          wait_for_listings timeout s = (Ok result, (w', s.2 ++ events))
          /\ located listing_selectors timeout result events
          /\ genuine s.1 events w')
  /\ (forall (timeout : Z) (i : nat) (selector : string),
        listing_selectors !! i = Some selector ->
        (forall sel w, sel ∈ take i listing_selectors ->
            (wait_presence sel timeout w).1 = Raise TimeoutException) ->
        (forall w, (wait_presence selector timeout w).1 = Ok ()) ->
        forall s : world * list event,
        exists w',
          wait_for_listings timeout s
          = (Ok (Some selector),
             (w', s.2 ++ (timed_out timeout <$> take i listing_selectors)
                      ++ [Waited selector timeout (Ok ())])))
  /\ (forall timeout : Z,
        (forall selector w,
            (wait_presence selector timeout w).1 = Raise TimeoutException) ->
        forall s : world * list event,
        exists w',
          wait_for_listings timeout s
          = (Ok None,
             (w', s.2 ++ (timed_out timeout <$> listing_selectors)))).
Proof.
  split; [done|split; [|split]].
  - intros timeout s.
    assert (Hrun : exists result w' events,
               wait_for_listings timeout s = (Ok result, (w', s.2 ++ events))
               /\ located listing_selectors timeout result events).
    { unfold wait_for_listings, try_except.
      destruct (wait_loop_located timeout listing_selectors s)
        as [w' [events [[result [-> Hloc]]|[e [-> Hloc]]]]].
      - by exists result, w', events.
      - by exists None, w', events. }
    destruct Hrun as (result & w' & events & Hrun & Hloc).
    exists result, w', events. split; [done|]. split; [done|].
    exact (truthful_run _ _ _ _ _ (truthful_wait_for_listings timeout) Hrun).
  - intros timeout i selector Hi Hearlier Hok s.
    unfold wait_for_listings, try_except.
    destruct (wait_loop_first timeout selector (drop (S i) listing_selectors)
                Hok (take i listing_selectors) s Hearlier) as [w' Hrun].
    rewrite (take_drop_middle _ _ _ Hi) in Hrun. rewrite Hrun.
    by exists w'.
  - intros timeout Hall s. unfold wait_for_listings, try_except.
    destruct (wait_loop_all_time_out timeout listing_selectors Hall s)
      as [w' ->].
    by exists w'.
Qed.

End ListingLocator.

(** C7 on a page that shows its listings under the second candidate only:
    one wait that times out, one that succeeds, and the second candidate is
    returned; and on a page that shows nothing: six waits, all timed out,
    null. *)
Lemma wait_for_listings_first_match_witness :
  let found :=
    wait_for_listings
      (B := scripted [] (String.eqb ".EIR5N") [] (fun _ => 0%Z) true)
      15 (0%nat, []) in
  let nothing :=
    wait_for_listings (B := scripted [] (fun _ => false) [] (fun _ => 0%Z) true)
      15 (0%nat, []) in
  (found.1 = Ok (Some ".EIR5N"%string)
   /\ found.2.2 = [timed_out 15 "[data-aut-id='itemBox']";
                   Waited ".EIR5N" 15 (Ok ())])
  /\ nothing.1 = Ok None
  /\ nothing.2.2 = timed_out 15 <$> listing_selectors.
Proof.
  pose proof (wait_for_listings_first_match
                (B := scripted [] (String.eqb ".EIR5N") [] (fun _ => 0%Z) true))
    as [_ [_ [Hfirst _]]].
  pose proof (wait_for_listings_first_match
                (B := scripted [] (fun _ => false) [] (fun _ => 0%Z) true))
    as [_ [_ [_ Hall]]].
  destruct (Hfirst 15%Z 1%nat ".EIR5N"%string eq_refl) with (s := (0%nat, @nil event))
    as [w1 Hrun1].
  { intros sel w Hsel. cbn in Hsel.
    apply list_elem_of_singleton in Hsel as ->. reflexivity. }
  { intros w. reflexivity. }
  destruct (Hall 15%Z (fun _ _ => eq_refl) (0%nat, [])) as [w2 Hrun2].
  cbv zeta. rewrite Hrun1, Hrun2. by repeat split.
Defined.

(** ** The scroll loop *)

Section ScrollLoop.
Context {U : UnicodeData} {world : Type} {B : Browser world}.

Lemma truthful_scroll_to_load_more : truthful scroll_to_load_more.
Proof.
  apply truthful_try_except; [|intros e; apply truthful_ret].
  apply truthful_bind; [by apply truthful_perform; intros w; apply surjective_pairing|].
  intros last_height.
  apply truthful_bind; [by apply truthful_perform; intros w; apply surjective_pairing|].
  intros _. apply truthful_bind; [apply truthful_sleep|]. intros _.
  apply truthful_bind; [by apply truthful_perform; intros w; apply surjective_pairing|].
  intros new_height. apply truthful_ret.
Qed.

Lemma truthful_scroll_loop : forall (fuel : nat) (scroll_attempts max_scrolls : Z),
  truthful (scroll_loop fuel scroll_attempts max_scrolls).
Proof.
  induction fuel as [|fuel IH]; intros attempts max_scrolls;
    cbn [scroll_loop]; [apply truthful_ret|].
  destruct (bool_decide (attempts < max_scrolls)%Z); [|apply truthful_ret].
  apply truthful_bind; [apply truthful_scroll_to_load_more|].
  intros more. destruct more; cbn [negb]; [apply IH|apply truthful_ret].
Qed.

(** One cycle never raises; what it adds to the log is a cycle as the spec
    has it, with the report it returns. *)
Lemma scroll_to_load_more_spec (s : world * list event) :
  exists (more : bool) w' events,
    scroll_to_load_more s = (Ok more, (w', s.2 ++ events))
    /\ cycle more events.
Proof.
  unfold scroll_to_load_more, try_except.
  rewrite M_bind_run, perform_run.
  destruct (scroll_height s.1) as [[h1|e1] w1]; cbn [fst snd].
  2:{ exists false, w1, [Height (Raise e1)]. split; [done|constructor]. }
  rewrite M_bind_run, perform_run. cbn [fst snd].
  destruct (scroll_to_bottom w1) as [[[]|e2] w2]; cbn [fst snd].
  2:{ exists false, w2, [Height (Ok h1); Scrolled (Raise e2)].
      rewrite <- app_assoc. split; [done|constructor]. }
  rewrite M_bind_run. unfold do_sleep at 1. cbn [fst snd].
  rewrite M_bind_run, perform_run. cbn [fst snd].
  destruct (scroll_height (sleep 3 w2)) as [[h2|e3] w3]; cbn [fst snd].
  2:{ exists false, w3,
        [Height (Ok h1); Scrolled (Ok ()); Slept 3; Height (Raise e3)].
      rewrite <- !app_assoc. split; [done|constructor]. }
  exists (bool_decide (h1 < h2)%Z), w3,
    [Height (Ok h1); Scrolled (Ok ()); Slept 3; Height (Ok h2)].
  rewrite <- !app_assoc. split; [|constructor].
  cbn [mret M_ret]. do 2 f_equal. apply bool_decide_ext. lia.
Qed.

(** The loop goes on while the cycles report growth, up to its bound, and
    counts them. *)
Lemma scroll_loop_scrolled : forall (k fuel : nat) (scroll_attempts max_scrolls : Z)
    (s : world * list event),
  (max_scrolls - scroll_attempts)%Z = Z.of_nat k ->
  (k < fuel)%nat ->
  exists (grown : nat) w' events,
    scroll_loop fuel scroll_attempts max_scrolls s
    = (Ok (Some (scroll_attempts + Z.of_nat grown)%Z), (w', s.2 ++ events))
    /\ scrolled k grown events.
Proof.
  induction k as [|k IH]; intros fuel attempts max_scrolls s Hk Hfuel;
    (destruct fuel as [|fuel]; [lia|]); cbn [scroll_loop].
  - rewrite bool_decide_eq_false_2 by lia.
    exists 0%nat, s.1, []. rewrite app_nil_r, Z.add_0_r.
    split; [by destruct s|constructor].
  - rewrite bool_decide_eq_true_2 by lia.
    rewrite M_bind_run.
    destruct (scroll_to_load_more_spec s) as (more & w1 & events & Hrun & Hc).
    rewrite Hrun. destruct more; cbn [negb].
    + destruct (IH fuel (attempts + 1)%Z max_scrolls (w1, s.2 ++ events))
        as (grown & w' & rest & Hloop & Hrest); [lia|lia|].
      exists (S grown), w', (events ++ rest). split.
      * rewrite Hloop. cbn [fst snd]. rewrite app_assoc.
        do 3 f_equal. lia.
      * by constructor.
    + exists 0%nat, w1, events. rewrite Z.add_0_r.
      split; [done|by constructor].
Qed.

Lemma cycle_scrolls (more : bool) (events : list event) :
  cycle more events -> (scrolls events <= 1)%nat.
Proof. intros []; unfold scrolls; simpl; lia. Qed.

Lemma scrolled_scrolls (bound grown : nat) (events : list event) :
  scrolled bound grown events ->
  (scrolls events <= bound)%nat /\ (grown <= bound)%nat.
Proof.
  induction 1 as [|bound events Hc|bound grown events rest Hc _ [IH1 IH2]].
  - unfold scrolls. simpl. lia.
  - apply cycle_scrolls in Hc. lia.
  - apply cycle_scrolls in Hc. unfold scrolls in *.
    rewrite List.filter_app, length_app. lia.
Qed.

(** On a page that grows with every scroll a cycle reports growth after
    one scroll. *)
Lemma scroll_to_load_more_grows (s : world * list event) :
  grows ->
  exists w' events,
    scroll_to_load_more s = (Ok true, (w', s.2 ++ events))
    /\ scrolls events = 1%nat.
Proof.
  intros Hgrows. destruct (Hgrows s.1) as (h1 & h2 & H1 & Hs & H2 & Hlt).
  unfold scroll_to_load_more, try_except.
  rewrite M_bind_run, perform_run, H1. cbn [fst snd].
  rewrite M_bind_run, perform_run. cbn [fst snd]. rewrite Hs.
  rewrite M_bind_run. unfold do_sleep at 1. cbn [fst snd].
  rewrite M_bind_run, perform_run. cbn [fst snd]. rewrite H2.
  cbn [fst snd mret M_ret].
  rewrite bool_decide_eq_true_2 by lia.
  eexists _, [Height (Ok h1); Scrolled (Ok ()); Slept 3; Height (Ok h2)].
  by rewrite <- !app_assoc.
Qed.

Lemma scroll_loop_grows : forall (k fuel : nat) (scroll_attempts max_scrolls : Z)
    (s : world * list event),
  grows ->
  (max_scrolls - scroll_attempts)%Z = Z.of_nat k ->
  (k < fuel)%nat ->
  exists w' events,
    scroll_loop fuel scroll_attempts max_scrolls s
    = (Ok (Some max_scrolls), (w', s.2 ++ events))
    /\ scrolls events = k.
Proof.
  intros k fuel attempts max_scrolls s Hgrows. revert fuel attempts s.
  induction k as [|k IH]; intros fuel attempts s Hk Hfuel;
    (destruct fuel as [|fuel]; [lia|]); cbn [scroll_loop].
  - rewrite bool_decide_eq_false_2 by lia.
    exists s.1, []. rewrite app_nil_r.
    replace attempts with max_scrolls by lia. by destruct s.
  - rewrite bool_decide_eq_true_2 by lia.
    rewrite M_bind_run.
    destruct (scroll_to_load_more_grows s Hgrows) as (w1 & events & -> & Hone).
    cbn [negb].
    destruct (IH fuel (attempts + 1)%Z (w1, s.2 ++ events))
      as (w' & rest & -> & Hrest); [lia|lia|].
    exists w', (events ++ rest). cbn [fst snd]. rewrite app_assoc.
    split; [done|]. unfold scrolls in *.
    rewrite List.filter_app, length_app. lia.
Qed.

(** One cycle never raises, scrolls at most once, and reports growth
    exactly after a scroll between two heights, the second greater. *)
Lemma scroll_to_load_more_cycle (s : world * list event) :
  exists (more : bool) w' cycle,
    scroll_to_load_more s = (Ok more, (w', s.2 ++ cycle))
    /\ (scrolls cycle <= 1)%nat
    /\ (more = true <->
        exists h1 h2 : Z,
          cycle = [Height (Ok h1); Scrolled (Ok ()); Slept 3; Height (Ok h2)]
          /\ (h1 < h2)%Z).
Proof.
  unfold scroll_to_load_more, try_except.
  rewrite M_bind_run, perform_run.
  destruct (scroll_height s.1) as [[h1|e1] w1]; cbn [fst snd].
  2:{ exists false, w1, [Height (Raise e1)]. split; [done|].
      split; [unfold scrolls; simpl; lia|].
      split; [done|]. by intros [? [? [? _]]]. }
  rewrite M_bind_run, perform_run. cbn [fst snd].
  destruct (scroll_to_bottom w1) as [[[]|e2] w2]; cbn [fst snd].
  2:{ exists false, w2, [Height (Ok h1); Scrolled (Raise e2)].
      rewrite <- app_assoc. split; [done|].
      split; [unfold scrolls; simpl; lia|].
      split; [done|]. by intros [? [? [? _]]]. }
  rewrite M_bind_run. unfold do_sleep at 1. cbn [fst snd].
  rewrite M_bind_run, perform_run. cbn [fst snd].
  destruct (scroll_height (sleep 3 w2)) as [[h2|e3] w3]; cbn [fst snd].
  2:{ exists false, w3,
        [Height (Ok h1); Scrolled (Ok ()); Slept 3; Height (Raise e3)].
      rewrite <- !app_assoc. split; [done|].
      split; [unfold scrolls; simpl; lia|].
      split; [done|]. by intros [? [? [? _]]]. }
  exists (bool_decide (h2 > h1)%Z), w3,
    [Height (Ok h1); Scrolled (Ok ()); Slept 3; Height (Ok h2)].
  rewrite <- !app_assoc. split; [done|].
  split; [unfold scrolls; simpl; lia|].
  rewrite bool_decide_eq_true. split.
  - intros Hm. exists h1, h2. split; [done|lia].
  - intros [h1' [h2' [[= -> ->] Hlt]]]. lia.
Qed.

(** On a page of constant height a cycle scrolls once and reports no
    growth. *)
Lemma scroll_to_load_more_still (h : Z) (s : world * list event) :
  (forall w, (scroll_height w).1 = Ok h) ->
  exists w' cycle,
    scroll_to_load_more s = (Ok false, (w', s.2 ++ cycle))
    /\ scrolls cycle = 1%nat.
Proof.
  intros Hh. unfold scroll_to_load_more, try_except.
  rewrite M_bind_run, perform_run, Hh. cbn [fst snd].
  rewrite M_bind_run, perform_run. cbn [fst snd].
  destruct (scroll_to_bottom _) as [[[]|e2] w2]; cbn [fst snd].
  2:{ exists w2, [Height (Ok h); Scrolled (Raise e2)].
      rewrite <- app_assoc. by split. }
  rewrite M_bind_run. unfold do_sleep at 1. cbn [fst snd].
  rewrite M_bind_run, perform_run, Hh. cbn [fst snd].
  eexists _, [Height (Ok h); Scrolled (Ok ()); Slept 3; Height (Ok h)].
  rewrite <- !app_assoc. split; [|done].
  cbn. rewrite bool_decide_eq_false_2; [done|lia].
Qed.

(** The loop runs the cycles one after the other up to the first that
    reports no growth, and at most [max_scrolls - scroll_attempts] of them;
    fuel beyond that number is not used. *)
Lemma scroll_loop_cycles : forall (k fuel : nat) (scroll_attempts max_scrolls : Z)
    (s : world * list event),
  (max_scrolls - scroll_attempts)%Z = Z.of_nat k ->
  (k < fuel)%nat ->
  exists (n : nat) (reports : list bool) s',
    scroll_cycles n s = (Ok reports, s')
    /\ scroll_loop fuel scroll_attempts max_scrolls s
       = (Ok (Some (scroll_attempts
                    + Z.of_nat (length (List.filter id reports)))%Z), s')
    /\ (n <= k)%nat
    /\ ((n = k /\ reports = repeat true k)
        \/ (exists j, (j < k)%nat /\ n = S j
                      /\ reports = repeat true j ++ [false])).
Proof.
  induction k as [|k IH]; intros fuel attempts max_scrolls s Hk Hfuel;
    (destruct fuel as [|fuel]; [lia|]); cbn [scroll_loop].
  - rewrite bool_decide_eq_false_2 by lia.
    exists 0%nat, [], s. simpl. rewrite Z.add_0_r. repeat split; [lia|by left].
  - rewrite bool_decide_eq_true_2 by lia.
    rewrite M_bind_run.
    destruct (scroll_to_load_more_cycle s) as [more [w1 [cycle [Hrun _]]]].
    rewrite Hrun. destruct more; cbn [negb].
    + destruct (IH fuel (attempts + 1)%Z max_scrolls (w1, s.2 ++ cycle))
        as [n [reports [s' [Hcyc [Hloop [Hn Hshape]]]]]]; [lia|lia|].
      exists (S n), (true :: reports), s'. split; [|split; [|split]].
      * cbn [scroll_cycles]. rewrite M_bind_run, Hrun, M_bind_run, Hcyc. done.
      * rewrite Hloop. cbn [List.filter id length]. do 3 f_equal. lia.
      * lia.
      * destruct Hshape as [[-> ->]|[j [Hj [-> ->]]]]; [by left|].
        right. exists (S j). split; [lia|]. done.
    + exists 1%nat, [false], (w1, s.2 ++ cycle). split; [|split; [|split]].
      * cbn [scroll_cycles]. by rewrite M_bind_run, Hrun.
      * simpl. by rewrite Z.add_0_r.
      * lia.
      * right. exists 0%nat. split; [lia|]. done.
Qed.

Lemma scroll_cycles_log : forall (n : nat) (s : world * list event),
  exists reports w' events,
    scroll_cycles n s = (Ok reports, (w', s.2 ++ events))
    /\ (scrolls events <= n)%nat.
Proof.
  induction n as [|n IH]; intros s.
  - exists [], s.1, []. rewrite app_nil_r. destruct s. split; [done|]. unfold scrolls. simpl. lia.
  - cbn [scroll_cycles]. rewrite M_bind_run.
    destruct (scroll_to_load_more_cycle s) as [more [w1 [cycle [Hrun [Hone _]]]]].
    rewrite Hrun, M_bind_run.
    destruct (IH (w1, s.2 ++ cycle)) as [reports [w' [events [Hcyc Hle]]]].
    rewrite Hcyc. cbn [fst snd].
    exists (more :: reports), w', (cycle ++ events).
    rewrite app_assoc. split; [done|].
    unfold scrolls in *. rewrite List.filter_app, length_app. lia.
Qed.

Lemma scrape_listings_run (s : world * list event) :
  scrape_listings s
  = match start_chrome s.1 with
    | (Ok _, w1) =>
        let '(r, s2) := session [] (w1, s.2 ++ [Started (Ok ())]) in
        match driver_quit s2.1 with
        | (Ok _, w3) => (r, (w3, s2.2 ++ [QuitDriver (Ok ())]))
        | (Raise e, w3) => (Raise e, (w3, s2.2 ++ [QuitDriver (Raise e)]))
        end
    | (Raise e, w1) => (Ok [], (w1, s.2 ++ [Started (Raise e)]))
    end.
Proof.
  unfold scrape_listings, setup_driver.
  rewrite M_bind_run. unfold try_except at 1.
  rewrite M_bind_run, perform_run.
  destruct (start_chrome s.1) as [[[]|e] w1]; cbn [fst snd mret M_ret negb];
    [|done].
  unfold try_finally. fold (session (U := U) (B := B) []).
  destruct (session [] (w1, s.2 ++ [Started (Ok ())])) as [r s2].
  rewrite perform_run.
  by destruct (driver_quit s2.1) as [[[]|e] w3].
Qed.

Lemma truthful_scrape_listings : truthful scrape_listings.
Proof.
  unfold scrape_listings.
  apply truthful_bind.
  { apply truthful_try_except; [|intros e; apply truthful_ret].
    apply truthful_bind; [|intros _; apply truthful_ret].
    by apply truthful_perform; intros w; apply surjective_pairing. }
  intros ready. destruct ready; cbn [negb]; [|apply truthful_ret].
  apply truthful_try_finally;
    [|by apply truthful_perform; intros w; apply surjective_pairing].
  apply truthful_try_except; [|intros e; apply truthful_ret].
  apply truthful_bind;
    [by apply truthful_perform; intros w; apply surjective_pairing|].
  intros _. apply truthful_bind; [apply truthful_sleep|]. intros _.
  apply truthful_bind; [apply truthful_wait_for_listings|].
  intros [selector|].
  - apply truthful_bind; [apply truthful_scroll_loop|]. intros _.
    apply truthful_bind; [|intros elements; apply truthful_ret].
    by apply truthful_perform; intros w; apply surjective_pairing.
  - apply truthful_bind;
      [by apply truthful_perform; intros w; apply surjective_pairing|].
    intros page_source.
    apply truthful_bind; [|intros _; apply truthful_ret].
    apply truthful_perform. intros w. exists page_source.
    apply surjective_pairing.
Qed.

(** The calls of [scrape_listings] once a candidate selector has shown
    up: those that located it, the scroll loop, [find_elements], quit. *)
Lemma scrape_listings_located_log (i : nat) (selector : string)
    (s : world * list event) :
  listing_selectors !! i = Some selector ->
  (forall w, (start_chrome w).1 = Ok ()) ->
  (forall w, (driver_get search_url w).1 = Ok ()) ->
  (forall sel w, sel ∈ take i listing_selectors ->
                 (wait_presence sel 15 w).1 = Raise TimeoutException) ->
  (forall w, (wait_presence selector 15 w).1 = Ok ()) ->
  exists (grown : nat) events found quit w',
    (scrape_listings s).2
    = (w', s.2 ++ [Started (Ok ()); Got search_url (Ok ()); Slept 5]
               ++ (timed_out 15 <$> take i listing_selectors)
               ++ [Waited selector 15 (Ok ())]
               ++ events
               ++ [Found selector found; QuitDriver quit])
    /\ scrolled 3 grown events.
Proof.
  intros Hi Hstart Hget Hearlier Hwait.
  rewrite scrape_listings_run.
  pose proof (Hstart s.1) as H1.
  destruct (start_chrome s.1) as [r1 w1]. cbn [fst] in H1. subst r1.
  unfold session, try_except.
  rewrite M_bind_run, (perform_known _ _ _ _ (Hget _)). cbn [fst snd].
  rewrite M_bind_run. unfold do_sleep at 1. cbn [fst snd].
  rewrite M_bind_run. unfold wait_for_listings, try_except.
  match goal with
  | |- context [wait_loop _ 15 ?st] =>
      destruct (wait_loop_first 15 selector (drop (S i) listing_selectors)
                  Hwait (take i listing_selectors) st Hearlier)
        as [w2 Hw]
  end.
  rewrite (take_drop_middle _ _ _ Hi) in Hw.
  rewrite Hw. clear Hw. cbn [fst snd mret M_ret].
  rewrite M_bind_run.
  match goal with
  | |- context [scroll_loop 4 0 3 ?st] =>
      destruct (scroll_loop_scrolled 3 4 0 3 st eq_refl ltac:(lia))
        as (grown & w3 & events & Hloop & Hscrolled)
  end.
  rewrite Hloop. clear Hloop. cbn [fst snd].
  rewrite M_bind_run, perform_run. cbn [fst snd].
  destruct (find_elements selector w3) as [found w4]. cbn [fst snd].
  exists grown, events, found.
  destruct found as [elements|e]; cbn [fst snd mret M_ret];
    destruct (driver_quit w4) as [quit w5];
    exists quit, w5; (split; [|done]);
    destruct quit as [[]|e']; cbn [fst snd]; by rewrite <- !app_assoc.
Qed.

(** C8: a scroll-and-settle cycle never raises; the calls it makes are
    those of a cycle as the spec has it (read the height, scroll, settle,
    read the height), up to the first that fails, and it reports growth
    exactly when all succeed and the second height is greater than the
    first.  The scroll loop of [scrape_listings] ends for every page (four
    tests of its condition suffice, further fuel changes nothing); it runs
    at most 3 cycles, one after the other up to the first that reports no
    growth, with at most 3 scrolls; the events in the log are the calls
    made, with the answers the browser gave.  On a page whose height never
    changes it scrolls exactly once; on a page that grows with every scroll
    it scrolls three times.  In [scrape_listings] this loop runs once a
    candidate selector has shown up, between the wait that located it and
    [find_elements]. *)
Theorem scroll_loop_bounded :
  (forall s : world * list event,
      exists (more : bool) w' events,
        scroll_to_load_more s = (Ok more, (w', s.2 ++ events))
        /\ cycle more events
        /\ genuine s.1 events w'
        /\ (scrolls events <= 1)%nat
        /\ (more = true <->
            exists h1 h2 : Z,
              events = [Height (Ok h1); Scrolled (Ok ()); Slept 3;
                        Height (Ok h2)]
              /\ (h1 < h2)%Z))
  /\ (forall (extra : nat) (s : world * list event),
      exists (n grown : nat) (reports : list bool) w' events,
        scroll_loop (4 + extra) 0 3 s
        = (Ok (Some (Z.of_nat grown)), (w', s.2 ++ events))
        /\ scrolled 3 grown events
        /\ genuine s.1 events w'
        /\ grown = length (List.filter id reports)
        /\ scroll_cycles n s = (Ok reports, (w', s.2 ++ events))
        /\ (n <= 3)%nat
        /\ (scrolls events <= 3)%nat
        /\ ((n = 3%nat /\ reports = [true; true; true])
            \/ (exists j, (j < 3)%nat /\ n = S j
                          /\ reports = repeat true j ++ [false])))
  /\ (forall (h : Z),
        (forall w, (scroll_height w).1 = Ok h) ->
        forall (extra : nat) (s : world * list event),
        exists w' events,
          scroll_loop (4 + extra) 0 3 s = (Ok (Some 0%Z), (w', s.2 ++ events))
          /\ scrolls events = 1%nat)
  /\ (grows ->
      forall (extra : nat) (s : world * list event),
      exists w' events,
        scroll_loop (4 + extra) 0 3 s = (Ok (Some 3%Z), (w', s.2 ++ events))
        /\ scrolls events = 3%nat)
  /\ (forall (i : nat) (selector : string) (s : world * list event),
        listing_selectors !! i = Some selector ->
        (forall w, (start_chrome w).1 = Ok ()) ->
        (forall w, (driver_get search_url w).1 = Ok ()) ->
        (forall sel w, sel ∈ take i listing_selectors ->
            (wait_presence sel 15 w).1 = Raise TimeoutException) ->
        (forall w, (wait_presence selector 15 w).1 = Ok ()) ->
        exists (grown : nat) events found quit w',
          (scrape_listings s).2
          = (w', s.2 ++ [Started (Ok ()); Got search_url (Ok ()); Slept 5]
                     ++ (timed_out 15 <$> take i listing_selectors)
                     ++ [Waited selector 15 (Ok ())]
                     ++ events
                     ++ [Found selector found; QuitDriver quit])
          /\ scrolled 3 grown events
          /\ genuine s.1
               ([Started (Ok ()); Got search_url (Ok ()); Slept 5]
                  ++ (timed_out 15 <$> take i listing_selectors)
                  ++ [Waited selector 15 (Ok ())]
                  ++ events
                  ++ [Found selector found; QuitDriver quit]) w').
Proof.
  split; [|split; [|split; [|split]]].
  - intros s.
    destruct (scroll_to_load_more_spec s) as (more & w' & events & Hrun & Hc).
    exists more, w', events. split; [done|]. split; [done|].
    split; [exact (truthful_run _ _ _ _ _ truthful_scroll_to_load_more Hrun)|].
    split; [by eapply cycle_scrolls|].
    split.
    + intros ->. inversion Hc as [h1 h2 Hb| | |]; subst.
      exists h1, h2. split; [done|].
      by apply bool_decide_eq_true in Hb.
    + intros (h1 & h2 & -> & Hlt). inversion Hc as [h1' h2' Hb| | |]; subst.
      by apply bool_decide_eq_true.
  - intros extra s.
    destruct (scroll_loop_cycles 3 (4 + extra) 0 3 s)
      as [n [reports [s' [Hcyc [Hloop [Hn Hshape]]]]]]; [done|lia|].
    destruct (scroll_loop_scrolled 3 (4 + extra) 0 3 s)
      as (grown & w' & events & Hrun & Hscrolled); [done|lia|].
    rewrite Hrun in Hloop. injection Hloop as Hgrown <-.
    exists n, grown, reports, w', events.
    rewrite Z.add_0_l in Hrun.
    split; [done|]. split; [done|].
    split; [exact (truthful_run _ _ _ _ _ (truthful_scroll_loop _ _ _) Hrun)|].
    split; [lia|]. split; [done|]. split; [done|].
    split; [by apply scrolled_scrolls in Hscrolled as [? _]|done].
  - intros h Hh extra s. cbn [Nat.add scroll_loop].
    rewrite bool_decide_eq_true_2 by lia. rewrite M_bind_run.
    destruct (scroll_to_load_more_still h s Hh) as [w' [events [-> Hone]]].
    by exists w', events.
  - intros Hgrows extra s.
    by apply (scroll_loop_grows 3 (4 + extra) 0 3 s Hgrows); [|lia].
  - intros i selector s Hi Hstart Hget Hearlier Hwait.
    destruct (scrape_listings_located_log i selector s Hi Hstart Hget
                Hearlier Hwait)
      as (grown & events & found & quit & w' & Hrun & Hscrolled).
    exists grown, events, found, quit, w'. split; [done|]. split; [done|].
    apply (truthful_run scrape_listings s (scrape_listings s).1 w').
    + apply truthful_scrape_listings.
    + rewrite <- Hrun. by destruct (scrape_listings s).
Qed.

End ScrollLoop.

(** C8 on a page that is always 1000 high: one scroll, then the loop
    ends; and on a page that is higher at every look: three scrolls. *)
Lemma scroll_loop_bounded_witness :
  let still :=
    scroll_loop (B := scripted [] (fun _ => true) [] (fun _ => 1000%Z) true)
      4 0 3 (0%nat, []) in
  let growing :=
    scroll_loop (B := scripted [] (fun _ => true) [] Z.of_nat true)
      4 0 3 (0%nat, []) in
  (still.1 = Ok (Some 0%Z) /\ scrolls still.2.2 = 1%nat)
  /\ (growing.1 = Ok (Some 3%Z) /\ scrolls growing.2.2 = 3%nat).
Proof.
  pose proof (scroll_loop_bounded (U := ascii_only)
                (B := scripted [] (fun _ => true) [] (fun _ => 1000%Z) true))
    as [_ [_ [Hstill _]]].
  pose proof (scroll_loop_bounded (U := ascii_only)
                (B := scripted [] (fun _ => true) [] Z.of_nat true))
    as [_ [_ [_ [Hgrows _]]]].
  destruct (Hstill 1000%Z (fun _ => eq_refl) 0%nat (0%nat, []))
    as [w1 [events1 [Hrun1 Hone]]].
  destruct (Hgrows) with (extra := 0%nat) (s := (0%nat, @nil event))
    as [w2 [events2 [Hrun2 Hthree]]].
  { intros w. exists (Z.of_nat w), (Z.of_nat (S (S (S w)))).
    repeat split. lia. }
  change (4 + 0)%nat with 4%nat in Hrun1, Hrun2. cbv zeta.
  by rewrite Hrun1, Hrun2.
Defined.

(** ** ScrapeOrchestrator *)

Section ScrapeOrchestrator.
Context {U : UnicodeData} {world : Type} {B : Browser world}.

(** A block whose handler returns a value never raises. *)
Lemma try_except_returns {A} (body : M world A) (a : A) (s : world * list event) :
  exists r s', try_except body (fun _ => mret a) s = (Ok r, s').
Proof.
  unfold try_except. destruct (body s) as [[r|e] s']; by eexists _, _.
Qed.

(** [scrape_listings] returns a list, unless quitting the driver, which
    the [finally] block does outside every handler, raises: that exception
    is the one [scrape_listings] raises. *)
Lemma scrape_listings_outcome (s : world * list event) :
  exists s',
    (exists listings, scrape_listings s = (Ok listings, s'))
    \/ (exists e w,
          scrape_listings s = (Raise e, s')
          /\ (driver_quit w).1 = Raise e
          /\ last s'.2 = Some (QuitDriver (Raise e))).
Proof.
  unfold scrape_listings. rewrite M_bind_run.
  destruct (try_except_returns (_ ← perform Started start_chrome; mret true)
              false s) as [ready [s1 Hsetup]].
  unfold setup_driver. rewrite Hsetup.
  destruct ready; cbn [negb].
  - unfold try_finally.
    match goal with
    | |- context [try_except ?body (fun _ => mret ?a) s1] =>
        destruct (try_except_returns body a s1) as [listings [s2 Hbody]];
        rewrite Hbody
    end.
    rewrite perform_run.
    destruct (driver_quit s2.1) as [[[]|e] w3] eqn:Eq; cbn [fst snd].
    + eexists. left. by eexists.
    + eexists. right. exists e, s2.1. rewrite Eq. cbn [fst snd].
      split; [done|]. split; [done|]. cbn [snd]. apply last_snoc.
  - eexists. left. by eexists.
Qed.

(** A failing start of the driver gives the empty list. *)
Lemma scrape_listings_setup_fault (s : world * list event) e :
  (start_chrome s.1).1 = Raise e ->
  (scrape_listings s).1 = Ok [].
Proof.
  intros Hs. unfold scrape_listings, setup_driver, try_except.
  rewrite !M_bind_run, perform_run, Hs. done.
Qed.

(** A failing page load gives the empty list, when quitting succeeds. *)
Lemma scrape_listings_load_fault (s : world * list event) e :
  (start_chrome s.1).1 = Ok () ->
  (driver_get search_url (start_chrome s.1).2).1 = Raise e ->
  (forall w, (driver_quit w).1 = Ok ()) ->
  (scrape_listings s).1 = Ok [].
Proof.
  intros Hs Hg Hq.
  unfold scrape_listings, setup_driver, try_except, try_finally.
  rewrite M_bind_run, M_bind_run, perform_run, Hs.
  cbn [fst snd negb mret M_ret].
  rewrite M_bind_run, perform_run. cbn [fst snd]. rewrite Hg.
  cbn [fst snd mret M_ret].
  rewrite perform_run. cbn [fst snd]. by rewrite Hq.
Qed.

End ScrapeOrchestrator.

(** ** Where the code leaves the spec *)

(** C1: on the markup "₹, car cover" [extract_from_page_source] emits a
    listing whose price is [None]: the price match "₹, car cover" holds no
    digit, and the value of [extract_price] is stored as it is, without the
    "N/A" that [extract_listing_data] puts in its place. *)
Theorem extract_from_page_source_null_price {U : UnicodeData} :
  extract_from_page_source (rupee :: py ", car cover")
  = [ <["title"%string := PStr (py "car cover")]>
      (<["price"%string := PNone]>
      (<["location"%string := PStr NA]>
      (<["date"%string := PStr NA]>
      (<["url"%string := PStr NA]> ∅)))) ].
Proof.
  assert (Hnone : Re.match_len title_pattern (rupee :: py ", car cover")
                  = None).
  { destruct U as [dec low ign]. vm_compute.
    by destruct (ign 99 8377), (ign 115 8377), (ign 98 8377), (ign 119 8377). }
  unfold extract_from_page_source.
  change (Re.finditer price_pattern (rupee :: py ", car cover"))
    with [(0%nat, 12%nat)].
  cbn [fold_left]. rewrite page_source_step_listing.
  unfold degraded_listing.
  change (context_window (rupee :: py ", car cover") (0%nat, 12%nat))
    with (rupee :: py ", car cover").
  assert (Hs : Re.search title_pattern (rupee :: py ", car cover")
               = Some (3%nat, 12%nat)).
  { unfold Re.search. cbn [Re.search_from].
    rewrite Hnone. reflexivity. }
  rewrite Hs. reflexivity.
Qed.

(** C9: when quitting the driver raises, so does [scrape_listings],
    whatever the page: the call in the [finally] block is outside every
    handler. *)
Theorem scrape_listings_raises_when_quit_fails {U : UnicodeData}
    (page : pystr) (present : string -> bool) (elements : list node)
    (height : nat -> Z) (now : nat) :
  (scrape_listings (B := scripted page present elements height false)
     (now, [])).1
  = Raise WebDriverException.
Proof.
  unfold scrape_listings, setup_driver.
  rewrite M_bind_run. unfold try_except at 1.
  rewrite M_bind_run, perform_run. cbn [fst snd start_chrome scripted mret M_ret negb].
  unfold try_finally.
  match goal with
  | |- context [try_except ?body ?handler ?s] =>
      destruct (try_except body handler s) as [r s']
  end.
  by rewrite perform_run.
Qed.

(** * Further properties of the code *)

(** ** [extract_price] on its own results *)

Lemma filter_all (p : N -> bool) (s : pystr) :
  Forall (fun c => p c = true) s -> List.filter p s = s.
Proof.
  induction 1 as [|c s Hc _ IH]; simpl; [done|]. by rewrite Hc, IH.
Qed.

Section PriceFixedPoint.
Context {U : UnicodeData}.

(** X1: a price [extract_price] returns is a non-empty string of decimal
    digits, without rupee sign, comma or white space, and normalizing it
    again gives it back; so [extract_price] applied twice is [extract_price]
    applied once, on null as on any text. *)
Theorem extract_price_fixed_point (price_text : option pystr) :
  extract_price (extract_price price_text) = extract_price price_text
  /\ match extract_price price_text with
     | Some price =>
         price <> []
         /\ Forall (fun c => isdecimal c = true /\ currency_class c = false)
              price
     | None => True
     end.
Proof.
  destruct price_text as [text|]; [|done].
  destruct (extract_price (Some text)) as [price|] eqn:E; [|done].
  destruct (extract_price_Some _ _ E) as [Hne [Hprice Hdigits]].
  assert (Hclean : Forall (fun c => currency_class c = false) price).
  { rewrite Hprice. apply Forall_forall. intros c Hc.
    apply list_elem_of_In, List.filter_In in Hc as [Hc _].
    apply List.filter_In in Hc as [_ Hc]. by apply negb_true_iff. }
  assert (Hagain : extract_price (Some price) = Some price).
  { rewrite extract_price_runs.
    assert (without currency_class price = price) as ->.
    { apply filter_all. eapply Forall_impl; [exact Hclean|].
      intros c Hc. simpl in Hc. by rewrite Hc. }
    pose proof (findall_Plus_runs isdecimal price) as Hruns.
    apply maximal_runs_concat in Hruns.
    rewrite (filter_all _ _ Hdigits) in Hruns.
    destruct (Re.findall (Re.Plus isdecimal) price) as [|run runs].
    - simpl in Hruns. by subst price.
    - rewrite Hruns. by destruct price. }
  split; [exact Hagain|]. split; [done|].
  apply Forall_forall. intros c Hc. split.
  - by apply (proj1 (Forall_forall _ _) Hdigits).
  - by apply (proj1 (Forall_forall _ _) Hclean).
Qed.

End PriceFixedPoint.

(** ** The records of [extract_listing_data] *)

Section FieldRecords.
Context {U : UnicodeData}.

(** A returned record, field by field. *)
Lemma extract_listing_data_Some (n : node) (data : gmap string pyval) :
  extract_listing_data n = Some data ->
  exists url,
    find_url n = Ok url
    /\ data
       = <["url"%string := url]>
         (<["date"%string := PStr (chain_text n date_selectors)]>
         (<["location"%string := PStr (chain_text n location_selectors)]>
         (<["price"%string := PStr (chain_price n price_selectors)]>
         (<["title"%string := PStr (chain_text n title_selectors)]> ∅)))).
Proof.
  unfold extract_listing_data.
  destruct (text_loop n title_selectors None) as [title|e] eqn:Et;
    cbn -[text_loop price_loop chain_text chain_price]; [|done].
  destruct (price_loop n price_selectors None) as [price|e] eqn:Ep;
    cbn -[text_loop price_loop chain_text chain_price]; [|done].
  destruct (text_loop n location_selectors None) as [location|e] eqn:El;
    cbn -[text_loop price_loop chain_text chain_price]; [|done].
  destruct (text_loop n date_selectors None) as [date|e] eqn:Ed;
    cbn -[text_loop price_loop chain_text chain_price]; [|done].
  destruct (find_url n) as [url|e] eqn:Eu;
    cbn -[text_loop price_loop chain_text chain_price]; [|done].
  intros [= <-]. exists url. split; [done|].
  by rewrite <- (text_loop_Ok _ _ None _ eq_refl Et),
    <- (price_loop_Ok _ _ None _ eq_refl Ep),
    <- (text_loop_Ok _ _ None _ eq_refl El),
    <- (text_loop_Ok _ _ None _ eq_refl Ed).
Qed.

Lemma find_url_Ok (n : node) (url : pyval) :
  find_url n = Ok url ->
  (n url_selector = Raise NoSuchElementException /\ url = PStr NA)
  \/ (exists link,
        n url_selector = Ok link
        /\ (get_attribute link "href"%string = Ok url
            \/ (get_attribute link "href"%string
                = Raise NoSuchElementException /\ url = PStr NA))).
Proof.
  unfold find_url. destruct (n url_selector) as [link|e] eqn:En; cbn.
  - destruct (get_attribute link "href"%string) as [v|e] eqn:Ea.
    + intros [= <-]. right. exists link. split; [done|by left].
    + destruct e; try done. intros [= <-]. right. exists link.
      split; [done|by right].
  - destruct e; try done. intros [= <-]. by left.
Qed.

(** X2: a record [extract_listing_data] returns has exactly the keys title,
    price, location, date and url; title, location and date are "N/A" or a
    non-empty trimmed string; price is "N/A" or a non-empty string of
    decimal digits; url is what [get_attribute('href')] returned for the
    item link, whatever that is, or "N/A" when there is no such link. *)
Theorem extract_listing_data_invariant (n : node) :
  match extract_listing_data n with
  | Some data =>
      dom data
      = ({["title"; "price"; "location"; "date"; "url"]}%string : gset string)
      /\ (exists title, data !! "title"%string = Some (PStr title)
            /\ (title = NA \/ (title <> [] /\ strip title = title)))
      /\ (exists price, data !! "price"%string = Some (PStr price)
            /\ (price = NA
                \/ (price <> []
                    /\ Forall (fun c => isdecimal c = true) price)))
      /\ (exists location, data !! "location"%string = Some (PStr location)
            /\ (location = NA
                \/ (location <> [] /\ strip location = location)))
      /\ (exists date, data !! "date"%string = Some (PStr date)
            /\ (date = NA \/ (date <> [] /\ strip date = date)))
      /\ (exists url, data !! "url"%string = Some url
            /\ (url = PStr NA
                \/ exists link,
                     n url_selector = Ok link
                     /\ get_attribute link "href"%string = Ok url))
  | None => True
  end.
Proof.
  destruct (extract_listing_data n) as [data|] eqn:E; [|done].
  destruct (extract_listing_data_Some n data E) as [url [Hurl ->]].
  split; [|split; [|split; [|split; [|split]]]].
  - rewrite !dom_insert_L, dom_empty_L. set_solver.
  - eexists. split; [by simplify_map_eq|apply chain_text_trimmed].
  - eexists. split; [by simplify_map_eq|apply chain_price_digits].
  - eexists. split; [by simplify_map_eq|apply chain_text_trimmed].
  - eexists. split; [by simplify_map_eq|apply chain_text_trimmed].
  - exists url. split; [by simplify_map_eq|].
    destruct (find_url_Ok n url Hurl) as [[_ ->]|[link [Hl [Ha|[_ ->]]]]];
      [by left| |by left].
    right. by exists link.
Qed.

End FieldRecords.

Section EmptyNode.
Context {U : UnicodeData}.

Lemma text_loop_no_element (n : node) (selectors : list string) value :
  (forall selector, n selector = Raise NoSuchElementException) ->
  text_loop n selectors value = Ok value.
Proof.
  intros Hn. induction selectors as [|selector rest IH]; [done|].
  cbn [text_loop]. by rewrite Hn.
Qed.

Lemma price_loop_no_element (n : node) (selectors : list string) price :
  (forall selector, n selector = Raise NoSuchElementException) ->
  price_loop n selectors price = Ok price.
Proof.
  intros Hn. induction selectors as [|selector rest IH]; [done|].
  cbn [price_loop]. by rewrite Hn.
Qed.

(** X3: on a node in which no selector finds an element,
    [extract_listing_data] returns a record, not null: the one with "N/A" in
    all five fields; the loop over the listing elements drops it. *)
Theorem extract_listing_data_no_element (n : node) :
  (forall selector, n selector = Raise NoSuchElementException) ->
  extract_listing_data n
  = Some (<["url"%string := PStr NA]>
          (<["date"%string := PStr NA]>
          (<["location"%string := PStr NA]>
          (<["price"%string := PStr NA]>
          (<["title"%string := PStr NA]> ∅)))))
  /\ listing_loop [n] [] = [].
Proof.
  intros Hn.
  assert (E : extract_listing_data n
              = Some (<["url"%string := PStr NA]>
                      (<["date"%string := PStr NA]>
                      (<["location"%string := PStr NA]>
                      (<["price"%string := PStr NA]>
                      (<["title"%string := PStr NA]> ∅)))))).
  { unfold extract_listing_data, find_url.
    rewrite !(text_loop_no_element n _ None Hn),
      (price_loop_no_element n _ None Hn), Hn. done. }
  split; [exact E|]. cbn [listing_loop]. rewrite E.
  by rewrite (is_car_cover_listing_title _ NA) by by simplify_map_eq.
Qed.

(** X4: [is_car_cover_listing] does not see the case of ASCII letters: two
    ASCII titles that are equal once their capital letters are made small
    are classified alike, whatever else the records hold. *)
Theorem is_car_cover_listing_ignores_ascii_case
    (record1 record2 : gmap string pyval) (title1 title2 : pystr) :
  forallb is_ascii title1 = true ->
  forallb is_ascii title2 = true ->
  map ascii_lower title1 = map ascii_lower title2 ->
  is_car_cover_listing (<["title"%string := PStr title1]> record1)
  = is_car_cover_listing (<["title"%string := PStr title2]> record2).
Proof.
  intros H1 H2 Heq.
  rewrite !(is_car_cover_listing_title _ _ (lookup_insert_eq _ _ _)).
  unfold lower. by rewrite H1, H2, Heq.
Qed.

(** X5: the loop over the listing elements keeps, in page order, exactly
    the records of the elements that [extract_listing_data] reads and
    [is_car_cover_listing] accepts, one for each such element: the result
    is the list of these records.  So an element that faults or is rejected
    changes nothing for the others (the result over two stretches of
    elements is the one over the first followed by the one over the
    second), every record kept was read from an element and is accepted,
    every element that is read and accepted has its record in the result,
    and there are no more records than elements. *)
Theorem listing_loop_keeps_accepted (listing_elements : list node) :
  listing_loop listing_elements [] = omap kept listing_elements
  /\ (forall element listing_data,
        element ∈ listing_elements ->
        extract_listing_data element = Some listing_data ->
        is_car_cover_listing listing_data = Ok true ->
        listing_data ∈ listing_loop listing_elements [])
  /\ (forall before after : list node,
      listing_loop (before ++ after) []
      = listing_loop before [] ++ listing_loop after [])
  /\ Forall (fun listing_data =>
               is_car_cover_listing listing_data = Ok true
               /\ exists element,
                    element ∈ listing_elements
                    /\ extract_listing_data element = Some listing_data)
       (listing_loop listing_elements [])
  /\ (length (listing_loop listing_elements []) <= length listing_elements)%nat.
Proof.
  assert (Hacc : forall elements acc,
             listing_loop elements acc = acc ++ listing_loop elements []).
  { induction elements as [|element rest IH]; intros acc.
    - simpl. by rewrite app_nil_r.
    - cbn [listing_loop].
      destruct (extract_listing_data element) as [data|]; [|apply IH].
      destruct (is_car_cover_listing data) as [[]|]; try apply IH.
      rewrite IH, (IH ([] ++ [data])). by rewrite <- app_assoc. }
  assert (Homap : forall elements,
             listing_loop elements [] = omap kept elements).
  { induction elements as [|element rest IH]; [done|].
    cbn [listing_loop omap list_omap]. fold (omap kept rest).
    unfold kept at 1.
    destruct (extract_listing_data element) as [data|]; [|apply IH].
    destruct (is_car_cover_listing data) as [[]|]; try apply IH.
    by rewrite Hacc, IH. }
  split; [apply Homap|]. split.
  { intros element data Hin Hx Hc. rewrite Homap.
    apply list_elem_of_omap. exists element. split; [done|].
    unfold kept. by rewrite Hx, Hc. }
  split; [|split].
  - induction before as [|element rest IH]; intros after; [done|].
    cbn [app listing_loop].
    destruct (extract_listing_data element) as [data|]; [|apply IH].
    destruct (is_car_cover_listing data) as [[]|]; try apply IH.
    rewrite (Hacc (rest ++ after)), (Hacc rest), IH. by rewrite <- app_assoc.
  - induction listing_elements as [|element rest IH]; [constructor|].
    assert (Hrest : Forall (fun listing_data =>
               is_car_cover_listing listing_data = Ok true
               /\ exists element0,
                    element0 ∈ element :: rest
                    /\ extract_listing_data element0 = Some listing_data)
              (listing_loop rest [])).
    { eapply Forall_impl; [exact IH|]. intros d [Hd [e [He Hx]]].
      split; [done|]. exists e. split; [by right|done]. }
    cbn [listing_loop].
    destruct (extract_listing_data element) as [data|] eqn:Ex; [|exact Hrest].
    destruct (is_car_cover_listing data) as [[]|] eqn:Ec; try exact Hrest.
    rewrite Hacc. apply Forall_app. split; [|exact Hrest].
    constructor; [|constructor]. split; [done|].
    exists element. split; [by left|done].
  - induction listing_elements as [|element rest IH]; [done|].
    cbn [listing_loop length].
    destruct (extract_listing_data element) as [data|]; [|lia].
    destruct (is_car_cover_listing data) as [[]|]; try lia.
    rewrite Hacc, length_app. simpl. lia.
Qed.

End EmptyNode.

(** X3 on the node without elements. *)
Lemma extract_listing_data_no_element_witness :
  is_Some (extract_listing_data (U := ascii_only)
             (fun _ => Raise NoSuchElementException)).
Proof.
  destruct (extract_listing_data_no_element (U := ascii_only)
              (fun _ => Raise NoSuchElementException) (fun _ => eq_refl))
    as [E _].
  rewrite E. by eexists.
Defined.

(** X4 on "CAR COVER" and "Car Cover". *)
Lemma is_car_cover_listing_ignores_ascii_case_witness :
  is_car_cover_listing (U := ascii_only)
    (<["title"%string := PStr (py "CAR COVER")]> ∅)
  = is_car_cover_listing (U := ascii_only)
      (<["title"%string := PStr (py "Car Cover")]> ∅).
Proof.
  apply (is_car_cover_listing_ignores_ascii_case (U := ascii_only));
    reflexivity.
Defined.

(** ** What a match is made of *)

Lemma star_consumed {A} p (k : pystr -> option A) : forall s x,
  Re.star p s k = Some x ->
  exists consumed rest,
    s = consumed ++ rest /\ k rest = Some x
    /\ Forall (fun c => p c = true) consumed.
Proof.
  induction s as [|c s IH]; intros x; simpl.
  - intros Hk. by exists [], [].
  - destruct (p c) eqn:Hc.
    + destruct (Re.star p s k) as [y|] eqn:Es.
      * intros [= <-]. destruct (IH y eq_refl) as [consumed [rest [-> [Hk Hall]]]].
        exists (c :: consumed), rest. split; [done|]. split; [done|].
        by constructor.
      * intros Hk. by exists [], (c :: s).
    + intros Hk. by exists [], (c :: s).
Qed.

Lemma run_consumed {A} r : forall s (k : pystr -> option A) x,
  Re.run r s k = Some x ->
  exists consumed rest,
    s = consumed ++ rest /\ k rest = Some x
    /\ Forall (fun c => accepted r c = true) consumed.
Proof.
  induction r as [|p|r1 IH1 r2 IH2|r1 IH1 r2 IH2|p|r1 IH1];
    intros s k x; cbn [Re.run accepted].
  - intros Hk. by exists [], s.
  - destruct s as [|c s]; [done|]. destruct (p c) eqn:Hc; [|done].
    intros Hk. exists [c], s. split; [done|]. split; [done|].
    by constructor.
  - intros H1. destruct (IH1 _ _ _ H1) as [c1 [rest1 [-> [H2 Hall1]]]].
    destruct (IH2 _ _ _ H2) as [c2 [rest2 [-> [Hk Hall2]]]].
    exists (c1 ++ c2), rest2. split; [by rewrite app_assoc|]. split; [done|].
    apply Forall_app. split.
    + eapply Forall_impl; [exact Hall1|]. intros c Hc. simpl in Hc.
      by rewrite Hc.
    + eapply Forall_impl; [exact Hall2|]. intros c Hc. simpl in Hc.
      by rewrite Hc, orb_true_r.
  - destruct (Re.run r1 s k) as [y|] eqn:E1.
    + intros [= <-]. destruct (IH1 _ _ _ E1) as [c1 [rest1 [-> [Hk Hall]]]].
      exists c1, rest1. split; [done|]. split; [done|].
      eapply Forall_impl; [exact Hall|]. intros c Hc. simpl in Hc.
      by rewrite Hc.
    + intros E2. destruct (IH2 _ _ _ E2) as [c2 [rest2 [-> [Hk Hall]]]].
      exists c2, rest2. split; [done|]. split; [done|].
      eapply Forall_impl; [exact Hall|]. intros c Hc. simpl in Hc.
      by rewrite Hc, orb_true_r.
  - apply star_consumed.
  - destruct (Re.run r1 s k) as [y|] eqn:E1.
    + intros [= <-]. by apply IH1.
    + intros Hk. by exists [], s.
Qed.

(** The text of a match is made of code points the pattern accepts. *)
Lemma match_len_accepted r s n :
  Re.match_len r s = Some n ->
  Forall (fun c => accepted r c = true) (take n s).
Proof.
  unfold Re.match_len. destruct (Re.run r s Some) as [rest'|] eqn:E; [|done].
  destruct (run_consumed _ _ _ _ E) as [consumed [rest [-> [[= ->] Hall]]]].
  simpl. intros [= <-]. rewrite length_app.
  replace (length consumed + length rest' - length rest')%nat
    with (length consumed) by lia.
  by rewrite take_app_length.
Qed.

Lemma elem_of_drop_while p (s : pystr) c : c ∈ drop_while p s -> c ∈ s.
Proof.
  intros Hc. rewrite <- (take_drop_while p s). apply elem_of_app. by right.
Qed.

Lemma elem_of_strip (s : pystr) c : c ∈ strip s -> c ∈ s.
Proof.
  unfold strip, rstrip, lstrip. intros Hc.
  apply list_elem_of_In, List.in_rev, list_elem_of_In in Hc.
  apply elem_of_drop_while in Hc.
  apply list_elem_of_In, List.in_rev, list_elem_of_In in Hc.
  by apply elem_of_drop_while in Hc.
Qed.

Lemma omap_length_le {A B} (f : A -> option B) (l : list A) :
  (length (omap f l) <= length l)%nat.
Proof.
  induction l as [|x l IH]; [done|]. cbn [omap list_omap].
  fold (omap f l). destruct (f x); simpl; lia.
Qed.

(** A scan finds no more matches than there are places to start one. *)
Lemma finditer_from_count r (p : N -> bool) :
  (forall c s, p c = false -> Re.match_len r (c :: s) = None) ->
  forall s pos skip,
    (length (Re.finditer_from r pos s skip) <= length (List.filter p s))%nat.
Proof.
  intros Hp. induction s as [|c s IH]; intros pos skip; [done|].
  cbn [Re.finditer_from List.filter]. destruct skip as [|skip].
  - destruct (p c) eqn:Hc.
    + destruct (Re.match_len r (c :: s)) as [n|]; simpl.
      * specialize (IH (S pos) (pred n)). lia.
      * specialize (IH (S pos) 0%nat). lia.
    + rewrite (Hp c s Hc). apply IH.
  - specialize (IH (S pos) skip). destruct (p c); simpl; lia.
Qed.

Section DegradedListings.
Context {U : UnicodeData}.

Lemma price_pattern_starts_with_rupee c s :
  (rupee =? c) = false -> Re.match_len price_pattern (c :: s) = None.
Proof.
  intros Hc. unfold Re.match_len, price_pattern. cbn [Re.seq_of Re.run].
  unfold Re.lit. by rewrite Hc.
Qed.

(** X6: [extract_from_page_source] gives at most one listing per rupee
    sign of the markup; none for a markup without rupee sign. *)
Theorem extract_from_page_source_rupee_bound (markup : pystr) :
  (length (extract_from_page_source markup)
   <= length (List.filter (N.eqb rupee) markup))%nat
  /\ (List.filter (N.eqb rupee) markup = [] ->
      extract_from_page_source markup = []).
Proof.
  assert (Hb : (length (extract_from_page_source markup)
                <= length (List.filter (N.eqb rupee) markup))%nat).
  { rewrite extract_from_page_source_omap.
    etransitivity; [apply omap_length_le|].
    apply (finditer_from_count price_pattern (N.eqb rupee)
             price_pattern_starts_with_rupee). }
  split; [exact Hb|]. intros Hnone. rewrite Hnone in Hb.
  destruct (extract_from_page_source markup); [done|simpl in Hb; lia].
Qed.

Lemma title_pattern_accepts_no_tag c :
  accepted title_pattern c = true -> c <> 60 /\ c <> 62.
Proof.
  intros Hc. split; intros ->; by vm_compute in Hc.
Qed.

Lemma degraded_listing_Some (markup : pystr) (m : nat * nat)
    (listing : gmap string pyval) :
  degraded_listing markup m = Some listing ->
  exists title,
    listing
    = <["title"%string := PStr title]>
      (<["price"%string := value_of (extract_price (Some (Re.group markup m)))]>
      (<["location"%string := PStr NA]>
      (<["date"%string := PStr NA]>
      (<["url"%string := PStr NA]> ∅))))
    /\ strip title = title
    /\ Forall (fun c => c <> 60 /\ c <> 62) title.
Proof.
  unfold degraded_listing.
  pose proof (search_leftmost title_pattern (context_window markup m)) as Hs.
  destruct (Re.search title_pattern (context_window markup m))
    as [[a b]|]; cbn [mbind option_bind]; [|done].
  intros [= <-]. eexists. split; [done|]. split; [apply strip_idemp|].
  destruct Hs as [_ [[n [Hn Hb]] _]]. cbn [fst snd] in *. subst b.
  apply match_len_accepted in Hn.
  apply Forall_forall. intros c Hc. apply elem_of_strip in Hc.
  unfold Re.group, slice in Hc. cbn [fst snd] in Hc.
  replace (a + n - a)%nat with n in Hc by lia.
  apply title_pattern_accepts_no_tag.
  by apply (proj1 (Forall_forall _ _) Hn).
Qed.

(** X7: every listing of [extract_from_page_source] has exactly the keys
    title, price, location, date and url; its title is a trimmed string
    without "<" and ">"; its price is [None] or a non-empty string of
    decimal digits; location, date and url are "N/A". *)
Theorem extract_from_page_source_invariant (markup : pystr) :
  Forall (fun listing : gmap string pyval =>
            dom listing = listing_keys
            /\ (exists title,
                  listing !! "title"%string = Some (PStr title)
                  /\ strip title = title
                  /\ Forall (fun c => c <> 60 /\ c <> 62) title)
            /\ (listing !! "price"%string = Some PNone
                \/ exists price,
                     listing !! "price"%string = Some (PStr price)
                     /\ price <> []
                     /\ Forall (fun c => isdecimal c = true) price)
            /\ listing !! "location"%string = Some (PStr NA)
            /\ listing !! "date"%string = Some (PStr NA)
            /\ listing !! "url"%string = Some (PStr NA))
    (extract_from_page_source markup).
Proof.
  rewrite extract_from_page_source_omap.
  apply Forall_forall. intros listing Hl.
  apply list_elem_of_omap in Hl as [m [_ Hm]].
  destruct (degraded_listing_Some _ _ _ Hm) as [title [-> [Ht Hc]]].
  split; [|split; [|split; [|split; [|split]]]].
  - unfold listing_keys. rewrite !dom_insert_L, dom_empty_L. set_solver.
  - exists title. split; [by simplify_map_eq|done].
  - destruct (extract_price (Some (Re.group markup m))) as [price|] eqn:E.
    + right. exists price. split; [by simplify_map_eq|].
      destruct (extract_price_Some _ _ E) as [Hne [_ Hd]]. done.
    + left. by simplify_map_eq.
  - by simplify_map_eq.
  - by simplify_map_eq.
  - by simplify_map_eq.
Qed.

End DegradedListings.

(** X6 on a markup without rupee sign. *)
Lemma extract_from_page_source_rupee_bound_witness :
  extract_from_page_source (U := ascii_only)
    (py "<p>Car Cover for Sedan, Rs 899</p>") = [].
Proof.
  by apply (extract_from_page_source_rupee_bound (U := ascii_only)).
Defined.

(** ** The calls of a session *)

Section Footprint.
Context {world : Type}.

Lemma logs_only_ret {A} P (a : A) : logs_only P (mret a : M world A).
Proof. intros s. exists []. split; [by rewrite app_nil_r|constructor]. Qed.

Lemma logs_only_bind {A B} P (m : M world A) (f : A -> M world B) :
  logs_only P m -> (forall a, logs_only P (f a)) -> logs_only P (m ≫= f).
Proof.
  intros Hm Hf s. rewrite M_bind_run.
  destruct (Hm s) as [ev1 [E1 H1]]. destruct (m s) as [[a|e] s1]; simpl in E1.
  - destruct (Hf a s1) as [ev2 [E2 H2]]. exists (ev1 ++ ev2).
    rewrite E2, E1, app_assoc. split; [done|]. by apply Forall_app.
  - by exists ev1.
Qed.

Lemma logs_only_try_except {A} P (body : M world A) handler :
  logs_only P body -> (forall e, logs_only P (handler e)) ->
  logs_only P (try_except body handler).
Proof.
  intros Hm Hf s. unfold try_except.
  destruct (Hm s) as [ev1 [E1 H1]]. destruct (body s) as [[a|e] s1]; simpl in E1.
  - by exists ev1.
  - destruct (Hf e s1) as [ev2 [E2 H2]]. exists (ev1 ++ ev2).
    rewrite E2, E1, app_assoc. split; [done|]. by apply Forall_app.
Qed.

Lemma logs_only_perform {A} (P : event -> Prop) (log : res A -> event)
    (call : world -> res A * world) :
  (forall r, P (log r)) -> logs_only P (perform log call).
Proof.
  intros Hlog s. rewrite perform_run. eexists. split; [done|].
  constructor; [apply Hlog|constructor].
Qed.

End Footprint.

Section Lifecycle.
Context {U : UnicodeData} {world : Type} {B : Browser world}.

Lemma logs_only_sleep P seconds :
  P (Slept seconds) -> logs_only P (do_sleep seconds : M world ()).
Proof.
  intros HP s. unfold do_sleep. eexists. split; [done|].
  constructor; [done|constructor].
Qed.

Lemma logs_only_wait_loop P timeout selectors :
  (forall selector r, P (Waited selector timeout r)) ->
  logs_only P (wait_loop selectors timeout).
Proof.
  intros HP. induction selectors as [|selector rest IH]; intros s.
  - apply logs_only_ret.
  - cbn [wait_loop]. rewrite perform_run.
    destruct (wait_presence selector timeout s.1) as [[[]|e] w1]; cbn [fst snd].
    + eexists. split; [done|]. constructor; [apply HP|constructor].
    + assert (Hhere : exists events,
                (s.2 ++ [Waited selector timeout (Raise e)]) = s.2 ++ events
                /\ Forall P events).
      { eexists. split; [done|]. constructor; [apply HP|constructor]. }
      destruct e; try exact Hhere.
      destruct (IH (w1, s.2 ++ [Waited selector timeout (Raise TimeoutException)]))
        as [events [E HF]].
      cbn [snd] in E. rewrite <- app_assoc in E. eexists. split; [exact E|].
      constructor; [apply HP|done].
Qed.

Lemma logs_only_scroll_loop P : forall fuel scroll_attempts max_scrolls,
  (forall r, P (Height r)) -> (forall r, P (Scrolled r)) -> P (Slept 3) ->
  logs_only P (scroll_loop fuel scroll_attempts max_scrolls).
Proof.
  intros fuel attempts max_scrolls HH HS HSl.
  assert (Hcycle : logs_only P scroll_to_load_more).
  { apply logs_only_try_except; [|intros; apply logs_only_ret].
    apply logs_only_bind; [by apply logs_only_perform|]. intros h1.
    apply logs_only_bind; [by apply logs_only_perform|]. intros _.
    apply logs_only_bind; [by apply logs_only_sleep|]. intros _.
    apply logs_only_bind; [by apply logs_only_perform|]. intros h2.
    apply logs_only_ret. }
  revert attempts. induction fuel as [|fuel IH]; intros attempts;
    cbn [scroll_loop]; [apply logs_only_ret|].
  destruct (bool_decide _); [|apply logs_only_ret].
  apply logs_only_bind; [exact Hcycle|]. intros more.
  destruct more; cbn [negb]; [apply IH|apply logs_only_ret].
Qed.

(** [scrape_listings], step by step. *)
(** Between starting and quitting the driver, nothing quits it. *)
Lemma session_does_not_quit (all_listings : list (gmap string pyval)) :
  logs_only (fun e => is_quit e = false) (session all_listings).
Proof.
  apply logs_only_try_except; [|intros; apply logs_only_ret].
  apply logs_only_bind; [by apply logs_only_perform|]. intros _.
  apply logs_only_bind; [by apply logs_only_sleep|]. intros _.
  apply logs_only_bind.
  { apply logs_only_try_except; [|intros; apply logs_only_ret].
    by apply logs_only_wait_loop. }
  intros [selector|].
  - apply logs_only_bind; [by apply logs_only_scroll_loop|]. intros _.
    apply logs_only_bind; [by apply logs_only_perform|]. intros elements.
    apply logs_only_ret.
  - apply logs_only_bind; [by apply logs_only_perform|]. intros page.
    apply logs_only_bind; [by apply logs_only_perform|]. intros _.
    apply logs_only_ret.
Qed.

(** X8: the life of the driver in [scrape_listings].  When starting the
    driver fails, the result is the empty list and no other call is made,
    not even quitting.  When it succeeds, [driver_quit] is called exactly
    once, as the last call of the session, in the world the calls before it
    have left, whatever happened in between; the session returns a list
    when that call succeeds and raises its exception when it does not. *)
Theorem scrape_listings_driver_lifecycle (s : world * list event) :
  match (start_chrome s.1).1 with
  | Ok _ =>
      exists w2 w' events quit,
        (scrape_listings s).2
        = (w', s.2 ++ Started (Ok ()) :: events ++ [QuitDriver quit])
        /\ Forall (fun e => is_quit e = false) events
        /\ genuine s.1 (Started (Ok ()) :: events) w2
        /\ driver_quit w2 = (quit, w')
        /\ match quit with
           | Ok _ => exists listings, (scrape_listings s).1 = Ok listings
           | Raise e => (scrape_listings s).1 = Raise e
           end
  | Raise e =>
      scrape_listings s
      = (Ok [], ((start_chrome s.1).2, s.2 ++ [Started (Raise e)]))
  end.
Proof.
  pose proof (truthful_run scrape_listings s) as Hgen.
  rewrite scrape_listings_run in Hgen |- *.
  destruct (start_chrome s.1) as [[[]|e] w1]; cbn [fst snd]; [|done].
  destruct (session_does_not_quit [] (w1, s.2 ++ [Started (Ok ())]))
    as [events [Elog Hq]].
  destruct (try_except_returns
              (_ ← perform (Got search_url) (driver_get search_url);
               _ ← do_sleep 5;
               listing_selector ← wait_for_listings 15;
               match listing_selector with
               | None =>
                   page_source ← perform PageSource get_page_source;
                   _ ← perform Saved (save_page_source page_source);
                   mret (extract_from_page_source page_source)
               | Some selector =>
                   _ ← scroll_loop 4 0 3;
                   listing_elements ← perform (Found selector)
                                        (find_elements selector);
                   mret (listing_loop listing_elements [])
               end) [] (w1, s.2 ++ [Started (Ok ())]))
    as [listings [s2 Hbody]].
  fold (session (U := U) (B := B) []) in Hbody.
  rewrite Hbody in Elog, Hgen |- *. cbn [fst snd] in Elog.
  rewrite Elog in Hgen |- *.
  assert (Hcalls : forall quit w3,
             driver_quit s2.1 = (quit, w3) ->
             exists w2,
               genuine s.1 (Started (Ok ()) :: events) w2
               /\ driver_quit w2 = (quit, w3)).
  { intros quit w3 Equit. rewrite Equit in Hgen.
    assert (Hall : genuine s.1
                     ((Started (Ok ()) :: events) ++ [QuitDriver quit]) w3).
    { destruct quit as [[]|e];
        (eapply Hgen; [apply truthful_scrape_listings|]);
        cbn [app]; by rewrite <- !app_assoc. }
    apply genuine_app_inv in Hall as (w2 & Hbefore & w3' & Hstep & Hend).
    cbn [genuine] in Hend. subst w3'.
    exists w2. split; [done|exact Hstep]. }
  destruct (driver_quit s2.1) as [quit w3].
  destruct (Hcalls quit w3 eq_refl) as (w2 & Hbefore & Hquit).
  exists w2, w3, events, quit.
  destruct quit as [[]|e]; cbn [fst snd]; rewrite <- !app_assoc;
    (split; [done|]); (split; [done|]); (split; [done|]);
    (split; [done|]); [by exists listings|done].
Qed.


Lemma scroll_loop_returns (s : world * list event) :
  exists attempts s', scroll_loop 4 0 3 s = (Ok attempts, s').
Proof.
  destruct (scroll_loop_cycles 3 4 0 3 s eq_refl ltac:(lia))
    as [n [reports [s' [_ [Hloop _]]]]].
  by eexists _, _.
Qed.

(** X10: structured mode.  When the driver starts, loads the page and
    quits without fault, and the wait for one of the candidate selectors
    succeeds after those before it have timed out, [scrape_listings] asks
    [find_elements] for that same selector and returns the records the loop
    over these elements keeps; what happens while scrolling, faults
    included, changes nothing in that.  When [find_elements] raises, the
    result is the empty list. *)
Theorem scrape_listings_located (i : nat) (selector : string)
    (found : res (list node)) (s : world * list event) :
  listing_selectors !! i = Some selector ->
  (forall w, (start_chrome w).1 = Ok ()) ->
  (forall w, (driver_get search_url w).1 = Ok ()) ->
  (forall sel w, sel ∈ take i listing_selectors ->
                 (wait_presence sel 15 w).1 = Raise TimeoutException) ->
  (forall w, (wait_presence selector 15 w).1 = Ok ()) ->
  (forall w, (find_elements selector w).1 = found) ->
  (forall w, (driver_quit w).1 = Ok ()) ->
  (scrape_listings s).1
  = Ok match found with
       | Ok listing_elements => listing_loop listing_elements []
       | Raise _ => []
       end.
Proof.
  intros Hi Hstart Hget Hearlier Hwait Hfind Hquit.
  rewrite scrape_listings_run.
  pose proof (Hstart s.1) as H1.
  destruct (start_chrome s.1) as [r1 w1]. cbn [fst] in H1. subst r1.
  unfold session, try_except.
  rewrite M_bind_run, (perform_known _ _ _ _ (Hget _)). cbn [fst snd].
  rewrite M_bind_run. unfold do_sleep at 1. cbn [fst snd].
  rewrite M_bind_run. unfold wait_for_listings, try_except.
  rewrite <- (take_drop_middle _ _ _ Hi).
  match goal with
  | |- context [wait_loop _ 15 ?st] =>
      destruct (wait_loop_first 15 selector (drop (S i) listing_selectors)
                  Hwait (take i listing_selectors) st Hearlier)
        as [w2 Hw]
  end.
  rewrite Hw. clear Hw. cbn [fst snd mret M_ret].
  rewrite M_bind_run.
  match goal with
  | |- context [scroll_loop 4 0 3 ?st] =>
      destruct (scroll_loop_returns st) as [attempts [s3 Hs]]
  end.
  rewrite Hs. clear Hs.
  rewrite M_bind_run, (perform_known _ _ _ _ (Hfind _)). cbn [fst snd].
  destruct found as [elements|e]; cbn [fst snd mret M_ret].
  - pose proof (Hquit (find_elements selector s3.1).2) as Hq.
    destruct (driver_quit _) as [rq wq]. cbn [fst] in Hq. by subst rq.
  - pose proof (Hquit (find_elements selector s3.1).2) as Hq.
    destruct (driver_quit _) as [rq wq]. cbn [fst] in Hq. by subst rq.
Qed.

End Lifecycle.


(** X10 on a page whose listings show under the second selector and hold
    one element without content. *)
Lemma scrape_listings_located_witness :
  (scrape_listings (U := ascii_only)
     (B := scripted [] (String.eqb ".EIR5N")
             [fun _ => Raise NoSuchElementException] (fun _ => 0%Z) true)
     (0%nat, [])).1
  = Ok [].
Proof.
  apply (scrape_listings_located (U := ascii_only)
           (B := scripted [] (String.eqb ".EIR5N")
                   [fun _ => Raise NoSuchElementException] (fun _ => 0%Z) true)
           1 ".EIR5N"%string
           (Ok [fun _ => Raise NoSuchElementException]) (0%nat, []));
    try (by intros).
  intros sel w Hsel. cbn in Hsel.
  apply list_elem_of_singleton in Hsel as ->. done.
Defined.

(** ** Saving and reporting *)

Section SavingFacts.
Context {U : UnicodeData} {world : Type} {B : Browser world}
  {D : System world}.

Lemma IO_bind_run {A C} (m : IO world A) (f : A -> IO world C)
    (s : world * list action) :
  (m ≫= f) s
  = match m s with
    | (Ok a, s') => f a s'
    | (Raise e, s') => (Raise e, s')
    end.
Proof. done. Qed.

Lemma call_run {A} (log : res A -> action) (op : world -> res A * world)
    (s : world * list action) :
  call log op s = ((op s.1).1, ((op s.1).2, s.2 ++ [log (op s.1).1])).
Proof. unfold call. by destruct (op s.1). Qed.

Lemma clock_run (log : pystr -> action) (op : world -> pystr * world)
    (s : world * list action) :
  clock log op s = (Ok (op s.1).1, ((op s.1).2, s.2 ++ [log (op s.1).1])).
Proof. unfold clock. by destruct (op s.1). Qed.

(** *** Logs and the calls behind them *)

Lemma performed_app (w w1 w2 : world) (l1 l2 : list action) :
  performed w l1 w1 -> performed w1 l2 w2 -> performed w (l1 ++ l2) w2.
Proof.
  revert w. induction l1 as [|a l1 IH]; intros w; cbn [performed app].
  - by intros ->.
  - intros [w0 [Ha H1]] H2. exists w0. split; [done|]. by apply IH.
Qed.

Lemma performed_singleton (w w' : world) (a : action) :
  action_step w a w' -> performed w [a] w'.
Proof. intros Ha. by exists w'. Qed.

(** The calls behind what a run added to the log. *)
Lemma faithful_run {A} (m : IO world A) (s : world * list action) r w' added :
  faithful m -> m s = (r, (w', s.2 ++ added)) -> performed s.1 added w'.
Proof.
  intros Hm Hrun. destruct (Hm s) as [added' [E G]].
  rewrite Hrun in E, G. cbn [fst snd] in E, G.
  apply app_inv_head in E. by subst.
Qed.

Lemma faithful_ret {A} (a : A) : faithful (mret a : IO world A).
Proof. intros s. exists []. split; [by rewrite app_nil_r|done]. Qed.

Lemma faithful_bind {A C} (m : IO world A) (f : A -> IO world C) :
  faithful m -> (forall a, faithful (f a)) -> faithful (m ≫= f).
Proof.
  intros Hm Hf s. rewrite IO_bind_run.
  destruct (Hm s) as [l1 [E1 G1]].
  destruct (m s) as [[a|e] s1]; cbn [fst snd] in *.
  - destruct (Hf a s1) as [l2 [E2 G2]]. exists (l1 ++ l2).
    rewrite E2, E1, app_assoc. split; [done|]. by eapply performed_app.
  - by exists l1.
Qed.

Lemma faithful_attempt {A} (body : IO world A) (handler : exn -> IO world A) :
  faithful body -> (forall e, faithful (handler e)) ->
  faithful (attempt body handler).
Proof.
  intros Hm Hh s. unfold attempt.
  destruct (Hm s) as [l1 [E1 G1]].
  destruct (body s) as [[a|e] s1]; cbn [fst snd] in *.
  - by exists l1.
  - destruct (Hh e s1) as [l2 [E2 G2]]. exists (l1 ++ l2).
    rewrite E2, E1, app_assoc. split; [done|]. by eapply performed_app.
Qed.

Lemma faithful_ensure {A} (body : IO world A) (cleanup : IO world ()) :
  faithful body -> faithful cleanup -> faithful (ensure body cleanup).
Proof.
  intros Hm Hc s. unfold ensure.
  destruct (Hm s) as [l1 [E1 G1]].
  destruct (body s) as [r s1]; cbn [fst snd] in *.
  destruct (Hc s1) as [l2 [E2 G2]].
  destruct (cleanup s1) as [[[]|e] s2]; cbn [fst snd] in *;
    exists (l1 ++ l2); rewrite E2, E1, app_assoc;
    (split; [done|]); by eapply performed_app.
Qed.

Lemma faithful_call {A} (log : res A -> action)
    (op : world -> res A * world) :
  (forall w, action_step w (log (op w).1) (op w).2) ->
  faithful (call log op).
Proof.
  intros Hstep s. rewrite call_run. cbn [fst snd].
  eexists. split; [done|]. apply performed_singleton, Hstep.
Qed.

Lemma faithful_clock (log : pystr -> action) (op : world -> pystr * world) :
  (forall w, action_step w (log (op w).1) (op w).2) ->
  faithful (clock log op).
Proof.
  intros Hstep s. rewrite clock_run. cbn [fst snd].
  eexists. split; [done|]. apply performed_singleton, Hstep.
Qed.

Lemma faithful_with_open {A} (filename : pystr) (body : IO world A) :
  faithful body -> faithful (with_open filename body).
Proof.
  intros Hbody. unfold with_open.
  apply faithful_bind;
    [by apply faithful_call; intros w; apply surjective_pairing|].
  intros _. apply faithful_ensure; [done|].
  by apply faithful_call; intros w; apply surjective_pairing.
Qed.

Lemma faithful_row_loop (filename : pystr)
    (listings : list (gmap string pyval)) :
  faithful (row_loop filename listings).
Proof.
  induction listings as [|listing rest IH]; cbn [row_loop];
    [apply faithful_ret|].
  apply faithful_bind; [|done].
  by apply faithful_call; intros w; apply surjective_pairing.
Qed.

Lemma faithful_save_to_csv (listings : list (gmap string pyval))
    (filename : pystr) :
  faithful (save_to_csv listings filename).
Proof.
  unfold save_to_csv.
  destruct (negb (nonempty_list listings)); [apply faithful_ret|].
  apply faithful_attempt; [|intros e; apply faithful_ret].
  apply faithful_bind; [|intros _; apply faithful_ret].
  apply faithful_with_open, faithful_bind; [|intros _; apply faithful_row_loop].
  by apply faithful_call; intros w; apply surjective_pairing.
Qed.

Lemma faithful_save_to_json (listings : list (gmap string pyval))
    (filename : pystr) :
  faithful (save_to_json listings filename).
Proof.
  unfold save_to_json.
  destruct (negb (nonempty_list listings)); [apply faithful_ret|].
  apply faithful_attempt; [|intros e; apply faithful_ret].
  apply faithful_bind;
    [by apply faithful_clock; intros w; apply surjective_pairing|].
  intros now. apply faithful_bind; [|intros _; apply faithful_ret].
  apply faithful_with_open.
  by apply faithful_call; intros w; apply surjective_pairing.
Qed.

(** The rows go out in order until the writer raises. *)
Lemma row_loop_run (filename : pystr) (listings : list (gmap string pyval)) :
  forall s : world * list action,
  exists (r : res ()) w' rows,
    row_loop filename listings s = (r, (w', s.2 ++ rows))
    /\ omap opened rows = []
    /\ omap closed rows = []
    /\ omap printed rows = []
    /\ (r = Ok () <-> Forall (fun a => answered a = true) rows)
    /\ (r = Ok () -> rows = row_written filename <$> listings)
    /\ (rows = row_written filename <$> listings
        \/ exists k listing e,
             listings !! k = Some listing
             /\ rows = (row_written filename <$> take k listings)
                       ++ [RowWritten filename (csv_row listing) (Raise e)]).
Proof.
  induction listings as [|listing rest IH]; intros s.
  - exists (Ok ()), s.1, []. cbn. rewrite app_nil_r. destruct s.
    repeat split; try done. by left.
  - cbn [row_loop]. rewrite IO_bind_run, call_run.
    destruct (writerow filename (csv_row listing) s.1) as [[[]|e] w1];
      cbn [fst snd].
    + destruct (IH (w1, s.2 ++ [RowWritten filename (csv_row listing) (Ok ())]))
        as [r [w' [rows [Hrun [Ho [Hc [Hp [Hok [Hall Hshape]]]]]]]]].
      rewrite Hrun. cbn [fst snd]. rewrite <- app_assoc.
      exists r, w', (RowWritten filename (csv_row listing) (Ok ()) :: rows).
      split; [done|]. split; [done|]. split; [done|]. split; [done|].
      split; [|split].
      * rewrite Hok. split; [by constructor|by inversion 1].
      * intros Hr. by rewrite (Hall Hr).
      * destruct Hshape as [->|(k & l & e & Hk & ->)]; [by left|].
        right. by exists (S k), l, e.
    + exists (Raise e), w1, [RowWritten filename (csv_row listing) (Raise e)].
      split; [done|]. split; [done|]. split; [done|]. split; [done|].
      split; [|split; [done|]].
      * split; [done|]. intros H. by inversion H.
      * right. by exists 0%nat, listing, e.
Qed.

(** The [with] block, call by call. *)
Lemma with_open_run {A} (filename : pystr) (body : IO world A)
    (s : world * list action) :
  with_open filename body s
  = match open_write filename s.1 with
    | (Ok _, w1) =>
        let '(r, s2) := body (w1, s.2 ++ [Opened filename (Ok ())]) in
        let '(r_close, w3) := close_file filename s2.1 in
        (match r_close with Ok _ => r | Raise e => Raise e end,
         (w3, s2.2 ++ [Closed filename r_close]))
    | (Raise e, w1) => (Raise e, (w1, s.2 ++ [Opened filename (Raise e)]))
    end.
Proof.
  unfold with_open, ensure. rewrite IO_bind_run, call_run.
  destruct (open_write filename s.1) as [[[]|e] w1]; cbn [fst snd]; [|done].
  destruct (body _) as [r s2]. rewrite call_run.
  by destruct (close_file filename s2.1) as [[[]|e] w3].
Qed.

(** What saving a list that is not empty does to the log: one file is
    opened, nothing is printed. *)
Lemma save_to_csv_files (first : gmap string pyval)
    (others : list (gmap string pyval)) (filename : pystr)
    (s : world * list action) :
  exists saved w' added,
    save_to_csv (first :: others) filename s = (Ok saved, (w', s.2 ++ added))
    /\ omap opened added = [filename]
    /\ omap printed added = [].
Proof.
  unfold save_to_csv. cbn [nonempty_list negb].
  unfold attempt. rewrite IO_bind_run, with_open_run.
  destruct (open_write filename s.1) as [[[]|e] w1]; [|by eexists _, _, _].
  rewrite IO_bind_run, call_run. cbn [fst snd].
  destruct (writeheader filename fieldnames w1) as [[[]|e] w2]; cbn [fst snd].
  - destruct (row_loop_run filename (first :: others)
                (w2, (s.2 ++ [Opened filename (Ok ())])
                       ++ [HeaderWritten filename fieldnames (Ok ())]))
      as [r [w3 [rows [Hrun [Ho [_ [Hp _]]]]]]].
    rewrite Hrun. cbn [fst snd]. clear Hrun.
    destruct (close_file filename w3) as [r_close w4].
    exists (match r, r_close with Ok _, Ok _ => true | _, _ => false end), w4,
      (Opened filename (Ok ()) :: HeaderWritten filename fieldnames (Ok ())
         :: rows ++ [Closed filename r_close]).
    split; [|cbn; by rewrite !omap_app, Ho, Hp].
    rewrite <- !app_assoc. by destruct r as [[]|], r_close as [[]|].
  - destruct (close_file filename w2) as [r_close w3].
    exists false, w3,
      [Opened filename (Ok ()); HeaderWritten filename fieldnames (Raise e);
       Closed filename r_close].
    split; [|done]. rewrite <- !app_assoc. by destruct r_close as [[]|].
Qed.

(** X11: [save_to_csv] never raises.  On an empty list it returns [False]
    and touches nothing.  Else it opens the file named, and no other, and
    prints nothing; when that fails it does nothing more; when it succeeds
    it writes the header and then one row per listing, in order, up to the
    first of these calls that fails, and the file is closed once, as the
    last call, whatever the writer did.  The calls in the log are the calls
    made on the file system, with the answers it gave.  It returns [True]
    exactly when every call was answered without an exception, and then the
    file got the header and one row per listing, in order. *)
Theorem save_to_csv_outcome (listings : list (gmap string pyval))
    (filename : pystr) (s : world * list action) :
  match listings with
  | [] => save_to_csv listings filename s = (Ok false, s)
  | _ :: _ =>
      exists saved w' r_open rest,
        save_to_csv listings filename s
        = (Ok saved, (w', s.2 ++ Opened filename r_open :: rest))
        /\ performed s.1 (Opened filename r_open :: rest) w'
        /\ omap opened rest = []
        /\ omap printed rest = []
        /\ (saved = true
            <-> Forall (fun a => answered a = true)
                  (Opened filename r_open :: rest))
        /\ (saved = true ->
            rest = HeaderWritten filename fieldnames (Ok ())
                   :: (row_written filename <$> listings)
                   ++ [Closed filename (Ok ())])
        /\ match r_open with
           | Ok _ =>
               exists body r_close,
                 rest = body ++ [Closed filename r_close]
                 /\ omap closed body = []
                 /\ written filename listings body
           | Raise _ => rest = []
           end
  end.
Proof.
  destruct listings as [|first others]; [done|].
  set (listings := first :: others).
  assert (Hrun : exists saved w' r_open rest,
             save_to_csv listings filename s
             = (Ok saved, (w', s.2 ++ Opened filename r_open :: rest))
             /\ omap opened rest = []
             /\ omap printed rest = []
             /\ (saved = true
                 <-> Forall (fun a => answered a = true)
                       (Opened filename r_open :: rest))
             /\ (saved = true ->
                 rest = HeaderWritten filename fieldnames (Ok ())
                        :: (row_written filename <$> listings)
                        ++ [Closed filename (Ok ())])
             /\ match r_open with
                | Ok _ =>
                    exists body r_close,
                      rest = body ++ [Closed filename r_close]
                      /\ omap closed body = []
                      /\ written filename listings body
                | Raise _ => rest = []
                end).
  { unfold save_to_csv. cbn [listings nonempty_list negb]. fold listings.
    unfold attempt. rewrite IO_bind_run, with_open_run.
    destruct (open_write filename s.1) as [[[]|e] w1].
    - rewrite IO_bind_run, call_run. cbn [fst snd].
      destruct (writeheader filename fieldnames w1) as [[[]|e] w2];
        cbn [fst snd].
      + destruct (row_loop_run filename listings
                    (w2, (s.2 ++ [Opened filename (Ok ())])
                           ++ [HeaderWritten filename fieldnames (Ok ())]))
          as [r [w3 [rows [Hrun [Ho [Hc [Hp [Hok [Hall Hshape]]]]]]]]].
        rewrite Hrun. cbn [fst snd]. clear Hrun.
        destruct (close_file filename w3) as [r_close w4].
        exists (match r, r_close with Ok _, Ok _ => true | _, _ => false end),
          w4, (Ok ()),
          (HeaderWritten filename fieldnames (Ok ())
             :: rows ++ [Closed filename r_close]).
        split; [|split; [|split; [|split; [|split]]]].
        * rewrite <- !app_assoc. by destruct r as [[]|], r_close as [[]|].
        * cbn. by rewrite omap_app, Ho.
        * cbn. by rewrite omap_app, Hp.
        * rewrite !Forall_cons, Forall_app, Forall_singleton, <- Hok.
          destruct r as [[]|], r_close as [[]|]; cbn;
            (split; [by intros; repeat split|by intros (? & ? & ? & ?)]).
        * destruct r as [[]|], r_close as [[]|]; try done.
          intros _. by rewrite (Hall eq_refl).
        * exists (HeaderWritten filename fieldnames (Ok ()) :: rows), r_close.
          split; [done|]. split; [cbn; exact Hc|].
          destruct Hshape as [->|(k & l & e & Hk & ->)];
            [apply written_all|by apply written_until].
      + destruct (close_file filename w2) as [r_close w3].
        exists false, w3, (Ok ()),
          [HeaderWritten filename fieldnames (Raise e);
           Closed filename r_close].
        split; [|split; [|split; [|split; [|split]]]].
        * rewrite <- !app_assoc. by destruct r_close as [[]|].
        * done.
        * done.
        * split; [done|]. intros H. apply Forall_cons in H as [_ H].
          by apply Forall_cons in H as [H _].
        * done.
        * exists [HeaderWritten filename fieldnames (Raise e)], r_close.
          split; [done|]. split; [done|]. apply written_no_header.
    - exists false, w1, (Raise e), [].
      split; [done|]. split; [done|]. split; [done|]. split; [|done].
      split; [done|]. intros H. by apply Forall_cons in H as [H _]. }
  destruct Hrun as (saved & w' & r_open & rest & Hrun & Hrest).
  exists saved, w', r_open, rest. split; [done|]. split; [|done].
  exact (faithful_run _ _ _ _ _ (faithful_save_to_csv listings filename) Hrun).
Qed.

Lemma save_to_json_files (first : gmap string pyval)
    (others : list (gmap string pyval)) (filename : pystr)
    (s : world * list action) :
  exists saved w' added,
    save_to_json (first :: others) filename s = (Ok saved, (w', s.2 ++ added))
    /\ omap opened added = [filename]
    /\ omap printed added = [].
Proof.
  unfold save_to_json. cbn [nonempty_list negb].
  unfold attempt. rewrite IO_bind_run, clock_run.
  destruct (now_isoformat s.1) as [now w0]. cbn [fst snd].
  rewrite IO_bind_run, with_open_run. cbn [fst snd].
  destruct (open_write filename w0) as [[[]|e] w1].
  - rewrite call_run. cbn [fst snd].
    match goal with
    | |- context [json_dump filename ?data w1] =>
        destruct (json_dump filename data w1) as [r_dump w2]; cbn [fst snd];
        destruct (close_file filename w2) as [r_close w3];
        exists (match r_dump, r_close with
                | Ok _, Ok _ => true
                | _, _ => false
                end), w3,
          [IsoStamped now; Opened filename (Ok ());
           Dumped filename data r_dump; Closed filename r_close]
    end.
    split; [|done]. rewrite <- !app_assoc.
    destruct r_dump as [[]|], r_close as [[]|]; reflexivity.
  - exists false, w1, [IsoStamped now; Opened filename (Raise e)].
    split; [|done]. by rewrite <- !app_assoc.
Qed.

(** X12: [save_to_json] never raises.  On an empty list it returns
    [False] and touches nothing.  Else it reads the clock, then opens the
    file named; when that fails it does nothing more; when it succeeds it
    dumps one document, whose timestamp is the clock reading, whose count is
    the length of the list and whose listings are the list as given, and
    closes the file whether or not the dump raised.  The calls in the log
    are the calls made on the clock and the file system, with the answers
    they gave.  It returns [True] exactly when the dump and the closing both
    succeeded. *)
Theorem save_to_json_outcome (listings : list (gmap string pyval))
    (filename : pystr) (s : world * list action) :
  match listings with
  | [] => save_to_json listings filename s = (Ok false, s)
  | _ :: _ =>
      exists saved w' now r_open rest,
        save_to_json listings filename s
        = (Ok saved,
           (w', s.2 ++ IsoStamped now :: Opened filename r_open :: rest))
        /\ performed s.1 (IsoStamped now :: Opened filename r_open :: rest) w'
        /\ match r_open with
           | Ok _ =>
               exists r_dump r_close,
                 rest = [Dumped filename
                           {| timestamp := now;
                              search_query := py "car cover";
                              total_listings := length listings;
                              listings := listings |} r_dump;
                         Closed filename r_close]
                 /\ (saved = true <-> r_dump = Ok () /\ r_close = Ok ())
           | Raise _ => saved = false /\ rest = []
           end
  end.
Proof.
  destruct listings as [|first others]; [done|].
  set (listings := first :: others).
  assert (Hrun : exists saved w' now r_open rest,
             save_to_json listings filename s
             = (Ok saved,
                (w', s.2 ++ IsoStamped now :: Opened filename r_open :: rest))
             /\ match r_open with
                | Ok _ =>
                    exists r_dump r_close,
                      rest = [Dumped filename
                                {| timestamp := now;
                                   search_query := py "car cover";
                                   total_listings := length listings;
                                   listings := listings |} r_dump;
                              Closed filename r_close]
                      /\ (saved = true <-> r_dump = Ok () /\ r_close = Ok ())
                | Raise _ => saved = false /\ rest = []
                end).
  { unfold save_to_json. cbn [listings nonempty_list negb]. fold listings.
    unfold attempt. rewrite IO_bind_run, clock_run.
    destruct (now_isoformat s.1) as [now w0]. cbn [fst snd].
    rewrite IO_bind_run, with_open_run. cbn [fst snd].
    destruct (open_write filename w0) as [[[]|e] w1].
    - rewrite call_run. cbn [fst snd].
      destruct (json_dump filename _ w1) as [r_dump w2]. cbn [fst snd].
      destruct (close_file filename w2) as [r_close w3].
      exists (match r_dump, r_close with
              | Ok _, Ok _ => true
              | _, _ => false
              end),
        w3, now, (Ok ()),
        [Dumped filename
           {| timestamp := now; search_query := py "car cover";
              total_listings := length listings; listings := listings |}
           r_dump;
         Closed filename r_close].
      split.
      + rewrite <- !app_assoc.
        destruct r_dump as [[]|], r_close as [[]|]; reflexivity.
      + exists r_dump, r_close. split; [done|].
        destruct r_dump as [[]|], r_close as [[]|];
          (split; [by intros|by intros [? ?]]).
    - exists false, w1, now, (Raise e), []. split; [|done].
      by rewrite <- !app_assoc. }
  destruct Hrun as (saved & w' & now & r_open & rest & Hrun & Hrest).
  exists saved, w', now, r_open, rest. split; [done|]. split; [|done].
  exact (faithful_run _ _ _ _ _ (faithful_save_to_json listings filename) Hrun).
Qed.

End SavingFacts.

(** ** Where the listings come from *)

Section Yields.
Context {world : Type}.

Lemma yields_ret {A} (Q : res A -> list event -> Prop) (a : A) :
  Q (Ok a) [] -> yields Q (mret a : M world A).
Proof. intros HQ s. exists []. split; [by rewrite app_nil_r|done]. Qed.

Lemma yields_bind {A C} (Q1 : res A -> list event -> Prop)
    (Q : res C -> list event -> Prop) (m : M world A) (f : A -> M world C) :
  yields Q1 m ->
  (forall a l1, Q1 (Ok a) l1 -> yields (fun r l2 => Q r (l1 ++ l2)) (f a)) ->
  (forall e l1, Q1 (Raise e) l1 -> Q (Raise e) l1) ->
  yields Q (m ≫= f).
Proof.
  intros Hm Hf He s. rewrite M_bind_run.
  destruct (Hm s) as [l1 [E1 H1]].
  destruct (m s) as [[a|e] s1]; cbn [fst snd] in *.
  - destruct (Hf a l1 H1 s1) as [l2 [E2 H2]].
    exists (l1 ++ l2). by rewrite E2, E1, app_assoc.
  - exists l1. split; [done|]. by apply He.
Qed.

Lemma yields_try_except {A} (Q1 Q : res A -> list event -> Prop)
    (body : M world A) (handler : exn -> M world A) :
  yields Q1 body ->
  (forall a l1, Q1 (Ok a) l1 -> Q (Ok a) l1) ->
  (forall e l1, Q1 (Raise e) l1 ->
                yields (fun r l2 => Q r (l1 ++ l2)) (handler e)) ->
  yields Q (try_except body handler).
Proof.
  intros Hm Ha Hh s. unfold try_except.
  destruct (Hm s) as [l1 [E1 H1]].
  destruct (body s) as [[a|e] s1]; cbn [fst snd] in *.
  - exists l1. split; [done|]. by apply Ha.
  - destruct (Hh e l1 H1 s1) as [l2 [E2 H2]].
    exists (l1 ++ l2). by rewrite E2, E1, app_assoc.
Qed.

Lemma yields_perform {A} (log : res A -> event)
    (call : world -> res A * world) :
  yields (fun r l => l = [log r]) (perform log call).
Proof. intros s. rewrite perform_run. by eexists. Qed.

Lemma yields_logs_only {A} (P : event -> Prop) (m : M world A) :
  logs_only P m -> yields (fun _ l => Forall P l) m.
Proof. intros Hm s. destruct (Hm s) as [l [E H]]. by exists l. Qed.

End Yields.

Section Provenance.
Context {U : UnicodeData} {world : Type} {B : Browser world}.

(** A selector that [wait_loop] returns is one of the candidates, and its
    wait succeeded. *)
Lemma yields_wait_loop (timeout : Z) (selectors : list string) :
  yields (fun r l =>
            forall selector, r = Ok (Some selector) ->
              selector ∈ selectors
              /\ Waited selector timeout (Ok ()) ∈ l)
    (wait_loop selectors timeout : M world (option string)).
Proof.
  induction selectors as [|selector rest IH]; intros s.
  - exists []. split; [by rewrite app_nil_r|]. by intros sel [=].
  - cbn [wait_loop]. rewrite perform_run.
    destruct (wait_presence selector timeout s.1) as [[[]|e] w1];
      cbn [fst snd].
    + eexists. split; [done|]. intros sel [= <-].
      split; [by left|by left].
    + assert (Hhere : exists events,
                (s.2 ++ [Waited selector timeout (Raise e)]) = s.2 ++ events
                /\ forall sel, @Raise (option string) e = Ok (Some sel) ->
                     sel ∈ selector :: rest
                     /\ Waited sel timeout (Ok ()) ∈ events).
      { eexists. split; [done|]. by intros sel [=]. }
      destruct e; try exact Hhere.
      destruct (IH (w1, s.2 ++ [Waited selector timeout
                                  (Raise TimeoutException)]))
        as [events [E HQ]].
      cbn [snd] in E. rewrite <- app_assoc in E.
      eexists. split; [exact E|]. intros sel Hsel.
      destruct (HQ sel Hsel) as [Hin Hw]. split; by right.
Qed.

Lemma provenance_later (listings : list (gmap string pyval))
    (before events : list event) :
  provenance listings events -> provenance listings (before ++ events).
Proof.
  intros [->|[[page [Hp ->]]|[sel [elements [Hs [Hw [Hf ->]]]]]]].
  - by left.
  - right. left. exists page. split; [|done].
    apply elem_of_app. by right.
  - right. right. exists sel, elements.
    split; [done|]. split; [apply elem_of_app; by right|].
    split; [apply elem_of_app; by right|done].
Qed.

Lemma provenance_earlier (listings : list (gmap string pyval))
    (events after : list event) :
  provenance listings events -> provenance listings (events ++ after).
Proof.
  intros [->|[[page [Hp ->]]|[sel [elements [Hs [Hw [Hf ->]]]]]]].
  - by left.
  - right. left. exists page. split; [|done].
    apply elem_of_app. by left.
  - right. right. exists sel, elements.
    split; [done|]. split; [apply elem_of_app; by left|].
    split; [apply elem_of_app; by left|done].
Qed.

Lemma session_provenance :
  yields (fun r l => exists listings, r = Ok listings /\ provenance listings l)
    (session (U := U) (B := B) []).
Proof.
  unfold session.
  apply yields_try_except
    with (Q1 := fun r l => match r with
                           | Ok listings => provenance listings l
                           | Raise _ => True
                           end).
  2: { intros listings l H. by exists listings. }
  2: { intros e l _. apply yields_ret. exists []. split; [done|by left]. }
  eapply yields_bind; [apply yields_perform| |done].
  intros _ l1 _.
  eapply yields_bind;
    [apply (yields_logs_only (fun _ => True)), logs_only_sleep; done| |done].
  intros _ l2 _.
  eapply yields_bind.
  { unfold wait_for_listings.
    apply yields_try_except
      with (Q1 := fun r l =>
                    forall selector, r = Ok (Some selector) ->
                      selector ∈ listing_selectors
                      /\ Waited selector 15 (Ok ()) ∈ l)
           (Q := fun r l =>
                    forall selector, r = Ok (Some selector) ->
                      selector ∈ listing_selectors
                      /\ Waited selector 15 (Ok ()) ∈ l).
    - apply yields_wait_loop.
    - done.
    - intros e l _. apply yields_ret. by intros sel [=]. }
  2: done.
  intros [selector|] l3 Hsel.
  - destruct (Hsel selector eq_refl) as [Hin Hwait].
    eapply yields_bind;
      [apply (yields_logs_only (fun _ => True)), logs_only_scroll_loop; done
      | |done].
    intros _ l4 _.
    eapply yields_bind; [apply yields_perform| |done].
    intros listing_elements l5 ->.
    apply yields_ret. rewrite app_nil_r.
    apply provenance_later, provenance_later.
    right. right. exists selector, listing_elements.
    split; [done|]. split; [apply elem_of_app; by left|].
    split; [|done]. apply elem_of_app. right. apply elem_of_app. right.
    by left.
  - eapply yields_bind; [apply yields_perform| |done].
    intros page_source l4 ->.
    eapply yields_bind; [apply yields_perform| |done].
    intros _ l5 _.
    apply yields_ret.
    apply provenance_later, provenance_later, provenance_later.
    right. left. exists page_source. split; [|done].
    apply elem_of_app. left. by left.
Qed.

Lemma fieldnames_keys (key : string) :
  key ∈ fieldnames <-> key ∈ listing_keys.
Proof.
  unfold listing_keys, fieldnames.
  rewrite !elem_of_union, !elem_of_singleton, !elem_of_cons, elem_of_nil.
  tauto.
Qed.

Lemma csv_row_lookup (listing : gmap string pyval) (key : string) :
  key ∈ fieldnames -> csv_row listing !! key = Some (get_or_NA listing key).
Proof.
  unfold fieldnames, csv_row. intros Hkey.
  repeat (apply elem_of_cons in Hkey as [->|Hkey]; [by simplify_map_eq|]).
  by apply elem_of_nil in Hkey.
Qed.

Lemma csv_row_dom (listing : gmap string pyval) :
  dom (csv_row listing) = listing_keys.
Proof.
  unfold csv_row, listing_keys. rewrite !dom_insert_L, dom_empty_L.
  set_solver.
Qed.

Lemma csv_row_id (listing : gmap string pyval) :
  dom listing = listing_keys -> csv_row listing = listing.
Proof.
  intros Hdom. apply map_eq. intros key.
  destruct (decide (key ∈ fieldnames)) as [Hkey|Hkey].
  - rewrite csv_row_lookup by done. unfold get_or_NA.
    assert (Hin : key ∈ dom listing).
    { rewrite Hdom. by apply fieldnames_keys. }
    apply elem_of_dom in Hin as [v Hv]. by rewrite Hv.
  - assert (Hout : key ∉ listing_keys).
    { by rewrite <- fieldnames_keys. }
    rewrite (proj1 (not_elem_of_dom _ _)) by by rewrite csv_row_dom.
    symmetry. apply not_elem_of_dom. by rewrite Hdom.
Qed.

(** The row [save_to_csv] writes for a listing has exactly the five column
    keys; under each it holds the listing's value, or "N/A" when the listing
    lacks the key; keys of the listing that are no column are dropped. *)
Lemma csv_row_projection (listing : gmap string pyval) :
  dom (csv_row listing) = listing_keys
  /\ (forall key value,
        csv_row listing !! key = Some value
        <-> key ∈ fieldnames
            /\ (listing !! key = Some value
                \/ (listing !! key = None /\ value = PStr NA)))
  /\ csv_row (csv_row listing) = csv_row listing
  /\ (dom listing = listing_keys -> csv_row listing = listing).
Proof.
  split; [apply csv_row_dom|]. split; [|split].
  - intros key value. split.
    + intros Hrow.
      assert (Hkey : key ∈ fieldnames).
      { assert (Hin : key ∈ dom (csv_row listing)) by by apply elem_of_dom.
        rewrite csv_row_dom in Hin. by apply fieldnames_keys. }
      split; [done|]. rewrite csv_row_lookup in Hrow by done.
      unfold get_or_NA in Hrow.
      destruct (listing !! key) as [v|]; simplify_eq/=.
      * by left.
      * by right.
    + intros [Hkey Hval]. rewrite csv_row_lookup by done. unfold get_or_NA.
      by destruct Hval as [->|[-> ->]].
  - apply csv_row_id, csv_row_dom.
  - apply csv_row_id.
Qed.

Lemma listing_loop_Forall (P : gmap string pyval -> Prop) :
  (forall n listing, extract_listing_data n = Some listing -> P listing) ->
  forall listing_elements all_listings,
    Forall P all_listings ->
    Forall P (listing_loop listing_elements all_listings).
Proof.
  intros HP. induction listing_elements as [|element rest IH];
    intros acc Hacc; [done|].
  cbn [listing_loop].
  destruct (extract_listing_data element) as [data|] eqn:E; [|by apply IH].
  destruct (is_car_cover_listing data) as [[]|]; try by apply IH.
  apply IH, Forall_app. split; [done|].
  constructor; [by eapply HP|constructor].
Qed.

(** A record with the five keys and a string for title. *)
Lemma extract_listing_data_keys (n : node) (listing : gmap string pyval) :
  extract_listing_data n = Some listing ->
  dom listing = listing_keys
  /\ exists title, listing !! "title"%string = Some (PStr title).
Proof.
  intros E. destruct (extract_listing_data_Some n listing E) as [url [_ ->]].
  split.
  - unfold listing_keys. rewrite !dom_insert_L, dom_empty_L. set_solver.
  - eexists. by simplify_map_eq.
Qed.

Lemma extract_from_page_source_keys (page_source : pystr) :
  Forall (fun listing : gmap string pyval =>
            dom listing = listing_keys
            /\ exists title, listing !! "title"%string = Some (PStr title))
    (extract_from_page_source page_source).
Proof.
  rewrite extract_from_page_source_omap.
  apply Forall_forall. intros listing Hl.
  apply list_elem_of_omap in Hl as [m [_ Hm]].
  destruct (degraded_listing_Some _ _ _ Hm) as [title [-> _]].
  split.
  - unfold listing_keys. rewrite !dom_insert_L, dom_empty_L. set_solver.
  - exists title. by simplify_map_eq.
Qed.

(** X13: whatever the browser does, a list that [scrape_listings] returns
    is empty, or what [extract_from_page_source] reads from a page source
    the driver handed out, or what the loop keeps of the elements found
    under a candidate selector whose wait succeeded.  So every record
    returned has exactly the five keys and a string for title, and the row
    that [save_to_csv] writes for it is the record itself. *)
Theorem scrape_listings_provenance (s : world * list event) :
  exists events,
    (scrape_listings s).2.2 = s.2 ++ events
    /\ match (scrape_listings s).1 with
       | Ok listings =>
           provenance listings events
           /\ Forall (fun listing =>
                        dom listing = listing_keys
                        /\ (exists title,
                              listing !! "title"%string = Some (PStr title))
                        /\ csv_row listing = listing)
                listings
       | Raise _ => True
       end.
Proof.
  assert (Hshape : forall listings events,
             provenance listings events ->
             Forall (fun listing =>
                       dom listing = listing_keys
                       /\ (exists title,
                             listing !! "title"%string = Some (PStr title))
                       /\ csv_row listing = listing)
               listings).
  { intros listings events Hp.
    assert (Hkeys : Forall (fun listing : gmap string pyval =>
                       dom listing = listing_keys
                       /\ exists title,
                            listing !! "title"%string = Some (PStr title))
                      listings).
    { destruct Hp as [->|[[page [_ ->]]|[sel [elements [_ [_ [_ ->]]]]]]].
      - constructor.
      - apply extract_from_page_source_keys.
      - apply listing_loop_Forall; [apply extract_listing_data_keys|].
        constructor. }
    eapply Forall_impl; [exact Hkeys|].
    intros listing [Hdom Htitle]. split; [done|]. split; [done|].
    by apply csv_row_id. }
  rewrite scrape_listings_run.
  destruct (start_chrome s.1) as [[[]|e] w1].
  - destruct (session_provenance (w1, s.2 ++ [Started (Ok ())]))
      as [events [E [listings [Hr Hp]]]].
    destruct (session [] (w1, s.2 ++ [Started (Ok ())])) as [r s2].
    cbn [fst snd] in *. subst r.
    destruct (driver_quit s2.1) as [[[]|e] w3]; cbn [fst snd].
    + exists (Started (Ok ()) :: events ++ [QuitDriver (Ok ())]).
      rewrite E, <- !app_assoc. split; [done|].
      split; [|by eapply Hshape].
      apply (provenance_later _ [Started (Ok ())]).
      by apply provenance_earlier.
    + exists (Started (Ok ()) :: events ++ [QuitDriver (Raise e)]).
      by rewrite E, <- !app_assoc.
  - exists [Started (Raise e)]. split; [done|].
    split; [by left|constructor].
Qed.

End Provenance.

(** ** The report of [main] *)

Section Report.
Context {U : UnicodeData} {world : Type} {B : Browser world}
  {D : System world}.





Lemma quiet_save_to_csv (listings : list (gmap string pyval))
    (filename : pystr) :
  listings <> [] -> quiet [filename] [] (save_to_csv listings filename).
Proof.
  intros Hne s. destruct listings as [|first others]; [done|].
  destruct (save_to_csv_files first others filename s)
    as (saved & w' & added & -> & Ho & Hp).
  exists saved, w', added. split; [done|]. split; [done|].
  unfold price_lines. by rewrite Hp.
Qed.

Lemma quiet_save_to_json (listings : list (gmap string pyval))
    (filename : pystr) :
  listings <> [] -> quiet [filename] [] (save_to_json listings filename).
Proof.
  intros Hne s. destruct listings as [|first others]; [done|].
  destruct (save_to_json_files first others filename s)
    as (saved & w' & added & -> & Ho & Hp).
  exists saved, w', added. split; [done|]. split; [done|].
  unfold price_lines. by rewrite Hp.
Qed.

Section Console.
Hypothesis print_ok : forall text w, (print text w).1 = Ok ().











End Console.
End Report.


(** ** The titles of degraded mode *)

(** What the matcher reads is in the language of the pattern. *)
Lemma run_denotes {A} r : forall s (k : pystr -> option A) x,
  Re.run r s k = Some x ->
  exists w rest, s = w ++ rest /\ denotes r w /\ k rest = Some x.
Proof.
  induction r as [|p|r1 IH1 r2 IH2|r1 IH1 r2 IH2|p|r1 IH1];
    intros s k x; cbn [Re.run denotes].
  - intros Hk. by exists [], s.
  - destruct s as [|c s]; [done|]. destruct (p c) eqn:Hc; [|done].
    intros Hk. exists [c], s. split; [done|]. split; [|done]. by exists c.
  - intros H1. destruct (IH1 _ _ _ H1) as [w1 [rest1 [-> [Hw1 H2]]]].
    destruct (IH2 _ _ _ H2) as [w2 [rest2 [-> [Hw2 Hk]]]].
    exists (w1 ++ w2), rest2. split; [by rewrite app_assoc|].
    split; [|done]. by exists w1, w2.
  - destruct (Re.run r1 s k) as [y|] eqn:E1.
    + intros [= <-]. destruct (IH1 _ _ _ E1) as [w [rest [-> [Hw Hk]]]].
      exists w, rest. split; [done|]. split; [by left|done].
    + intros E2. destruct (IH2 _ _ _ E2) as [w [rest [-> [Hw Hk]]]].
      exists w, rest. split; [done|]. split; [by right|done].
  - intros Hs. destruct (star_consumed _ _ _ _ Hs) as [w [rest [-> [Hk Hw]]]].
    by exists w, rest.
  - destruct (Re.run r1 s k) as [y|] eqn:E1.
    + intros [= <-]. destruct (IH1 _ _ _ E1) as [w [rest [-> [Hw Hk]]]].
      exists w, rest. split; [done|]. split; [by right|done].
    + intros Hk. exists [], s. split; [done|]. split; [by left|done].
Qed.

Lemma match_len_denotes r s n :
  Re.match_len r s = Some n -> denotes r (take n s).
Proof.
  unfold Re.match_len. destruct (Re.run r s Some) as [rest'|] eqn:E; [|done].
  destruct (run_denotes _ _ _ _ E) as [w [rest [-> [Hw [= ->]]]]].
  simpl. intros [= <-]. rewrite length_app.
  replace (length w + length rest' - length rest')%nat
    with (length w) by lia.
  by rewrite take_app_length.
Qed.

(** Trimming keeps a stretch that starts and ends with something else than
    white space, and what is before its end. *)
Lemma strip_keeps (first last : N) (middle rest : pystr) :
  isspace first = false -> isspace last = false ->
  exists rest',
    strip (first :: middle ++ last :: rest)
    = first :: middle ++ last :: rest'.
Proof.
  intros Hfirst Hlast. unfold strip, lstrip.
  cbn [drop_while]. rewrite Hfirst. unfold rstrip, lstrip.
  replace (rev (first :: middle ++ last :: rest))
    with (rev rest ++ last :: rev (first :: middle)).
  2: { cbn [rev]. rewrite rev_app_distr. cbn [rev].
       by rewrite <- !app_assoc. }
  destruct (drop_while_app_stop isspace last (rev (first :: middle))
              Hlast (rev rest)) as [a' Ha].
  rewrite Ha. exists (rev a').
  rewrite rev_app_distr. cbn [rev]. rewrite rev_app_distr, rev_involutive.
  cbn [rev app]. by rewrite <- !app_assoc.
Qed.

Section DegradedTitles.
Context {U : UnicodeData}.
Hypothesis letters_not_space : forall l c,
  (97 <= l <= 122)%N -> ignorecase_beyond_ascii l c = true ->
  isspace c = false.

Lemma ignorecase_not_space (l c : N) :
  (97 <= l <= 122)%N -> ignorecase l c = true -> isspace c = false.
Proof.
  intros Hl. unfold ignorecase.
  destruct (is_ascii c) eqn:Ha; [|by apply letters_not_space].
  unfold is_ascii in Ha. apply N.ltb_lt in Ha.
  intros Hc. apply N.eqb_eq in Hc.
  assert (Hletter : (65 <= c)%N).
  { unfold ascii_lower in Hc.
    destruct ((65 <=? c) && (c <=? 90)) eqn:E; [|lia].
    apply andb_true_iff in E as [E _]. by apply N.leb_le. }
  unfold isspace.
  repeat (apply orb_false_intro);
    try (apply N.eqb_neq; lia);
    apply andb_false_iff;
    ((right; apply N.leb_gt; lia) || (left; apply N.leb_gt; lia)).
Qed.

(** A word of the pattern matches letter by letter. *)
Lemma word_spells (letters : pystr) : forall w,
  denotes (Re.seq_of ((fun l => Re.Chr (ignorecase l)) <$> letters)) w ->
  Forall2 (fun l c => ignorecase l c = true) letters w.
Proof.
  induction letters as [|l letters IH]; intros w.
  - cbn. intros ->. constructor.
  - destruct letters as [|l' letters'].
    + cbn. intros [c [-> Hc]]. by repeat constructor.
    + cbn [fmap list_fmap Re.seq_of denotes] in *.
      intros (w1 & w2 & -> & (c & -> & Hc) & H2).
      constructor; [done|]. by apply IH.
Qed.

Lemma spelled_not_space (letters w : pystr) :
  Forall (fun l => (97 <= l <= 122)%N) letters ->
  Forall2 (fun l c => ignorecase l c = true) letters w ->
  Forall (fun c => isspace c = false) w.
Proof.
  intros Hletters Hw. induction Hw as [|l c letters w Hc Hw IH];
    [constructor|].
  apply Forall_cons in Hletters as [Hl Hletters].
  constructor; [by eapply ignorecase_not_space|by apply IH].
Qed.

Lemma cover_of_shape (what : string) (k : pystr) :
  py what <> [] ->
  Forall (fun l => (97 <= l <= 122)%N) (py what) ->
  denotes (cover_of what) k ->
  exists first middle last,
    k = first :: middle ++ [last]
    /\ isspace first = false /\ isspace last = false.
Proof.
  intros Hne Hletters.
  unfold cover_of, word. cbn [Re.seq_of denotes].
  intros (w & w2 & -> & Hw & spaces & cover & -> & _ & Hcover).
  apply word_spells in Hw, Hcover.
  assert (Hw_ns := spelled_not_space _ _ Hletters Hw).
  assert (Hcover_ns : Forall (fun c => isspace c = false) cover).
  { eapply spelled_not_space; [|exact Hcover].
    repeat constructor; vm_compute; by intros [=]. }
  destruct w as [|first w].
  { apply Forall2_nil_inv_r in Hw. by destruct Hne. }
  destruct (exists_last (l := cover)) as [front [last ->]].
  { intros ->. by apply Forall2_nil_inv_r in Hcover. }
  exists first, (w ++ spaces ++ front), last.
  split; [cbn [app]; by rewrite <- !app_assoc|].
  apply Forall_cons in Hw_ns as [Hfirst _].
  apply Forall_app in Hcover_ns as [_ Hlast].
  apply Forall_cons in Hlast as [Hlast _]. by split.
Qed.

Lemma cover_keyword_shape (k : pystr) :
  denotes cover_keyword k ->
  exists first middle last,
    k = first :: middle ++ [last]
    /\ isspace first = false /\ isspace last = false.
Proof.
  intros [Hk|[Hk|[Hk|Hk]]];
    (eapply cover_of_shape; [| |exact Hk];
     [done|repeat constructor; vm_compute; by intros [=]]).
Qed.

(** X15: when no white space counts as a letter without regard to case,
    every title of [extract_from_page_source] begins with a cover keyword as
    the title pattern reads it: "car", "seat", "body" or "wheel", white
    space or none, and "cover", in any case; so no title is empty. *)
Theorem degraded_title_begins_with_keyword (markup : pystr) :
  Forall (fun listing : gmap string pyval =>
            exists keyword rest,
              listing !! "title"%string = Some (PStr (keyword ++ rest))
              /\ denotes cover_keyword keyword
              /\ keyword <> [])
    (extract_from_page_source markup).
Proof.
  rewrite extract_from_page_source_omap.
  apply Forall_forall. intros listing Hl.
  apply list_elem_of_omap in Hl as [m [_ Hm]].
  unfold degraded_listing in Hm.
  pose proof (search_leftmost title_pattern (context_window markup m)) as Hs.
  destruct (Re.search title_pattern (context_window markup m))
    as [[a b]|]; cbn [mbind option_bind] in Hm; [|done].
  injection Hm as <-.
  destruct Hs as [_ [[n [Hn Hb]] _]]. cbn [fst snd] in *. subst b.
  apply match_len_denotes in Hn.
  unfold Re.group, slice. cbn [fst snd].
  replace (a + n - a)%nat with n by lia.
  destruct Hn as (keyword & tail & -> & Hkeyword & _).
  destruct (cover_keyword_shape keyword Hkeyword)
    as (first & middle & last & -> & Hfirst & Hlast).
  destruct (strip_keeps first last middle tail Hfirst Hlast) as [rest Hrest].
  exists (first :: middle ++ [last]), rest.
  split; [|split; [done|done]].
  rewrite lookup_insert_eq. do 2 f_equal.
  cbn [app]. rewrite <- !app_assoc. cbn [app]. exact Hrest.
Qed.

End DegradedTitles.

(** X15 on the page of the spec's scenario. *)
Lemma degraded_title_begins_with_keyword_witness :
  Forall (fun listing : gmap string pyval =>
            exists keyword rest,
              listing !! "title"%string = Some (PStr (keyword ++ rest))
              /\ denotes (cover_keyword (U := ascii_only)) keyword
              /\ keyword <> [])
    (extract_from_page_source (U := ascii_only) sedan_page).
Proof.
  apply (degraded_title_begins_with_keyword (U := ascii_only)).
  by intros l c _ H.
Defined.
